(** * yedit: path-addressed editing of YAML/JSON trees

    A shallow embedding of [plugins/modules/yedit.py] (class [Yedit]) and
    the properties of its path grammar, tree navigation, tree mutation,
    document-engine operations and durable write protocol.

    Conventions of the embedding.
    - Python values are the inductive [value]; the scalars are [None],
      booleans, integers and strings, mappings are insertion-ordered
      association lists with string keys. Floats are left out of
      [value]; Module [Floating] has the lookup, the upsert and [put]
      over documents that hold them.
    - A Python function that mutates its argument in place returns the
      final state of that argument next to its outcome.
    - An outcome is [Ok r] (the function returned [r]) or [Raise e] (the
      exception [e] propagated to the caller).
    - Trees have no sharing, so mutating the object that a walk reached is
      replacing the node at the end of that walk.
    - Strings are sequences of 8-bit characters: [\d] is an ASCII digit
      and [.] is any character but the newline. *)

From Stdlib Require Import ZArith List String Ascii Bool Lia.
From stdpp Require Import base strings list gmap.

Local Open Scope string_scope.
Local Open Scope Z_scope.

(* ================================================================== *)
(** * Python values                                                    *)
(* ================================================================== *)

Module Py.

(** The exception classes that the modelled code can raise. *)
Inductive exn : Set :=
| YeditException
| IndexError
| KeyError
| TypeError
| ValueError.

Inductive res (A : Type) : Type :=
| Ok (a : A)
| Raise (e : exn).
Arguments Ok {A} a.
Arguments Raise {A} e.

Definition is_raise {A} (r : res A) : bool :=
  match r with Ok _ => false | Raise _ => true end.

Unset Elimination Schemes.
Inductive value : Type :=
| VNone
| VBool (b : bool)
| VInt (z : Z)
| VStr (s : string)
| VList (l : list value)
| VDict (d : list (string * value)).
Set Elimination Schemes.

Definition is_list (v : value) : bool :=
  match v with VList _ => true | _ => false end.

Definition is_dict (v : value) : bool :=
  match v with VDict _ => true | _ => false end.

(** [isinstance(v, (list, dict))] *)
Definition is_container (v : value) : bool := is_list v || is_dict v.

(** [v is None] *)
Definition is_none (v : value) : bool :=
  match v with VNone => true | _ => false end.

(** [bool(v)] *)
Definition truthy (v : value) : bool :=
  match v with
  | VNone => false
  | VBool b => b
  | VInt z => negb (z =? 0)
  | VStr s => negb (s =? "")%string
  | VList l => match l with [] => false | _ :: _ => true end
  | VDict d => match d with [] => false | _ :: _ => true end
  end.

(** ** Mappings: insertion-ordered, keyed by strings *)

(** [d.get(k)], [None] of the option standing for an absent key *)
Fixpoint dict_get (k : string) (d : list (string * value)) : option value :=
  match d with
  | [] => None
  | (k', v) :: r => if (k =? k')%string then Some v else dict_get k r
  end.

(** [k in d] *)
Definition dict_has (k : string) (d : list (string * value)) : bool :=
  match dict_get k d with Some _ => true | None => false end.

(** [d[k] = v]: an existing key keeps its position, a new one goes last *)
Fixpoint dict_set (k : string) (v : value) (d : list (string * value))
  : list (string * value) :=
  match d with
  | [] => [(k, v)]
  | (k', v') :: r =>
      if (k =? k')%string then (k', v) :: r else (k', v') :: dict_set k v r
  end.

(** [del d[k]] for a key that is present *)
Fixpoint dict_del (k : string) (d : list (string * value))
  : list (string * value) :=
  match d with
  | [] => []
  | (k', v') :: r =>
      if (k =? k')%string then r else (k', v') :: dict_del k r
  end.

(** [d.update(new)] *)
Definition dict_update (d new : list (string * value))
  : list (string * value) :=
  fold_left (fun acc kv => dict_set (fst kv) (snd kv) acc) new d.

(** Keys of a mapping are pairwise distinct, at every depth. *)
Fixpoint nodup_keys (ks : list string) : bool :=
  match ks with
  | [] => true
  | k :: r => negb (existsb (String.eqb k) r) && nodup_keys r
  end.

Fixpoint wf (v : value) : bool :=
  match v with
  | VList l => forallb wf l
  | VDict d =>
      nodup_keys (map fst d)
      && (fix wf_items (d : list (string * value)) : bool :=
            match d with
            | [] => true
            | kv :: r => wf (snd kv) && wf_items r
            end) d
  | _ => true
  end.

(** ** Equality [a == b]

    Booleans compare as the integers 0 and 1; sequences compare
    element by element; mappings compare as sets of items, whatever
    their insertion order. *)
Fixpoint py_eq (a b : value) {struct a} : bool :=
  match a with
  | VNone => match b with VNone => true | _ => false end
  | VBool x =>
      match b with
      | VBool y => Bool.eqb x y
      | VInt y => (Z.b2z x =? y)
      | _ => false
      end
  | VInt x =>
      match b with
      | VBool y => (x =? Z.b2z y)
      | VInt y => (x =? y)
      | _ => false
      end
  | VStr x => match b with VStr y => (x =? y)%string | _ => false end
  | VList l1 =>
      match b with
      | VList l2 =>
          (fix eq_items (l1 l2 : list value) : bool :=
             match l1, l2 with
             | [], [] => true
             | x :: r1, y :: r2 => py_eq x y && eq_items r1 r2
             | _, _ => false
             end) l1 l2
      | _ => false
      end
  | VDict d1 =>
      match b with
      | VDict d2 =>
          (length d1 =? length d2)%nat
          && (fix sub_items (d1 : list (string * value)) : bool :=
                match d1 with
                | [] => true
                | kv :: r =>
                    match dict_get (fst kv) d2 with
                    | Some w => py_eq (snd kv) w
                    | None => false
                    end && sub_items r
                end) d1
      | _ => false
      end
  end.

(** ** Sequences *)

(** Position addressed by the subscript [i] in a sequence of [n]
    elements: [i] itself, or [n + i] for a negative [i]. *)
Definition norm_index (i : Z) (n : nat) : option nat :=
  if 0 <=? i then
    if i <? Z.of_nat n then Some (Z.to_nat i) else None
  else
    if 0 <=? Z.of_nat n + i then Some (Z.to_nat (Z.of_nat n + i)) else None.

(** [l[i]] *)
Definition list_getitem (l : list value) (i : Z) : res value :=
  match norm_index i (length l) with
  | Some j => match l !! j with Some v => Ok v | None => Raise IndexError end
  | None => Raise IndexError
  end.

(** [l[i] = v] *)
Definition list_setitem (l : list value) (i : Z) (v : value)
  : res (list value) :=
  match norm_index i (length l) with
  | Some j => Ok (<[j := v]> l)
  | None => Raise IndexError
  end.

(** [del l[i]], also [l.pop(i)] with the popped element dropped *)
Definition list_delitem (l : list value) (i : Z) : res (list value) :=
  match norm_index i (length l) with
  | Some j => Ok (delete j l)
  | None => Raise IndexError
  end.

(** [l.insert(i, v)]: the position is clamped to [0 .. len(l)] *)
Definition list_insert_at (l : list value) (i : Z) (v : value) : list value :=
  let n := Z.of_nat (length l) in
  let j := if i <? 0 then Z.max 0 (n + i) else Z.min i n in
  take (Z.to_nat j) l ++ v :: drop (Z.to_nat j) l.

(** [l.index(x)]: position of the first element equal to [x];
    [None] stands for [ValueError]. *)
Fixpoint list_index (l : list value) (x : value) : option nat :=
  match l with
  | [] => None
  | y :: r =>
      if py_eq y x then Some 0%nat
      else match list_index r x with Some j => Some (S j) | None => None end
  end.

End Py.
Export Py.

(* ================================================================== *)
(** * Regular expressions, as far as the two patterns need them        *)
(* ================================================================== *)

Module Re.

Inductive regex : Type :=
| Void
| Eps
| Chr (p : ascii -> bool)
| Alt (r1 r2 : regex)
| Cat (r1 r2 : regex)
| Star (r : regex).

Definition Plus (r : regex) : regex := Cat r (Star r).
Definition Opt (r : regex) : regex := Alt r Eps.

Fixpoint nullable (r : regex) : bool :=
  match r with
  | Void => false
  | Eps => true
  | Chr _ => false
  | Alt r1 r2 => nullable r1 || nullable r2
  | Cat r1 r2 => nullable r1 && nullable r2
  | Star _ => true
  end.

(** Derivative of [r] by the character [c]. *)
Fixpoint deriv (c : ascii) (r : regex) : regex :=
  match r with
  | Void => Void
  | Eps => Void
  | Chr p => if p c then Eps else Void
  | Alt r1 r2 => Alt (deriv c r1) (deriv c r2)
  | Cat r1 r2 =>
      if nullable r1
      then Alt (Cat (deriv c r1) r2) (deriv c r2)
      else Cat (deriv c r1) r2
  | Star r1 => Cat (deriv c r1) (Star r1)
  end.

(** The whole of [s] is a word of [r]. *)
Fixpoint fullmatch (r : regex) (s : string) : bool :=
  match s with
  | EmptyString => nullable r
  | String c s' => fullmatch (deriv c r) s'
  end.

Definition newline : ascii := ascii_of_nat 10.

Fixpoint ends_with_newline (s : string) : option string :=
  match s with
  | EmptyString => None
  | String c EmptyString =>
      if Ascii.eqb c newline then Some EmptyString else None
  | String c s' =>
      match ends_with_newline s' with
      | Some t => Some (String c t)
      | None => None
      end
  end.

(** [re.match(r + "$", s)] is not [None]: the pattern is anchored at the
    start, and [$] holds at the end of [s] or before a last newline. *)
Definition match_to_end (r : regex) (s : string) : bool :=
  fullmatch r s
  || match ends_with_newline s with
     | Some t => fullmatch r t
     | None => false
     end.

Definition in_range (lo hi : nat) (c : ascii) : bool :=
  (lo <=? nat_of_ascii c)%nat && (nat_of_ascii c <=? hi)%nat.

(** [\d] *)
Definition digit (c : ascii) : bool := in_range 48 57 c.

(** [0-9a-zA-Z] *)
Definition alnum (c : ascii) : bool :=
  digit c || in_range 97 122 c || in_range 65 90 c.

(** [.] *)
Definition dot (c : ascii) : bool := negb (Ascii.eqb c newline).

Definition lit (a : ascii) (c : ascii) : bool := Ascii.eqb a c.

Definition one_of (cs : list ascii) (c : ascii) : bool :=
  existsb (Ascii.eqb c) cs.

(** Longest prefix of [s] whose characters satisfy [p], and the rest. *)
Fixpoint span (p : ascii -> bool) (s : string) : string * string :=
  match s with
  | EmptyString => (EmptyString, EmptyString)
  | String c s' =>
      if p c then let '(a, b) := span p s' in (String c a, b)
      else (EmptyString, s)
  end.

Definition digit_val (c : ascii) : Z := Z.of_nat (nat_of_ascii c - 48).

Fixpoint digits_val (acc : Z) (s : string) : Z :=
  match s with
  | EmptyString => acc
  | String c s' => digits_val (10 * acc + digit_val c) s'
  end.

(** [int(s)] for a text [s] of the form [-?\d+] *)
Definition py_int (s : string) : Z :=
  match s with
  | String "-"%char s' => - digits_val 0 s'
  | _ => digits_val 0 s
  end.

End Re.

(* ================================================================== *)
(** * The class [Yedit]                                                *)
(* ================================================================== *)

Module Yedit.
Import Re.

(** A tuple of [re.findall(re_key, key)]. The pattern has two groups of
    which exactly one takes part in a match: [(N, '')] is [SIdx (int N)]
    and [('', k)] is [SKey k], so the tests [if dict_key] and
    [arr_ind and ...] of the source are tests on the constructor. *)
Inductive step : Type :=
| SIdx (arr_ind : Z)
| SKey (dict_key : string).

(** [com_sep = set(['.', '#', '|', ':'])] *)
Definition com_sep : list ascii := ["."; "#"; "|"; ":"]%char.

(** [list(Yedit.com_sep - set([sep]))]: a separator of another length
    than one character removes nothing. *)
Definition common_separators (sep : string) : list ascii :=
  filter (fun c => negb (String c EmptyString =? sep)%string) com_sep.

(** [\[-?\d+\]] *)
Definition re_index : regex :=
  Cat (Chr (lit "["))
      (Cat (Opt (Chr (lit "-"))) (Cat (Plus (Chr digit)) (Chr (lit "]")))).

(** The class [[0-9a-zA-Z%s/_-]] of [re_valid_key]. The pattern is
    completed with [str.format], which leaves [%s] as it is: the class
    holds the percent sign and no separator. *)
Definition valid_key_char (c : ascii) : bool :=
  alnum c || one_of ["%"; "s"; "/"; "_"; "-"]%char c.

(** [re_valid_key = r"(((\[-?\d+\])|([0-9a-zA-Z%s/_-]+)).?)+$"],
    less the final [$] *)
Definition re_valid_key : regex :=
  Plus (Cat (Alt re_index (Plus (Chr valid_key_char))) (Opt (Chr dot))).

(** The class [[0-9a-zA-Z{}/_-]] of [re_key], the braces filled with
    the common separators other than [sep]. *)
Definition key_char (sep : string) (c : ascii) : bool :=
  alnum c || one_of (common_separators sep) c || one_of ["/"; "_"; "-"]%char c.

(** One attempt of [re_key = r"(?:\[(-?\d+)\])|([0-9a-zA-Z{}/_-]+)"] at
    the start of [s]: the tuple of the match and the text after it. *)
Definition match_key (sep : string) (s : string) : option (step * string) :=
  match s with
  | EmptyString => None
  | String c s1 =>
      if lit "[" c then
        let '(sign, s2) :=
          match s1 with
          | String "-"%char t => ("-", t)
          | _ => ("", s1)
          end in
        let '(ds, s3) := span digit s2 in
        match ds, s3 with
        | String _ _, String "]"%char s4 => Some (SIdx (py_int (sign ++ ds)), s4)
        | _, _ => None
        end
      else if key_char sep c then
        let '(k, rest) := span (key_char sep) s in Some (SKey k, rest)
      else None
  end.

(** [re.findall]: the matches from left to right, the search resuming
    after each match, or one character further where there is none.
    Every round consumes a character, so [String.length s] rounds of
    [fuel] exhaust [s]. *)
Fixpoint findall_key (fuel : nat) (sep : string) (s : string) : list step :=
  match fuel with
  | O => []
  | S fuel' =>
      match match_key sep s with
      | Some (st, rest) => st :: findall_key fuel' sep rest
      | None =>
          match s with
          | EmptyString => []
          | String _ s' => findall_key fuel' sep s'
          end
      end
  end.

Definition parse_key (key : string) (sep : string) : list step :=
  findall_key (String.length key) sep key.

Definition valid_key (key : string) (sep : string) : bool :=
  match_to_end re_valid_key key.

(** [bool(key)] *)
Definition nonempty (key : string) : bool := negb (key =? "")%string.


(** ** Tree navigation *)

(** The loop of [get_entry] over the tuples of the key. *)
Fixpoint get_loop (key_indexes : list step) (data : value) : res value :=
  match key_indexes with
  | [] => Ok data
  | st :: rest =>
      match st, data with
      | SKey dict_key, VDict d =>
          get_loop rest (default VNone (dict_get dict_key d))
      | SIdx arr_ind, VList l =>
          if arr_ind <=? Z.of_nat (length l) - 1 then
            match list_getitem l arr_ind with
            | Ok v => get_loop rest v
            | Raise e => Raise e
            end
          else Ok VNone
      | _, _ => Ok VNone
      end
  end.

(** [Yedit.get_entry(data, key, sep)] *)
Definition get_entry (data : value) (key sep : string) : res value :=
  if (key =? "")%string then get_loop (parse_key key sep) data
  else if negb (nonempty key && valid_key key sep) && is_container data
  then Ok VNone
  else get_loop (parse_key key sep) data.

(** The tree [data] once the object that [get_loop] reaches has been
    mutated in place into [new]. *)
Fixpoint set_loop (key_indexes : list step) (new : value) (data : value)
  : value :=
  match key_indexes with
  | [] => new
  | st :: rest =>
      match st, data with
      | SKey dict_key, VDict d =>
          match dict_get dict_key d with
          | Some child => VDict (dict_set dict_key (set_loop rest new child) d)
          | None => data
          end
      | SIdx arr_ind, VList l =>
          if arr_ind <=? Z.of_nat (length l) - 1 then
            match norm_index arr_ind (length l) with
            | Some j =>
                match l !! j with
                | Some child => VList (<[j := set_loop rest new child]> l)
                | None => data
                end
            | None => data
            end
          else data
      | _, _ => data
      end
  end.

(** The tree [data] once the entry that [get_entry(data, key, sep)]
    returned has been mutated in place into [new]. *)
Definition set_entry (data : value) (key sep : string) (new : value)
  : value :=
  if (key =? "")%string then set_loop (parse_key key sep) new data
  else if negb (nonempty key && valid_key key sep) && is_container data
  then data
  else set_loop (parse_key key sep) new data.

(** ** Tree mutation *)

(** The last step of [add_entry] on the container [data] that the loop
    reached: the returned object is that container. *)
Definition add_last (st : step) (item : value) (data : value)
  : res value * value :=
  match st, data with
  | SIdx arr_ind, VList l =>
      if arr_ind <=? Z.of_nat (length l) then
        if arr_ind >? Z.of_nat (length l) - 1 then
          (Ok (VList (l ++ [item])), VList (l ++ [item]))
        else
          match list_setitem l arr_ind item with
          | Ok l' => (Ok (VList l'), VList l')
          | Raise e => (Raise e, data)
          end
      else (Raise YeditException, data)
  | SKey dict_key, VDict d =>
      (Ok (VDict (dict_set dict_key item d)),
       VDict (dict_set dict_key item d))
  | _, _ => (Raise YeditException, data)
  end.

(** One round of the loop of [add_entry] over [key_indexes[:-1]], on
    the object [data]; [rest] is the run of the function on the object
    that the round moves to. *)
Definition add_round (st : step) (rest : value -> res value * value)
  (data : value) : res value * value :=
  match st with
  | SKey dict_key =>
      match data with
      | VDict d =>
          match dict_get dict_key d with
          | Some child =>
              if truthy child then
                let '(r, child') := rest child in
                (r, VDict (dict_set dict_key child' d))
              else
                let d0 := dict_set dict_key (VDict []) d in
                let '(r, child') := rest (VDict []) in
                (r, VDict (dict_set dict_key child' d0))
          | None =>
              let d0 := dict_set dict_key (VDict []) d in
              let '(r, child') := rest (VDict []) in
              (r, VDict (dict_set dict_key child' d0))
          end
      | _ =>
          if truthy data then (Raise YeditException, data)
          else (Raise TypeError, data)
      end
  | SIdx arr_ind =>
      match data with
      | VList l =>
          if arr_ind <=? Z.of_nat (length l) - 1 then
            match norm_index arr_ind (length l) with
            | Some j =>
                match l !! j with
                | Some child =>
                    let '(r, child') := rest child in
                    (r, VList (<[j := child']> l))
                | None => (Raise IndexError, data)
                end
            | None => (Raise IndexError, data)
            end
          else (Raise YeditException, data)
      | _ => (Raise YeditException, data)
      end
  end.

(** The loop of [add_entry] over [key_indexes[:-1]], followed by the
    last step; an empty [key_indexes] fails at [key_indexes[-1]]. *)
Fixpoint add_loop (key_indexes : list step) (item : value) (data : value)
  : res value * value :=
  match key_indexes with
  | [] => (Raise IndexError, data)
  | st :: rest =>
      match rest with
      | [] => add_last st item data
      | _ :: _ => add_round st (add_loop rest item) data
      end
  end.

(** [Yedit.add_entry(data, key, item, sep)]: the outcome, and [data]
    as the call leaves it. *)
Definition add_entry (data : value) (key : string) (item : value)
  (sep : string) : res value * value :=
  if (key =? "")%string then (Ok item, data)
  else if negb (nonempty key && valid_key key sep) && is_container data
  then (Ok VNone, data)
  else add_loop (parse_key key sep) item data.

(** The last step of [remove_entry]; [Some true] is [True] and [None]
    is the [None] of a function that ends without [return]. *)
Definition remove_last (st : step) (data : value)
  : res (option bool) * value :=
  match st, data with
  | SIdx arr_ind, VList l =>
      if arr_ind <=? Z.of_nat (length l) - 1 then
        match list_delitem l arr_ind with
        | Ok l' => (Ok (Some true), VList l')
        | Raise e => (Raise e, data)
        end
      else (Ok None, data)
  | SKey dict_key, VDict d =>
      if dict_has dict_key d then (Ok (Some true), VDict (dict_del dict_key d))
      else (Raise KeyError, data)
  | _, _ => (Ok None, data)
  end.

(** One round of the loop of [remove_entry] over [key_indexes[:-1]];
    [rest] is the run of the function on the object that the round
    moves to. *)
Definition remove_round (st : step)
  (rest : value -> res (option bool) * value) (data : value)
  : res (option bool) * value :=
  match st, data with
  | SKey dict_key, VDict d =>
      match dict_get dict_key d with
      | Some child =>
          let '(r, child') := rest child in
          (r, VDict (dict_set dict_key child' d))
      | None => (fst (rest VNone), data)
      end
  | SIdx arr_ind, VList l =>
      if arr_ind <=? Z.of_nat (length l) - 1 then
        match norm_index arr_ind (length l) with
        | Some j =>
            match l !! j with
            | Some child =>
                let '(r, child') := rest child in
                (r, VList (<[j := child']> l))
            | None => (Raise IndexError, data)
            end
        | None => (Raise IndexError, data)
        end
      else (Ok None, data)
  | _, _ => (Ok None, data)
  end.

(** The loop of [remove_entry] over [key_indexes[:-1]], followed by the
    last step. *)
Fixpoint remove_loop (key_indexes : list step) (data : value)
  : res (option bool) * value :=
  match key_indexes with
  | [] => (Raise IndexError, data)
  | st :: rest =>
      match rest with
      | [] => remove_last st data
      | _ :: _ => remove_round st (remove_loop rest) data
      end
  end.

(** [data.pop(value)] on a mapping: an unhashable key is a [TypeError],
    an absent one a [KeyError]. *)
Definition dict_pop (d : list (string * value)) (key : value)
  : res (list (string * value)) :=
  match key with
  | VStr k => if dict_has k d then Ok (dict_del k d) else Raise KeyError
  | VList _ | VDict _ => Raise TypeError
  | _ => Raise KeyError
  end.

(** [Yedit.remove_entry(data, key, index, value, sep)]; the arguments
    [index] and [value] default to [None]. *)
Definition remove_entry (data : value) (key : string) (index : option Z)
  (val : value) (sep : string) : res (option bool) * value :=
  match (key =? "")%string, data with
  | true, VDict d =>
      if negb (is_none val) then
        match dict_pop d val with
        | Ok d' => (Ok (Some true), VDict d')
        | Raise e => (Raise e, data)
        end
      else
        match index with
        | Some _ => (Raise YeditException, data)
        | None => (Ok (Some true), VDict [])
        end
  | true, VList l =>
      if negb (is_none val) then
        match list_index l val with
        | None => (Ok (Some false), data)
        | Some ind =>
            match list_delitem l (Z.of_nat ind) with
            | Ok l' => (Ok (Some true), VList l')
            | Raise e => (Raise e, data)
            end
        end
      else
        match index with
        | Some ind =>
            match list_delitem l ind with
            | Ok l' => (Ok (Some true), VList l')
            | Raise e => (Raise e, data)
            end
        | None => (Ok (Some true), VList [])
        end
  | _, _ =>
      if negb (nonempty key && valid_key key sep) && is_container data
      then (Ok None, data)
      else remove_loop (parse_key key sep) data
  end.


(** ** The document engine *)

(** The attributes of a [Yedit] object that the methods read. *)
Record t : Type := Build {
  filename : string;
  content_type : string;
  separator : string;
  backup_ext : string;
  backup : bool;
  yaml_dict : value
}.

(** [self.yaml_dict = v] *)
Definition set_yaml_dict (self : t) (v : value) : t :=
  Build (filename self) (content_type self) (separator self)
        (backup_ext self) (backup self) v.

(** [try: entry = get_entry(...) except KeyError: entry = None] *)
Definition entry_or_none (r : res value) : res value :=
  match r with
  | Raise KeyError => Ok VNone
  | _ => r
  end.

(** [Yedit.get(self, key)] *)
Definition get (self : t) (key : string) : res value :=
  entry_or_none (get_entry (yaml_dict self) key (separator self)).

(** [key_or_item in entry], for a mapping [entry] *)
Definition dict_contains (d : list (string * value)) (key : value)
  : res bool :=
  match key with
  | VStr k => Ok (dict_has k d)
  | VList _ | VDict _ => Raise TypeError
  | _ => Ok false
  end.

(** [Yedit.pop(self, path, key_or_item)] *)
Definition pop (self : t) (path : string) (key_or_item : value)
  : res bool * t :=
  match entry_or_none (get_entry (yaml_dict self) path (separator self)) with
  | Raise e => (Raise e, self)
  | Ok VNone => (Ok false, self)
  | Ok (VDict d) =>
      match dict_contains d key_or_item with
      | Raise e => (Raise e, self)
      | Ok true =>
          match dict_pop d key_or_item with
          | Ok d' =>
              (Ok true,
               set_yaml_dict self
                 (set_entry (yaml_dict self) path (separator self) (VDict d')))
          | Raise e => (Raise e, self)
          end
      | Ok false => (Ok false, self)
      end
  | Ok (VList l) =>
      match list_index l key_or_item with
      | None => (Ok false, self)
      | Some ind =>
          match list_delitem l (Z.of_nat ind) with
          | Ok l' =>
              (Ok true,
               set_yaml_dict self
                 (set_entry (yaml_dict self) path (separator self) (VList l')))
          | Raise e => (Raise e, self)
          end
      end
  | Ok _ => (Ok false, self)
  end.

(** [Yedit.delete(self, path, index=None, value=None)] *)
Definition delete (self : t) (path : string) (index : option Z)
  (val : value) : res bool * t :=
  match entry_or_none (get_entry (yaml_dict self) path (separator self)) with
  | Raise e => (Raise e, self)
  | Ok VNone => (Ok false, self)
  | Ok _ =>
      let '(result, data') :=
        remove_entry (yaml_dict self) path index val (separator self) in
      match result with
      | Raise e => (Raise e, set_yaml_dict self data')
      | Ok (Some true) => (Ok true, set_yaml_dict self data')
      | Ok _ => (Ok false, set_yaml_dict self data')
      end
  end.

(** [Yedit.put(self, path, value)] *)
Definition put (self : t) (path : string) (val : value) : res bool * t :=
  match entry_or_none (get_entry (yaml_dict self) path (separator self)) with
  | Raise e => (Raise e, self)
  | Ok entry =>
      if py_eq entry val then (Ok false, self)
      else
        let tmp_copy := yaml_dict self in
        let '(result, tmp_copy') :=
          add_entry tmp_copy path val (separator self) in
        match result with
        | Raise e => (Raise e, self)
        | Ok VNone => (Ok false, self)
        | Ok result =>
            if (path =? "")%string then
              if is_list result || is_dict result
              then (Ok true, set_yaml_dict self result)
              else (Ok false, self)
            else (Ok true, set_yaml_dict self tmp_copy')
        end
  end.

(** The common head of [append] and [insert]: the entry at [path],
    after [self.put(path, [])] where there was none. *)
Definition entry_or_new_list (self : t) (path : string) : res value * t :=
  match entry_or_none (get_entry (yaml_dict self) path (separator self)) with
  | Raise e => (Raise e, self)
  | Ok VNone =>
      match put self path (VList []) with
      | (Raise e, self') => (Raise e, self')
      | (Ok _, self') =>
          (get_entry (yaml_dict self') path (separator self'), self')
      end
  | Ok entry => (Ok entry, self)
  end.

(** [Yedit.append(self, path, value)] *)
Definition append (self : t) (path : string) (val : value) : res bool * t :=
  match entry_or_new_list self path with
  | (Raise e, self') => (Raise e, self')
  | (Ok (VList l), self') =>
      (Ok true,
       set_yaml_dict self'
         (set_entry (yaml_dict self') path (separator self')
            (VList (l ++ [val]))))
  | (Ok _, self') => (Ok false, self')
  end.

(** [Yedit.insert(self, path, value, index=0)] *)
Definition insert (self : t) (path : string) (val : value) (index : Z)
  : res bool * t :=
  match entry_or_new_list self path with
  | (Raise e, self') => (Raise e, self')
  | (Ok (VList l), self') =>
      (Ok true,
       set_yaml_dict self'
         (set_entry (yaml_dict self') path (separator self')
            (VList (list_insert_at l index val))))
  | (Ok _, self') => (Ok false, self')
  end.

(** The end of the sequence branch of [update]: [value] is looked up
    in the entry and appended where it is absent. *)
Definition update_seek (l : list value) (val : value)
  : res bool * list value :=
  match list_index l val with
  | None => (Ok true, (l ++ [val])%list)
  | Some _ => (Ok false, l)
  end.

(** The sequence branch of [update] from [if ind is not None and
    entry[ind] != value] on. *)
Definition update_at (l : list value) (val : value) (ind : option Z)
  : res bool * list value :=
  match ind with
  | None => update_seek l val
  | Some i =>
      match list_getitem l i with
      | Raise e => (Raise e, l)
      | Ok old =>
          if negb (py_eq old val) then
            match list_setitem l i val with
            | Ok l' => (Ok true, l')
            | Raise e => (Raise e, l)
            end
          else update_seek l val
      end
  end.

(** The sequence branch of [update] on the entry [l]: the outcome and
    the entry as the branch leaves it. *)
Definition update_list (l : list value) (val : value) (index : option Z)
  (curr_value : value) : res bool * list value :=
  if truthy curr_value then
    match list_index l curr_value with
    | None => (Ok false, l)
    | Some i => update_at l val (Some (Z.of_nat i))
    end
  else update_at l val index.

(** [Yedit.update(self, path, value, index=None, curr_value=None)] *)
Definition update (self : t) (path : string) (val : value)
  (index : option Z) (curr_value : value) : res bool * t :=
  match entry_or_none (get_entry (yaml_dict self) path (separator self)) with
  | Raise e => (Raise e, self)
  | Ok (VDict d) =>
      match val with
      | VDict dv =>
          (Ok true,
           set_yaml_dict self
             (set_entry (yaml_dict self) path (separator self)
                (VDict (dict_update d dv))))
      | _ => (Raise YeditException, self)
      end
  | Ok (VList l) =>
      match update_list l val index curr_value with
      | (Ok true, l') =>
          (Ok true,
           set_yaml_dict self
             (set_entry (yaml_dict self) path (separator self) (VList l')))
      | (r, _) => (r, self)
      end
  | Ok _ => (Ok false, self)
  end.

(** No index step of the path is negative. *)
Definition nonneg_steps (steps : list step) : Prop :=
  forall i, In (SIdx i) steps -> 0 <= i.

(** [isinstance(v, (list, dict))] fails: [v] is a scalar. *)
Definition is_scalar (v : value) : bool := negb (is_container v).


End Yedit.

(* ================================================================== *)
(** * The durable writer                                               *)
(* ================================================================== *)

Module Disk.

(** The disk is a finite map [gmap string string] from the path of a
    file to its content. Paths name regular files, and two paths name two
    files (no links).

    [op] lists the system calls of [Yedit.write] and [Yedit._write] that
    can be told apart by an observer of the file system. *)
Inductive op : Type :=
| Stat (path : string)
| Copy (src dst : string)
| OpenTrunc (path : string)
| Flock (path : string)
| WriteOut (path : string) (chunk : string)
| Fsync (path : string)
| Funlock (path : string)
| Rename (src dst : string)
| FsyncDir.

Definition is_rename (o : op) : bool :=
  match o with Rename _ _ => true | _ => false end.

(** One system call: the file system after it, or [None] where the
    call fails and its exception leaves the function. *)
Definition exec (o : op) (fs : gmap string string)
  : option (gmap string string) :=
  match o with
  | Stat path =>
      match fs !! path with Some _ => Some fs | None => None end
  | Copy src dst =>
      if (src =? dst)%string then None
      else match fs !! src with
           | Some c => Some (<[dst := c]> fs)
           | None => None
           end
  | OpenTrunc path => Some (<[path := ""]> fs)
  | WriteOut path chunk =>
      match fs !! path with
      | Some c => Some (<[path := (c ++ chunk)%string]> fs)
      | None => None
      end
  | Rename src dst =>
      match fs !! src with
      | Some c => Some (<[dst := c]> (delete src fs))
      | None => None
      end
  | Flock _ | Fsync _ | Funlock _ | FsyncDir => Some fs
  end.

(** The file system [k] system calls into the run of [ops], or where
    the run stopped at a failing call before that. An interruption, or
    a failure injected into the next call, leaves the disk in such a
    state. *)
Fixpoint state_after (k : nat) (ops : list op) (fs : gmap string string)
  : gmap string string :=
  match k, ops with
  | S k', o :: rest =>
      match exec o fs with
      | Some fs' => state_after k' rest fs'
      | None => fs
      end
  | _, _ => fs
  end.

(** The chunks one after the other. *)
Definition join (chunks : list string) : string :=
  fold_right String.append "" chunks.

Section Writer.
(** The two serializers, by the chunks that they write to the stream:
    [default_yaml.dump(tree, f)] and
    [json.dump(tree, f, indent=4, sort_keys=True)]. *)
Variable yaml_dump : value -> list string.
Variable json_dump : value -> list string.

(** [Yedit._write(filename, write_func)], [write_func] given by the
    chunks that it writes. *)
Definition _write (filename : string) (chunks : list string) : list op :=
  let tmp_filename := (filename ++ ".yedit")%string in
  [Stat filename; OpenTrunc tmp_filename; Flock tmp_filename]
  ++ map (WriteOut tmp_filename) chunks
  ++ [Fsync tmp_filename; Funlock tmp_filename;
      Rename tmp_filename filename; FsyncDir].

(** [self.file_exists()] *)
Definition file_exists (self : Yedit.t) (fs : gmap string string) : bool :=
  match fs !! Yedit.filename self with Some _ => true | None => false end.

(** The text that a completed [write] leaves in the file. *)
Definition serialized (self : Yedit.t) : string :=
  if (Yedit.content_type self =? "yaml")%string
  then join (yaml_dump (Yedit.yaml_dict self))
  else join (json_dump (Yedit.yaml_dict self)).

(** [Yedit.write(self)]: the system calls of the method on the file
    system [fs]; the exceptions of the method itself end the list. *)
Definition write (self : Yedit.t) (fs : gmap string string) : list op :=
  if (Yedit.filename self =? "")%string then []
  else
    (if Yedit.backup self && file_exists self fs
     then [Copy (Yedit.filename self)
                (Yedit.filename self ++ Yedit.backup_ext self)%string]
     else [])
    ++ (if (Yedit.content_type self =? "yaml")%string
        then _write (Yedit.filename self)
                    (yaml_dump (Yedit.yaml_dict self))
        else if (Yedit.content_type self =? "json")%string
        then _write (Yedit.filename self)
                    (json_dump (Yedit.yaml_dict self))
        else []).
End Writer.

End Disk.

(* ================================================================== *)
(** * More of the class [Yedit]                                        *)
(* ================================================================== *)

Module Engine.
Import Yedit.

(** The paths whose file a system call can create, change or remove. *)
Definition writes_to (o : Disk.op) : list string :=
  match o with
  | Disk.Copy _ dst => [dst]
  | Disk.OpenTrunc path => [path]
  | Disk.WriteOut path _ => [path]
  | Disk.Rename src dst => [src; dst]
  | _ => []
  end.

(** [value in entry], for a sequence [entry] *)
Definition list_contains (l : list value) (x : value) : bool :=
  match list_index l x with Some _ => true | None => false end.

(** The loop of [exists] over [value.items()] on the mapping [entry]:
    [entry[key]] raises [KeyError] for an absent key, the first item
    that differs ends the loop with [False], and the [else] of the
    [for] gives [True]. *)
Fixpoint exists_items (entry items : list (string * value)) : res bool :=
  match items with
  | [] => Ok true
  | (key, val) :: rest =>
      match dict_get key entry with
      | None => Raise KeyError
      | Some w => if negb (py_eq w val) then Ok false
                  else exists_items entry rest
      end
  end.

(** [Yedit.exists(self, path, value)] *)
Definition exists_ (self : Yedit.t) (path : string) (val : value)
  : res bool :=
  match entry_or_none (get_entry (yaml_dict self) path (separator self)) with
  | Raise e => Raise e
  | Ok (VList l) => Ok (list_contains l val)
  | Ok (VDict d) =>
      match val with
      | VDict items => exists_items d items
      | _ => dict_contains d val
      end
  | Ok entry => Ok (py_eq entry val)
  end.

(** [Yedit.create(self, path, value)] on the disk [fs] *)
Definition create (self : Yedit.t) (fs : gmap string string)
  (path : string) (val : value) : res bool * Yedit.t :=
  if negb (Disk.file_exists self fs) then
    let tmp_copy := yaml_dict self in
    let '(result, tmp_copy') :=
      add_entry tmp_copy path val (separator self) in
    match result with
    | Raise e => (Raise e, self)
    | Ok VNone => (Ok false, self)
    | Ok _ => (Ok true, set_yaml_dict self tmp_copy')
    end
  else (Ok false, self).

(** Two paths part ways: after the same steps, if any, one goes on with
    a key and the other with another key, one with an index and the
    other with another index, or one with a key and the other with an
    index. *)
Inductive part_ways : list step -> list step -> Prop :=
| part_keys (k k' : string) (p q : list step) :
    k <> k' -> part_ways (SKey k :: p) (SKey k' :: q)
| part_indices (i j : Z) (p q : list step) :
    i <> j -> part_ways (SIdx i :: p) (SIdx j :: q)
| part_key_index (k : string) (j : Z) (p q : list step) :
    part_ways (SKey k :: p) (SIdx j :: q)
| part_index_key (i : Z) (k : string) (p q : list step) :
    part_ways (SIdx i :: p) (SKey k :: q)
| part_later (st : step) (p q : list step) :
    part_ways p q -> part_ways (st :: p) (st :: q).

(** The mappings of one key each that lead down the keys to [item]. *)
Definition nested (keys : list string) (item : value) : value :=
  fold_right (fun k v => VDict [(k, v)]) item keys.

(** ** Directories on the disk *)

(** [os.path.basename(p)]: what follows the last slash of [p]; [acc] is
    what has been read since the last slash. *)
Fixpoint basename_from (acc p : string) : string :=
  match p with
  | EmptyString => acc
  | String c r =>
      if Ascii.eqb c "/" then basename_from "" r
      else basename_from (acc ++ String c "") r
  end.

Definition basename (p : string) : string := basename_from "" p.

(** [p.endswith('/')] *)
Fixpoint ends_with_slash (p : string) : bool :=
  match p with
  | EmptyString => false
  | String c EmptyString => Ascii.eqb c "/"
  | String _ r => ends_with_slash r
  end.

(** [os.path.join(a, b)] *)
Definition path_join (a b : string) : string :=
  if String.prefix "/" b then b
  else if (a =? "")%string || ends_with_slash a then (a ++ b)%string
  else (a ++ "/" ++ b)%string.

Section Directories.
(** [os.path.isdir]: the paths of the disk that are directories. The
    map of the disk holds the regular files. *)
Variable is_dir : string -> bool.

(** The file that [shutil.copy(src, dst)] writes: [dst], or the file of
    the name of [src] inside [dst] where [dst] is a directory. *)
Definition copy_dst (src dst : string) : string :=
  if is_dir dst then path_join dst (basename src) else dst.

(** One system call on a disk with directories: [os.stat] succeeds on a
    directory, [shutil.copy] writes inside a directory given as its
    destination, and no file is opened, copied or renamed onto the path
    of a directory. *)
Definition exec_on (o : Disk.op) (fs : gmap string string)
  : option (gmap string string) :=
  match o with
  | Disk.Stat path => if is_dir path then Some fs else Disk.exec o fs
  | Disk.Copy src dst =>
      let dst' := copy_dst src dst in
      if is_dir dst' then None else Disk.exec (Disk.Copy src dst') fs
  | Disk.OpenTrunc path => if is_dir path then None else Disk.exec o fs
  | Disk.Rename src dst => if is_dir dst then None else Disk.exec o fs
  | _ => Disk.exec o fs
  end.

(** The paths whose file a system call can create, change or remove on
    such a disk. *)
Definition writes_on (o : Disk.op) : list string :=
  match o with
  | Disk.Copy src dst => [copy_dst src dst]
  | _ => writes_to o
  end.

(** [Disk.state_after] on a disk with directories. *)
Fixpoint state_after_on (k : nat) (ops : list Disk.op)
  (fs : gmap string string) : gmap string string :=
  match k, ops with
  | S k', o :: rest =>
      match exec_on o fs with
      | Some fs' => state_after_on k' rest fs'
      | None => fs
      end
  | _, _ => fs
  end.
End Directories.

(** The object [self'] is [self] with another document: same file
    name, content type, separator and backup settings. *)
Definition same_file (self self' : Yedit.t) : Prop :=
  self' = set_yaml_dict self (yaml_dict self').

End Engine.

(* ================================================================== *)
(** * Words of a regular expression, paths written out                 *)
(* ================================================================== *)

Module Grammar.
Import Re.

(** [matches r s]: the string [s] is a word of [r]. *)
Inductive matches : regex -> string -> Prop :=
| MEps : matches Eps ""
| MChr (p : ascii -> bool) (c : ascii) :
    p c = true -> matches (Chr p) (String c "")
| MAltL (r1 r2 : regex) (s : string) :
    matches r1 s -> matches (Alt r1 r2) s
| MAltR (r1 r2 : regex) (s : string) :
    matches r2 s -> matches (Alt r1 r2) s
| MCat (r1 r2 : regex) (s1 s2 : string) :
    matches r1 s1 -> matches r2 s2 -> matches (Cat r1 r2) (s1 ++ s2)
| MStarNil (r : regex) : matches (Star r) ""
| MStarMore (r : regex) (s1 s2 : string) :
    matches r s1 -> matches (Star r) s2 -> matches (Star r) (s1 ++ s2).

(** Every character of [s] satisfies [p]. *)
Fixpoint string_forall (p : ascii -> bool) (s : string) : bool :=
  match s with
  | EmptyString => true
  | String c s' => p c && string_forall p s'
  end.

(** The characters that both patterns take for key characters, whatever
    the separator: [[0-9a-zA-Z/_-]]. *)
Definition plain (c : ascii) : bool :=
  alnum c || one_of ["/"; "_"; "-"]%char c.

(** The keys written one after the other with [c] between them. *)
Fixpoint dotted (c : ascii) (keys : list string) : string :=
  match keys with
  | [] => ""
  | k :: rest =>
      match rest with
      | [] => k
      | _ :: _ => k ++ String c (dotted c rest)
      end
  end.

End Grammar.

(* ================================================================== *)
(** * Values as text, batches of edits                                 *)
(* ================================================================== *)

Module Batch.
Import Yedit Engine.

(** [needle in hay], for two strings *)
Fixpoint contains (needle hay : string) : bool :=
  String.prefix needle hay
  || match hay with
     | EmptyString => false
     | String _ hay' => contains needle hay'
     end.

Definition true_bools : list string :=
  ["y"; "Y"; "yes"; "Yes"; "YES"; "true"; "True"; "TRUE"; "on"; "On"; "ON"].

Definition false_bools : list string :=
  ["n"; "N"; "no"; "No"; "NO"; "false"; "False"; "FALSE";
   "off"; "Off"; "OFF"].

(** [s in l], for a list of strings *)
Definition in_list (s : string) (l : list string) : bool :=
  existsb (String.eqb s) l.

(** What leaves [process_edits]: an exception of [exn], or the
    [YAMLError] of the loader. *)
Inductive fault : Set :=
| PyExn (e : exn)
| YAMLError.

Inductive outcome (A : Type) : Type :=
| Done (a : A)
| Fault (f : fault).
Arguments Done {A} a.
Arguments Fault {A} f.

Definition lift {A} (r : res A) : outcome A :=
  match r with Ok a => Done a | Raise e => Fault (PyExn e) end.

(** One edit of the list: the entries of the dictionary that
    [process_edits] reads, [None] for a key that the dictionary lacks.
    [edit_index] is [Some None] for an index given as [None]. *)
Record edit : Type := Edit {
  edit_key : option string;
  edit_value : option value;
  edit_value_type : option string;
  edit_action : option string;
  edit_index : option (option Z);
  edit_curr_value : option value;
  edit_curr_value_format : option string
}.

(** The document of a batch with the objects that it has been: [olds]
    are the objects that were [self.yaml_dict] before a [put] replaced
    them, in order, each as it was left; a result pairs the key of an
    edit with the position of the object that it holds, [length olds]
    standing for the live object. *)
Record batch : Type := BatchState {
  doc : Yedit.t;
  olds : list value;
  results : list (string * nat)
}.

(** The object that a result holds, as the batch leaves it. *)
Definition shown (st : batch) (obj : nat) : option value :=
  (olds st ++ [yaml_dict (doc st)])%list !! obj.

Section Parsers.
(** The parsers and [str], by what they return; [None] where a parser
    raises. *)
Variable yaml_load : string -> option value.
Variable json_loads : string -> option value.
Variable py_str : value -> string.

(** [Yedit.parse_value(inc_value, vtype='')] *)
Definition parse_value (inc_value : value) (vtype : string) : res value :=
  let checked : res value :=
    match inc_value with
    | VStr s =>
        if contains "bool" vtype then
          if negb (in_list s true_bools) && negb (in_list s false_bools)
          then Raise YeditException
          else Ok inc_value
        else Ok inc_value
    | VBool b =>
        if contains "str" vtype
        then Ok (VStr (if b then "True" else "False"))
        else Ok inc_value
    | _ => Ok inc_value
    end in
  match checked with
  | Raise e => Raise e
  | Ok (VStr s) =>
      if (s =? "")%string then Ok (VStr s)
      else if negb (contains "str" vtype) then
        match yaml_load s with
        | Some v => Ok v
        | None => Raise YeditException
        end
      else Ok (VStr s)
  | Ok v => Ok v
  end.

(** [Yedit.get_curr_value(invalue, val_type)] *)
Definition get_curr_value (invalue : value) (val_type : option string)
  : outcome value :=
  match invalue with
  | VNone => Done VNone
  | _ =>
      if bool_decide (val_type = Some "yaml") then
        match yaml_load (py_str invalue) with
        | Some v => Done v
        | None => Fault YAMLError
        end
      else if bool_decide (val_type = Some "json") then
        match invalue with
        | VStr s =>
            match json_loads s with
            | Some v => Done v
            | None => Fault (PyExn ValueError)
            end
        | _ => Fault (PyExn TypeError)
        end
      else Done invalue
  end.

(** [self.put(path, [])] is called and replaces the document: the head
    of [append] and [insert] found nothing at the path and the [put]
    reported a change. *)
Definition put_commits (self : Yedit.t) (path : string) : bool :=
  match entry_or_none (get_entry (yaml_dict self) path (separator self)) with
  | Ok VNone =>
      match put self path (VList []) with
      | (Ok true, _) => true
      | _ => false
      end
  | _ => false
  end.

(** [yamlfile.insert(key, value, index)] for an index that may be
    [None]: [list.insert] takes no [None]. *)
Definition insert_any (self : Yedit.t) (path : string) (val : value)
  (index : option Z) : res bool * Yedit.t :=
  match index with
  | Some i => insert self path val i
  | None =>
      match entry_or_new_list self path with
      | (Raise e, self') => (Raise e, self')
      | (Ok (VList _), self') => (Raise TypeError, self')
      | (Ok _, self') => (Ok false, self')
      end
  end.

Definition action_is (ed : edit) (name : string) : bool :=
  bool_decide (edit_action ed = Some name).

(** One round of the loop of [process_edits] up to [rval]: the outcome,
    the document after it, and whether [self.yaml_dict] is another
    object than before. *)
Definition run_edit (ed : edit) (self : Yedit.t)
  : outcome (bool * string) * Yedit.t * bool :=
  match edit_value ed with
  | None => (Fault (PyExn KeyError), self, false)
  | Some raw =>
      match parse_value raw (default "" (edit_value_type ed)) with
      | Raise e => (Fault (PyExn e), self, false)
      | Ok val =>
          if action_is ed "update" then
            match parse_value (default VNone (edit_curr_value ed)) "" with
            | Raise e => (Fault (PyExn e), self, false)
            | Ok parsed =>
                match get_curr_value parsed (edit_curr_value_format ed) with
                | Fault f => (Fault f, self, false)
                | Done curr_value =>
                    match edit_key ed with
                    | None => (Fault (PyExn KeyError), self, false)
                    | Some key =>
                        let '(r, self') :=
                          update self key val
                            (default None (edit_index ed)) curr_value in
                        (lift (match r with
                               | Ok b => Ok (b, key)
                               | Raise e => Raise e
                               end), self', false)
                    end
                end
            end
          else
            match edit_key ed with
            | None => (Fault (PyExn KeyError), self, false)
            | Some key =>
                if action_is ed "append" then
                  let '(r, self') := append self key val in
                  (lift (match r with
                         | Ok b => Ok (b, key)
                         | Raise e => Raise e
                         end), self', put_commits self key)
                else if action_is ed "insert" then
                  match edit_index ed with
                  | None => (Fault (PyExn KeyError), self, false)
                  | Some index =>
                      let '(r, self') := insert_any self key val index in
                      (lift (match r with
                             | Ok b => Ok (b, key)
                             | Raise e => Raise e
                             end), self', put_commits self key)
                  end
                else
                  let '(r, self') := put self key val in
                  (lift (match r with
                         | Ok b => Ok (b, key)
                         | Raise e => Raise e
                         end), self',
                   match r with Ok true => true | _ => false end)
            end
      end
  end.

(** The loop of [process_edits]: the exception that ended it, if any,
    and the batch as it leaves it. *)
Fixpoint edits_loop (edits : list edit) (st : batch)
  : option fault * batch :=
  match edits with
  | [] => (None, st)
  | ed :: rest =>
      let '(r, self', replaced) := run_edit ed (doc st) in
      let olds' :=
        if replaced then (olds st ++ [yaml_dict (doc st)])%list
        else olds st in
      match r with
      | Fault f => (Some f, BatchState self' olds' (results st))
      | Done (changed, key) =>
          edits_loop rest
            (BatchState self' olds'
               (if changed
                then (results st ++ [(key, length olds')])%list
                else results st))
      end
  end.

(** [Yedit.process_edits(edits, yamlfile)]: the returned [changed] and
    [results], and the batch as the call leaves it. *)
Definition process_edits (edits : list edit) (yamlfile : Yedit.t)
  : outcome (bool * list (string * nat)) * batch :=
  let '(f, st) := edits_loop edits (BatchState yamlfile [] []) in
  (match f with
   | Some f => Fault f
   | None => Done ((0 <? length (results st))%nat, results st)
   end, st).

End Parsers.

End Batch.

(* ================================================================== *)
(** * The module run: [Yedit.run_ansible]                              *)
(* ================================================================== *)

Module Ansible.
Import Yedit Engine Batch.

(** [module.params]. A [src] of [None] and a [src] of [''] take the same
    branches everywhere and are both the empty string here; [content]
    and [value] are [VNone] where the parameter is [None]; [key] is a
    text, as the argument specification makes it. *)
Record params : Type := Params {
  p_state : string;
  p_src : string;
  p_content : value;
  p_content_type : string;
  p_key : string;
  p_value : value;
  p_value_type : string;
  p_update : bool;
  p_append : bool;
  p_insert : bool;
  p_index : option Z;
  p_curr_value : value;
  p_curr_value_format : string;
  p_backup : bool;
  p_backup_ext : string;
  p_separator : string;
  p_edits : option (list edit)
}.

(** The [result] of a reply: a value, or the list of [process_edits]
    with each [edit] field as the object it names reads when
    [run_ansible] returns. *)
Inductive payload : Type :=
| Shown (v : value)
| Edits (rs : list (string * value)).

(** What [run_ansible] returns: the [failed] dictionary, or [changed]
    and [result]. *)
Inductive reply : Type :=
| Failed
| Report (changed : bool) (result : payload).

(** The exceptions that leave [run_ansible]. *)
Inductive crash : Type :=
| Py (f : fault)
| OSError
| UnboundLocalError.

Inductive ending : Type :=
| Return (r : reply)
| Crash (c : crash).

(** Every system call of the list succeeds. *)
Fixpoint completes (ops : list Disk.op) (fs : gmap string string) : bool :=
  match ops with
  | [] => true
  | o :: rest =>
      match Disk.exec o fs with
      | Some fs' => completes rest fs'
      | None => false
      end
  end.

Definition resolve (st : batch) (rs : list (string * nat))
  : list (string * value) :=
  map (fun kg => (kg.1, default VNone (shown st kg.2))) rs.

Section Run.
Variable yaml_load : string -> option value.
Variable json_loads : string -> option value.
Variable py_str : value -> string.
Variable yaml_dump : value -> list string.
Variable json_dump : value -> list string.

(** [Yedit.read(self)] *)
Definition read (self : Yedit.t) (fs : gmap string string) : option string :=
  if (filename self =? "")%string then None else fs !! filename self.

(** [Yedit.load(self, content_type)] of an object built without
    [content], as [run_ansible] builds it: the returned value and the
    object after the call. A text that the YAML loader refuses raises
    [YeditException]; the error of [json.loads] is no [YAMLError] and
    leaves as it is. *)
Definition load (self : Yedit.t) (fs : gmap string string)
  (ctype : string) : outcome value * Yedit.t :=
  match read self fs with
  | Some (String _ _ as contents) =>
      if (ctype =? "yaml")%string then
        match yaml_load contents with
        | Some v => (Done v, set_yaml_dict self v)
        | None => (Fault (PyExn YeditException), self)
        end
      else if (ctype =? "json")%string then
        match json_loads contents with
        | Some v => (Done v, set_yaml_dict self v)
        | None => (Fault (PyExn ValueError), self)
        end
      else (Done (yaml_dict self), self)
  | _ => (Done VNone, self)
  end.

(** [Yedit(filename=params['src'], backup=..., content_type=...,
    backup_ext=..., separator=...)] *)
Definition init (p : params) (fs : gmap string string) : outcome Yedit.t :=
  let self :=
    Yedit.Build (p_src p) (p_content_type p) (p_separator p)
                (p_backup_ext p) (p_backup p) VNone in
  match load self fs (p_content_type p) with
  | (Fault f, _) => Fault f
  | (Done _, self') =>
      Done (if is_none (yaml_dict self')
            then set_yaml_dict self' (VDict [])
            else self')
  end.

(** [yamlfile.write()]: the exception that leaves it, if any, and the
    disk after the call. *)
Definition write_call (self : Yedit.t) (fs : gmap string string)
  : option crash * gmap string string :=
  if (filename self =? "")%string
  then (Some (Py (PyExn YeditException)), fs)
  else
    let ops := Disk.write yaml_dump json_dump self fs in
    let fs' := Disk.state_after (length ops) ops fs in
    if negb (completes ops fs) then (Some OSError, fs')
    else if (content_type self =? "yaml")%string
            || (content_type self =? "json")%string
    then (None, fs')
    else (Some (Py (PyExn YeditException)), fs').

(** [if params['content']: content = parse_value(...);
    yamlfile.yaml_dict = content] *)
Definition with_content (p : params) (self : Yedit.t) : res Yedit.t :=
  if truthy (p_content p) then
    match parse_value yaml_load (p_content p) (p_content_type p) with
    | Raise e => Raise e
    | Ok c => Ok (set_yaml_dict self c)
    end
  else Ok self.

(** The [_edit] that [run_ansible] makes of [key] and [value]. *)
Definition key_value_edit (p : params) : edit :=
  if p_update p then
    Edit (Some (p_key p)) (Some (p_value p)) (Some (p_value_type p))
         (Some "update") (Some (p_index p)) (Some (p_curr_value p))
         (Some (p_curr_value_format p))
  else if p_append p then
    Edit (Some (p_key p)) (Some (p_value p)) (Some (p_value_type p))
         (Some "append") None None None
  else if p_insert p then
    Edit (Some (p_key p)) (Some (p_value p)) (Some (p_value_type p))
         (Some "insert") (Some (p_index p)) None None
  else
    Edit (Some (p_key p)) (Some (p_value p)) (Some (p_value_type p))
         None None None None.

(** The branch [state == 'list']; [rval] is [None] of the option where
    the variable is not bound yet. *)
Definition run_list (p : params) (yamlfile : Yedit.t) (rval : option value)
  : ending :=
  match with_content p yamlfile with
  | Raise e => Crash (Py (PyExn e))
  | Ok yamlfile =>
      if nonempty (p_key p) then
        match get yamlfile (p_key p) with
        | Raise e => Crash (Py (PyExn e))
        | Ok v => Return (Report false (Shown v))
        end
      else
        match rval with
        | Some v => Return (Report false (Shown v))
        | None => Crash UnboundLocalError
        end
  end.

(** The branch [state == 'absent'] *)
Definition run_absent (p : params) (yamlfile : Yedit.t)
  (fs : gmap string string) : ending * gmap string string :=
  match with_content p yamlfile with
  | Raise e => (Crash (Py (PyExn e)), fs)
  | Ok yamlfile =>
      let '(r, yamlfile') :=
        if p_update p then pop yamlfile (p_key p) (p_value p)
        else delete yamlfile (p_key p) (p_index p) (p_value p) in
      match r with
      | Raise e => (Crash (Py (PyExn e)), fs)
      | Ok changed =>
          if changed && nonempty (p_src p) then
            match write_call yamlfile' fs with
            | (Some c, fs') => (Crash c, fs')
            | (None, fs') =>
                (Return (Report changed (Shown (yaml_dict yamlfile'))), fs')
            end
          else (Return (Report changed (Shown (yaml_dict yamlfile'))), fs)
      end
  end.

(** The branch [state == 'present'] from the list of edits on. *)
Definition run_edits (p : params) (yamlfile : Yedit.t)
  (fs : gmap string string) : ending * gmap string string :=
  let edits :=
    if negb (is_none (p_value p)) then [key_value_edit p]
    else default [] (p_edits p) in
  match edits with
  | _ :: _ =>
      match process_edits yaml_load json_loads py_str edits yamlfile with
      | (Fault f, _) => (Crash (Py f), fs)
      | (Done (changed, rs), st) =>
          if changed && nonempty (p_src p) then
            match write_call (doc st) fs with
            | (Some c, fs') => (Crash c, fs')
            | (None, fs') =>
                (Return (Report changed (Edits (resolve st rs))), fs')
            end
          else (Return (Report changed (Edits (resolve st rs))), fs)
      end
  | [] =>
      if nonempty (p_src p) then
        match write_call yamlfile fs with
        | (Some c, fs') => (Crash c, fs')
        | (None, fs') =>
            (Return (Report true (Shown (yaml_dict yamlfile))), fs')
        end
      else (Return (Report false (Shown (yaml_dict yamlfile))), fs)
  end.

(** The branch [state == 'present'] *)
Definition run_present (p : params) (yamlfile : Yedit.t)
  (fs : gmap string string) : ending * gmap string string :=
  if truthy (p_content p) then
    match parse_value yaml_load (p_content p) (p_content_type p) with
    | Raise e => (Crash (Py (PyExn e)), fs)
    | Ok c =>
        if py_eq (yaml_dict yamlfile) c && is_none (p_value p)
        then (Return (Report false (Shown (yaml_dict yamlfile))), fs)
        else run_edits p (set_yaml_dict yamlfile c) fs
    end
  else run_edits p yamlfile fs.

(** [Yedit.run_ansible(params)] on the disk [fs]: how the call ends, and
    the disk after it. *)
Definition run_ansible (p : params) (fs : gmap string string)
  : ending * gmap string string :=
  match init p fs with
  | Fault f => (Crash (Py f), fs)
  | Done yamlfile =>
      let loaded : outcome (option value * Yedit.t) :=
        if nonempty (p_src p) then
          match load yamlfile fs "yaml" with
          | (Fault f, _) => Fault f
          | (Done rval, yamlfile') => Done (Some rval, yamlfile')
          end
        else Done (None, yamlfile) in
      match loaded with
      | Fault f => (Crash (Py f), fs)
      | Done (rval, yamlfile) =>
          if nonempty (p_src p) && is_none (yaml_dict yamlfile)
             && negb (p_state p =? "present")%string
          then (Return Failed, fs)
          else if (p_state p =? "list")%string
          then (run_list p yamlfile rval, fs)
          else if (p_state p =? "absent")%string
          then run_absent p yamlfile fs
          else if (p_state p =? "present")%string
          then run_present p yamlfile fs
          else (Return Failed, fs)
      end
  end.

End Run.

End Ansible.

(* ================================================================== *)
(** * Documents with floats                                            *)
(* ================================================================== *)

(** The lookup, the upsert and [put] once more, over documents that
    hold floats as well: what [==] answers at a float decides what
    [put] does the second time. *)
Module Floating.
Import Yedit.

(** A float by its value: not a number, an infinity, or the finite
    number [m * 2 ^ e]. *)
Inductive float : Set :=
| Nan
| Inf (negative : bool)
| Finite (m e : Z).

(** [a == b] on floats: [nan] equals nothing, itself included. *)
Definition float_eq (a b : float) : bool :=
  match a, b with
  | Finite m1 e1, Finite m2 e2 =>
      let e := Z.min e1 e2 in
      (m1 * 2 ^ (e1 - e) =? m2 * 2 ^ (e2 - e))
  | Inf s1, Inf s2 => Bool.eqb s1 s2
  | _, _ => false
  end.

Unset Elimination Schemes.
Inductive value : Type :=
| FNone
| FBool (b : bool)
| FInt (z : Z)
| FFloat (x : float)
| FStr (s : string)
| FList (l : list value)
| FDict (d : list (string * value)).
Set Elimination Schemes.

Definition is_list (v : value) : bool :=
  match v with FList _ => true | _ => false end.

Definition is_dict (v : value) : bool :=
  match v with FDict _ => true | _ => false end.

(** [isinstance(v, (list, dict))] *)
Definition is_container (v : value) : bool := is_list v || is_dict v.

(** [v is None] *)
Definition is_none (v : value) : bool :=
  match v with FNone => true | _ => false end.

(** [bool(v)] *)
Definition truthy (v : value) : bool :=
  match v with
  | FNone => false
  | FBool b => b
  | FInt z => negb (z =? 0)
  | FFloat (Finite m _) => negb (m =? 0)
  | FFloat _ => true
  | FStr s => negb (s =? "")%string
  | FList l => match l with [] => false | _ :: _ => true end
  | FDict d => match d with [] => false | _ :: _ => true end
  end.

(** [d.get(k)], [None] of the option standing for an absent key *)
Fixpoint dict_get (k : string) (d : list (string * value)) : option value :=
  match d with
  | [] => None
  | (k', v) :: r => if (k =? k')%string then Some v else dict_get k r
  end.

(** [d[k] = v]: an existing key keeps its position, a new one goes last *)
Fixpoint dict_set (k : string) (v : value) (d : list (string * value))
  : list (string * value) :=
  match d with
  | [] => [(k, v)]
  | (k', v') :: r =>
      if (k =? k')%string then (k', v) :: r else (k', v') :: dict_set k v r
  end.


(** Keys of a mapping are pairwise distinct, at every depth. *)
Fixpoint wf (v : value) : bool :=
  match v with
  | FList l => forallb wf l
  | FDict d =>
      nodup_keys (map fst d)
      && (fix wf_items (d : list (string * value)) : bool :=
            match d with
            | [] => true
            | kv :: r => wf (snd kv) && wf_items r
            end) d
  | _ => true
  end.


(** The number that a boolean, an integer or a float is. *)
Definition as_float (v : value) : option float :=
  match v with
  | FBool b => Some (Finite (Z.b2z b) 0)
  | FInt z => Some (Finite z 0)
  | FFloat x => Some x
  | _ => None
  end.

(** [a == b], of two objects: numbers compare by value, booleans being
    0 and 1; sequences compare element by element; mappings compare as
    sets of items. Python takes two elements that are one object for
    equal before it asks [==] of them, which makes a difference for
    [nan] only; elements compare here as two objects do. *)
Fixpoint py_eq (a b : value) {struct a} : bool :=
  match a with
  | FNone => match b with FNone => true | _ => false end
  | FBool x =>
      match as_float b with
      | Some y => float_eq (Finite (Z.b2z x) 0) y
      | None => false
      end
  | FInt x =>
      match as_float b with
      | Some y => float_eq (Finite x 0) y
      | None => false
      end
  | FFloat x =>
      match as_float b with
      | Some y => float_eq x y
      | None => false
      end
  | FStr x => match b with FStr y => (x =? y)%string | _ => false end
  | FList l1 =>
      match b with
      | FList l2 =>
          (fix eq_items (l1 l2 : list value) : bool :=
             match l1, l2 with
             | [], [] => true
             | x :: r1, y :: r2 => py_eq x y && eq_items r1 r2
             | _, _ => false
             end) l1 l2
      | _ => false
      end
  | FDict d1 =>
      match b with
      | FDict d2 =>
          (length d1 =? length d2)%nat
          && (fix sub_items (d1 : list (string * value)) : bool :=
                match d1 with
                | [] => true
                | kv :: r =>
                    match dict_get (fst kv) d2 with
                    | Some w => py_eq (snd kv) w
                    | None => false
                    end && sub_items r
                end) d1
      | _ => false
      end
  end.

(** [l[i]] *)
Definition list_getitem (l : list value) (i : Z) : res value :=
  match norm_index i (length l) with
  | Some j => match l !! j with Some v => Ok v | None => Raise IndexError end
  | None => Raise IndexError
  end.

(** [l[i] = v] *)
Definition list_setitem (l : list value) (i : Z) (v : value)
  : res (list value) :=
  match norm_index i (length l) with
  | Some j => Ok (<[j := v]> l)
  | None => Raise IndexError
  end.

(** The loop of [get_entry] over the tuples of the key. *)
Fixpoint get_loop (key_indexes : list step) (data : value) : res value :=
  match key_indexes with
  | [] => Ok data
  | st :: rest =>
      match st, data with
      | SKey dict_key, FDict d =>
          get_loop rest (default FNone (dict_get dict_key d))
      | SIdx arr_ind, FList l =>
          if arr_ind <=? Z.of_nat (length l) - 1 then
            match list_getitem l arr_ind with
            | Ok v => get_loop rest v
            | Raise e => Raise e
            end
          else Ok FNone
      | _, _ => Ok FNone
      end
  end.

(** [Yedit.get_entry(data, key, sep)] *)
Definition get_entry (data : value) (key sep : string) : res value :=
  if (key =? "")%string then get_loop (parse_key key sep) data
  else if negb (nonempty key && valid_key key sep) && is_container data
  then Ok FNone
  else get_loop (parse_key key sep) data.

(** The last step of [add_entry] on the container [data] that the loop
    reached: the returned object is that container. *)
Definition add_last (st : step) (item : value) (data : value)
  : res value * value :=
  match st, data with
  | SIdx arr_ind, FList l =>
      if arr_ind <=? Z.of_nat (length l) then
        if arr_ind >? Z.of_nat (length l) - 1 then
          (Ok (FList (l ++ [item])), FList (l ++ [item]))
        else
          match list_setitem l arr_ind item with
          | Ok l' => (Ok (FList l'), FList l')
          | Raise e => (Raise e, data)
          end
      else (Raise YeditException, data)
  | SKey dict_key, FDict d =>
      (Ok (FDict (dict_set dict_key item d)),
       FDict (dict_set dict_key item d))
  | _, _ => (Raise YeditException, data)
  end.

(** One round of the loop of [add_entry] over [key_indexes[:-1]], on
    the object [data]; [rest] is the run of the function on the object
    that the round moves to. *)
Definition add_round (st : step) (rest : value -> res value * value)
  (data : value) : res value * value :=
  match st with
  | SKey dict_key =>
      match data with
      | FDict d =>
          match dict_get dict_key d with
          | Some child =>
              if truthy child then
                let '(r, child') := rest child in
                (r, FDict (dict_set dict_key child' d))
              else
                let d0 := dict_set dict_key (FDict []) d in
                let '(r, child') := rest (FDict []) in
                (r, FDict (dict_set dict_key child' d0))
          | None =>
              let d0 := dict_set dict_key (FDict []) d in
              let '(r, child') := rest (FDict []) in
              (r, FDict (dict_set dict_key child' d0))
          end
      | _ =>
          if truthy data then (Raise YeditException, data)
          else (Raise TypeError, data)
      end
  | SIdx arr_ind =>
      match data with
      | FList l =>
          if arr_ind <=? Z.of_nat (length l) - 1 then
            match norm_index arr_ind (length l) with
            | Some j =>
                match l !! j with
                | Some child =>
                    let '(r, child') := rest child in
                    (r, FList (<[j := child']> l))
                | None => (Raise IndexError, data)
                end
            | None => (Raise IndexError, data)
            end
          else (Raise YeditException, data)
      | _ => (Raise YeditException, data)
      end
  end.

(** The loop of [add_entry] over [key_indexes[:-1]], followed by the
    last step; an empty [key_indexes] fails at [key_indexes[-1]]. *)
Fixpoint add_loop (key_indexes : list step) (item : value) (data : value)
  : res value * value :=
  match key_indexes with
  | [] => (Raise IndexError, data)
  | st :: rest =>
      match rest with
      | [] => add_last st item data
      | _ :: _ => add_round st (add_loop rest item) data
      end
  end.

(** [Yedit.add_entry(data, key, item, sep)]: the outcome, and [data]
    as the call leaves it. *)
Definition add_entry (data : value) (key : string) (item : value)
  (sep : string) : res value * value :=
  if (key =? "")%string then (Ok item, data)
  else if negb (nonempty key && valid_key key sep) && is_container data
  then (Ok FNone, data)
  else add_loop (parse_key key sep) item data.

(** The attributes of a [Yedit] object that the methods read. *)
Record t : Type := Build {
  filename : string;
  content_type : string;
  separator : string;
  backup_ext : string;
  backup : bool;
  yaml_dict : value
}.

(** [self.yaml_dict = v] *)
Definition set_yaml_dict (self : t) (v : value) : t :=
  Build (filename self) (content_type self) (separator self)
        (backup_ext self) (backup self) v.

(** [try: entry = get_entry(...) except KeyError: entry = None] *)
Definition entry_or_none (r : res value) : res value :=
  match r with
  | Raise KeyError => Ok FNone
  | _ => r
  end.

(** [Yedit.put(self, path, value)] *)
Definition put (self : t) (path : string) (val : value) : res bool * t :=
  match entry_or_none (get_entry (yaml_dict self) path (separator self)) with
  | Raise e => (Raise e, self)
  | Ok entry =>
      if py_eq entry val then (Ok false, self)
      else
        let tmp_copy := yaml_dict self in
        let '(result, tmp_copy') :=
          add_entry tmp_copy path val (separator self) in
        match result with
        | Raise e => (Raise e, self)
        | Ok FNone => (Ok false, self)
        | Ok result =>
            if (path =? "")%string then
              if is_list result || is_dict result
              then (Ok true, set_yaml_dict self result)
              else (Ok false, self)
            else (Ok true, set_yaml_dict self tmp_copy')
        end
  end.

End Floating.

(* ================================================================== *)
(** * Properties                                                       *)
(* ================================================================== *)

(** Comparisons of integers as propositions, for [lia]. *)
Ltac zprop :=
  repeat match goal with
    | H : (_ >? _) = _ |- _ => rewrite Z.gtb_ltb in H
    | H : (_ <=? _) = true |- _ => apply Z.leb_le in H
    | H : (_ <=? _) = false |- _ => apply Z.leb_gt in H
    | H : (_ <? _) = true |- _ => apply Z.ltb_lt in H
    | H : (_ <? _) = false |- _ => apply Z.ltb_ge in H
    end.
Ltac zlia := zprop; first [lia | exfalso; lia].

(** ** Strings *)

Lemma string_app_assoc (a b c : string) :
  ((a ++ b) ++ c = a ++ (b ++ c))%string.
Proof.
  induction a as [|x a IH]; [reflexivity|].
  change (String x ((a ++ b) ++ c) = String x (a ++ (b ++ c)))%string.
  now rewrite IH.
Qed.

Lemma string_app_length (a b : string) :
  String.length (a ++ b) = (String.length a + String.length b)%nat.
Proof.
  induction a as [|x a IH]; [reflexivity|].
  change (S (String.length (a ++ b)) = S (String.length a + String.length b)).
  now rewrite IH.
Qed.

Lemma string_app_ne (a b : string) : b <> "" -> (a ++ b)%string <> a.
Proof.
  intros Hb Heq. apply (f_equal String.length) in Heq.
  rewrite string_app_length in Heq.
  destruct b as [|x b]; [congruence|]. simpl in Heq. lia.
Qed.

Lemma string_eqb_refl (a : string) : (a =? a)%string = true.
Proof. now apply String.eqb_eq. Qed.

(** ** The durable writer *)

Section DurableWriter.
Import Disk.
Variable yaml_dump json_dump : value -> list string.

Lemma state_after_nil (k : nat) (fs : gmap string string) :
  state_after k [] fs = fs.
Proof. now destruct k. Qed.

Lemma tmp_ne_target (f : string) : (f ++ ".yedit")%string <> f.
Proof. apply string_app_ne. discriminate. Qed.

(** The tail of [_write] from the first chunk on: the target keeps its
    old content up to the rename, which installs what the temporary
    file has gathered. *)
Lemma write_out_phase (f old : string) (chunks : list string) :
  forall (k : nat) (sofar : string) (fs : gmap string string),
    fs !! f = Some old ->
    fs !! (f ++ ".yedit")%string = Some sofar ->
    let ops := (map (WriteOut (f ++ ".yedit")) chunks
                ++ [Fsync (f ++ ".yedit"); Funlock (f ++ ".yedit");
                    Rename (f ++ ".yedit") f; FsyncDir])%list in
    let now := state_after k ops fs in
    (now !! f = Some old \/ now !! f = Some (sofar ++ join chunks)%string)
    /\ (forallb (fun o => negb (is_rename o)) (take k ops) = true ->
        now !! f = Some old)
    /\ (4 + length chunks <= k ->
        now !! f = Some (sofar ++ join chunks)%string)%nat.
Proof.
  pose proof (tmp_ne_target f) as Hne.
  induction chunks as [|c chunks IH]; intros k sofar fs Hf Htmp.
  - cbn [map app length join fold_right].
    assert (Hend : (sofar ++ "")%string = sofar).
    { clear. induction sofar as [|x s IHs]; [reflexivity|].
      change (String x (s ++ "") = String x s)%string. now rewrite IHs. }
    rewrite Hend.
    destruct k as [|[|[|[|k]]]];
      cbn [state_after exec take forallb is_rename negb andb];
      rewrite ?Htmp; cbn [state_after exec];
      rewrite ?state_after_nil, ?lookup_insert_eq;
      repeat split; intros; auto; try lia; discriminate.
  - cbn [map app length].
    destruct k as [|k].
    + cbn [state_after take forallb]. repeat split; auto. lia.
    + cbn [state_after exec take forallb is_rename negb andb]. rewrite Htmp.
      specialize (IH k (sofar ++ c)%string
                    (<[(f ++ ".yedit")%string := (sofar ++ c)%string]> fs)).
      rewrite lookup_insert_ne in IH by exact Hne.
      rewrite lookup_insert_eq in IH.
      specialize (IH Hf eq_refl). cbv zeta in IH.
      rewrite string_app_assoc in IH.
      change (join (c :: chunks)) with (c ++ join chunks)%string.
      destruct IH as (H1 & H2 & H3). repeat split; auto.
      intros Hk. apply H3. lia.
Qed.

(** [_write] on a disk that holds the target. *)
Lemma _write_safe (f old : string) (chunks : list string) (k : nat)
  (fs : gmap string string) :
  fs !! f = Some old ->
  let ops := _write f chunks in
  let now := state_after k ops fs in
  (now !! f = Some old \/ now !! f = Some (join chunks))
  /\ (forallb (fun o => negb (is_rename o)) (take k ops) = true ->
      now !! f = Some old)
  /\ (length ops <= k -> now !! f = Some (join chunks))%nat.
Proof.
  intros Hf. pose proof (tmp_ne_target f) as Hne. unfold _write.
  cbn [app].
  destruct k as [|[|[|k]]];
    cbn [state_after exec take forallb is_rename negb andb length];
    rewrite ?Hf; cbn [state_after exec];
    rewrite ?lookup_insert_ne by exact Hne;
    try (repeat split; auto; intros; lia).
  pose proof (write_out_phase f old chunks k ""
                (<[(f ++ ".yedit")%string := ""]> fs)) as H.
  rewrite lookup_insert_ne in H by exact Hne.
  rewrite lookup_insert_eq in H.
  specialize (H Hf eq_refl). cbv zeta in H.
  change ("" ++ join chunks)%string with (join chunks) in H.
  destruct H as (H1 & H2 & H3). repeat split; auto.
  intros Hk. apply H3. rewrite length_app, length_map in Hk.
  cbn [length] in Hk. lia.
Qed.

Lemma string_app_empty (a : string) : (a ++ "")%string = a.
Proof.
  induction a as [|x a IH]; [reflexivity|].
  change (String x (a ++ "") = String x a)%string. now rewrite IH.
Qed.

(** The run of the system calls after the backup copy. *)
Lemma write_body_safe (self : Yedit.t) (old : string) (k : nat)
  (fs : gmap string string) :
  fs !! Yedit.filename self = Some old ->
  let ops :=
    if (Yedit.content_type self =? "yaml")%string
    then _write (Yedit.filename self) (yaml_dump (Yedit.yaml_dict self))
    else if (Yedit.content_type self =? "json")%string
    then _write (Yedit.filename self) (json_dump (Yedit.yaml_dict self))
    else [] in
  let now := state_after k ops fs in
  (now !! Yedit.filename self = Some old
   \/ now !! Yedit.filename self
      = Some (serialized yaml_dump json_dump self))
  /\ (forallb (fun o => negb (is_rename o)) (take k ops) = true ->
      now !! Yedit.filename self = Some old).
Proof.
  intros Hf. unfold serialized.
  destruct (Yedit.content_type self =? "yaml")%string.
  - destruct (_write_safe (Yedit.filename self) old
                (yaml_dump (Yedit.yaml_dict self)) k fs Hf) as (H1 & H2 & _).
    split; assumption.
  - destruct (Yedit.content_type self =? "json")%string.
    + destruct (_write_safe (Yedit.filename self) old
                  (json_dump (Yedit.yaml_dict self)) k fs Hf) as (H1 & H2 & _).
      split; assumption.
    + cbv zeta. rewrite state_after_nil. auto.
Qed.

(** C1. Durable write crash safety: while [write] runs on a disk that
    holds the target file, the target path shows at every instant (after
    any number [k] of the system calls, and wherever a failing call
    stopped the run) the old complete content or the new complete
    content; as long as the rename is not among the calls made, it shows
    the old content, byte for byte. *)
Theorem durable_write_crash_safety (self : Yedit.t) (old : string) (k : nat)
  (fs : gmap string string) :
  fs !! Yedit.filename self = Some old ->
  let ops := write yaml_dump json_dump self fs in
  let now := state_after k ops fs in
  (now !! Yedit.filename self = Some old
   \/ now !! Yedit.filename self
      = Some (serialized yaml_dump json_dump self))
  /\ (forallb (fun o => negb (is_rename o)) (take k ops) = true ->
      now !! Yedit.filename self = Some old).
Proof.
  intros Hf. unfold write.
  destruct (Yedit.filename self =? "")%string.
  { cbv zeta. rewrite state_after_nil. auto. }
  destruct (Yedit.backup self && file_exists self fs).
  2: { cbn [app]. apply write_body_safe; assumption. }
  cbn [app]. destruct k as [|k].
  { cbn [state_after take forallb]. auto. }
  cbn [state_after exec take forallb is_rename negb andb].
  destruct (Yedit.filename self =? Yedit.filename self ++ Yedit.backup_ext self)%string
    eqn:Hsame.
  { auto. }
  rewrite Hf.
  assert (Hne : (Yedit.filename self ++ Yedit.backup_ext self)%string
                <> Yedit.filename self).
  { intros Heq. rewrite Heq, string_eqb_refl in Hsame. discriminate. }
  pose proof (write_body_safe self old k
                (<[(Yedit.filename self ++ Yedit.backup_ext self)%string := old]> fs))
    as H.
  rewrite lookup_insert_ne in H by exact Hne.
  exact (H Hf).
Qed.

(** A run of [write] that is not interrupted, for a supported content
    type and without a backup, installs the serialized tree. *)
Lemma write_completes (self : Yedit.t) (old : string)
  (fs : gmap string string) :
  fs !! Yedit.filename self = Some old ->
  Yedit.filename self <> "" ->
  Yedit.backup self = false ->
  Yedit.content_type self = "yaml" \/ Yedit.content_type self = "json" ->
  let ops := write yaml_dump json_dump self fs in
  state_after (length ops) ops fs !! Yedit.filename self
  = Some (serialized yaml_dump json_dump self).
Proof.
  intros Hf Hname Hbackup Htype. unfold write, serialized.
  apply String.eqb_neq in Hname. rewrite Hname, Hbackup. cbn [andb app].
  destruct Htype as [-> | ->].
  - change ("yaml" =? "yaml")%string with true. cbv iota.
    eapply _write_safe; [exact Hf | apply Nat.le_refl].
  - change ("json" =? "yaml")%string with false.
    change ("json" =? "json")%string with true. cbv iota.
    eapply _write_safe; [exact Hf | apply Nat.le_refl].
Qed.

End DurableWriter.

(** ** Mappings and sequences *)

Lemma dict_get_set_eq (k : string) (v : value) (d : list (string * value)) :
  dict_get k (dict_set k v d) = Some v.
Proof.
  induction d as [|[k' v'] d IH]; cbn [dict_set dict_get].
  - now rewrite string_eqb_refl.
  - destruct (k =? k')%string eqn:E; cbn [dict_get]; now rewrite E.
Qed.

Lemma dict_set_same (k : string) (v : value) (d : list (string * value)) :
  dict_get k d = Some v -> dict_set k v d = d.
Proof.
  induction d as [|[k' v'] d IH]; cbn [dict_set dict_get]; [discriminate|].
  destruct (k =? k')%string; intros H.
  - now inversion H.
  - now rewrite IH.
Qed.

Lemma dict_set_twice (k : string) (v w : value) (d : list (string * value)) :
  dict_set k w (dict_set k v d) = dict_set k w d.
Proof.
  induction d as [|[k' v'] d IH]; cbn [dict_set].
  - now rewrite string_eqb_refl.
  - destruct (k =? k')%string eqn:E; cbn [dict_set]; rewrite E; [|rewrite IH];
      reflexivity.
Qed.

Lemma norm_index_lt (i : Z) (n j : nat) :
  norm_index i n = Some j -> (j < n)%nat.
Proof.
  unfold norm_index.
  destruct (0 <=? i) eqn:E0; [destruct (i <? Z.of_nat n) eqn:E1|
                               destruct (0 <=? Z.of_nat n + i) eqn:E2];
    intros H; inversion H; subst; lia.
Qed.

Lemma norm_index_nonneg (i : Z) (n : nat) :
  0 <= i -> i <= Z.of_nat n - 1 -> norm_index i n = Some (Z.to_nat i).
Proof.
  intros H0 H1. unfold norm_index.
  destruct (0 <=? i) eqn:E0; [|lia].
  destruct (i <? Z.of_nat n) eqn:E1; [reflexivity|lia].
Qed.

Lemma norm_index_of_nat (j n : nat) :
  (j < n)%nat -> norm_index (Z.of_nat j) n = Some j.
Proof.
  intros H. rewrite norm_index_nonneg by lia. now rewrite Nat2Z.id.
Qed.

Lemma list_index_lookup (l : list value) (x : value) (j : nat) :
  list_index l x = Some j ->
  exists y, l !! j = Some y /\ py_eq y x = true.
Proof.
  revert j. induction l as [|y l IH]; intros j; cbn [list_index]; [discriminate|].
  destruct (py_eq y x) eqn:E.
  - intros H. inversion H; subst. now exists y.
  - destruct (list_index l x) as [j'|]; [|discriminate].
    intros H. inversion H; subst. now apply IH.
Qed.

Lemma list_index_found (l : list value) (x y : value) (j : nat) :
  l !! j = Some y -> py_eq y x = true -> exists j', list_index l x = Some j'.
Proof.
  revert j. induction l as [|z l IH]; intros j Hj Heq; [discriminate|].
  cbn [list_index]. destruct (py_eq z x) eqn:E; [now eexists|].
  destruct j as [|j]; cbn in Hj.
  - inversion Hj; subst. congruence.
  - destruct (IH j Hj Heq) as [j' ->]. now eexists.
Qed.

(** ** The path grammar *)

Import Yedit.

Lemma parse_key_empty (sep : string) : parse_key "" sep = [].
Proof. reflexivity. Qed.

Lemma nonneg_steps_cons (st : step) (steps : list step) :
  nonneg_steps (st :: steps) -> nonneg_steps steps.
Proof. intros H i Hi. apply H. now right. Qed.

(** ** The tokenizer consumes its input *)

Lemma span_length (p : ascii -> bool) (s a b : string) :
  Re.span p s = (a, b) ->
  String.length s = (String.length a + String.length b)%nat.
Proof.
  revert a b. induction s as [|c s IH]; intros a b; cbn [Re.span].
  - intros H. now inversion H.
  - destruct (p c).
    + destruct (Re.span p s) as [a' b'] eqn:E. intros H. inversion H; subst.
      cbn [String.length]. now rewrite (IH a' b eq_refl).
    + intros H. now inversion H.
Qed.

Lemma match_key_shorter (sep s rest : string) (st : step) :
  match_key sep s = Some (st, rest) ->
  (String.length rest < String.length s)%nat.
Proof.
  unfold match_key. destruct s as [|c s1]; [discriminate|].
  destruct (Re.lit "[" c).
  - set (split := match s1 with
                  | String "-"%char t => ("-", t)
                  | _ => ("", s1)
                  end).
    assert (Hsplit : (String.length (snd split) <= String.length s1)%nat).
    { subst split. destruct s1 as [|c1 t]; [cbn; lia|].
      destruct (Ascii.eqb_spec c1 "-"%char) as [->|Hc].
      - cbn. lia.
      - destruct c1 as [[] [] [] [] [] [] [] []]; cbn; try lia; congruence. }
    destruct split as [sign s2]. cbn [snd] in Hsplit.
    destruct (Re.span Re.digit s2) as [ds s3] eqn:Esp.
    apply span_length in Esp.
    destruct ds; [discriminate|]. destruct s3 as [|c3 s4]; [discriminate|].
    destruct c3 as [[] [] [] [] [] [] [] []]; try discriminate.
    intros H. inversion H; subst. cbn [String.length] in *. lia.
  - destruct (key_char sep c) eqn:Ec; [|discriminate].
    cbn [Re.span]. rewrite Ec.
    destruct (Re.span (key_char sep) s1) as [a b] eqn:Esp.
    apply span_length in Esp. intros H. inversion H; subst.
    cbn [String.length]. lia.
Qed.

(** Any fuel from the length of the key on gives [parse_key] the same
    tuples: the fuel of [parse_key] does not run out. *)
Lemma findall_key_fuel (sep : string) (n : nat) :
  forall (m : nat) (s : string),
    (String.length s <= n)%nat ->
    (String.length s <= m)%nat ->
    findall_key n sep s = findall_key m sep s.
Proof.
  induction n as [|n IH]; intros m s Hn Hm.
  - destruct s; [|cbn in Hn; lia]. now destruct m.
  - destruct m as [|m].
    + destruct s; [reflexivity | cbn in Hm; lia].
    + cbn [findall_key].
      destruct (match_key sep s) as [[st rest]|] eqn:Em.
      * apply match_key_shorter in Em. f_equal. apply IH; lia.
      * destruct s as [|c s]; [reflexivity|].
        cbn [String.length] in *. apply IH; lia.
Qed.

(** The grammar on the paths of the documentation and on some that it
    rejects. *)
Example parse_key_mixed :
  parse_key "a.b[2].c" "." = [SKey "a"; SKey "b"; SIdx 2; SKey "c"].
Proof. reflexivity. Qed.

Example parse_key_other_separator :
  parse_key "a:b[-12]" "." = [SKey "a:b"; SIdx (-12)]
  /\ parse_key "a:b[-12]" ":" = [SKey "a"; SKey "b"; SIdx (-12)].
Proof. split; reflexivity. Qed.

Example parse_key_percent : parse_key "%" "." = [] /\ valid_key "%" "." = true.
Proof. split; reflexivity. Qed.

Example valid_key_samples :
  map (fun key => valid_key key ".")
      ["a.b[2].c"; "[1][2]"; "a b"; "a!"; "a!!"; "["; "[--3]"; "a..b"; ""]
  = [true; true; true; true; false; false; false; false; false].
Proof. reflexivity. Qed.

(** ** Navigation *)

Lemma get_loop_scalar (steps : list step) (data : value) :
  is_container data = false ->
  get_loop steps data = Ok (match steps with [] => data | _ :: _ => VNone end).
Proof.
  destruct steps as [|[i|k] rest]; [reflexivity| |];
    destruct data; cbn; intros H; try reflexivity; discriminate.
Qed.

Lemma get_loop_none (steps : list step) : get_loop steps VNone = Ok VNone.
Proof. rewrite get_loop_scalar by reflexivity. now destruct steps. Qed.

(** Lookup raises for no key that is missing and for no index at or
    beyond the end of a sequence. *)
Lemma get_loop_no_raise (steps : list step) :
  nonneg_steps steps -> forall data, exists v, get_loop steps data = Ok v.
Proof.
  induction steps as [|st rest IH]; intros Hnn data; [now eexists|].
  specialize (IH (nonneg_steps_cons _ _ Hnn)).
  destruct st as [i|k]; destruct data; cbn [get_loop]; try (now eexists).
  - destruct (i <=? Z.of_nat (length l) - 1) eqn:E; [|now eexists].
    assert (0 <= i) by (apply Hnn; now left).
    unfold list_getitem. rewrite norm_index_nonneg by lia.
    destruct (l !! Z.to_nat i) eqn:El; [apply IH|].
    apply lookup_ge_None in El. lia.
  - apply IH.
Qed.

Lemma get_entry_no_raise (data : value) (key sep : string) :
  nonneg_steps (parse_key key sep) -> exists v, get_entry data key sep = Ok v.
Proof.
  intros Hnn. unfold get_entry.
  destruct (key =? "")%string; [now apply get_loop_no_raise|].
  destruct (negb (nonempty key && valid_key key sep) && is_container data);
    [now eexists | now apply get_loop_no_raise].
Qed.

(** ** Invalid paths *)

Section InvalidPath.
Variables (data : value) (key sep : string).
Hypothesis Hkey : key <> "".
Hypothesis Hinvalid : valid_key key sep = false.
Hypothesis Hroot : is_container data = true.

Lemma invalid_guard :
  (key =? "")%string = false
  /\ negb (nonempty key && valid_key key sep) && is_container data = true.
Proof.
  split; [now apply String.eqb_neq|].
  rewrite Hinvalid, Hroot. now rewrite andb_false_r.
Qed.

Lemma get_entry_invalid : get_entry data key sep = Ok VNone.
Proof. unfold get_entry. now destruct invalid_guard as [-> ->]. Qed.

Lemma add_entry_invalid (item : value) :
  add_entry data key item sep = (Ok VNone, data).
Proof. unfold add_entry. now destruct invalid_guard as [-> ->]. Qed.

Lemma remove_entry_invalid (index : option Z) (val : value) :
  remove_entry data key index val sep = (Ok None, data).
Proof.
  unfold remove_entry. destruct invalid_guard as [-> ->].
  now destruct data.
Qed.
End InvalidPath.

(** C3 (amended). A non-empty path that the grammar rejects raises
    nothing on a tree rooted at a mapping or a sequence: [get_entry],
    [add_entry] and [remove_entry] return [None] and leave the tree as it
    is, [get] returns [None], [put] and [delete] report changed=false on
    the unchanged document. Lookup of a path without negative index steps
    raises for no missing key and for no index at or beyond the end of a
    sequence. *)
Theorem invalid_path_is_silent :
  (forall (self : Yedit.t) (path : string) (item : value)
          (index : option Z) (val : value),
      path <> "" ->
      valid_key path (separator self) = false ->
      is_container (yaml_dict self) = true ->
      get_entry (yaml_dict self) path (separator self) = Ok VNone
      /\ add_entry (yaml_dict self) path item (separator self)
         = (Ok VNone, yaml_dict self)
      /\ remove_entry (yaml_dict self) path index val (separator self)
         = (Ok None, yaml_dict self)
      /\ get self path = Ok VNone
      /\ put self path item = (Ok false, self)
      /\ delete self path index val = (Ok false, self))
  /\ (forall (data : value) (path sep : string),
         nonneg_steps (parse_key path sep) ->
         exists v, get_entry data path sep = Ok v).
Proof.
  split; [|intros; now apply get_entry_no_raise].
  intros self path item index val Hkey Hinv Hroot.
  pose proof (get_entry_invalid _ _ _ Hkey Hinv Hroot) as Hget.
  pose proof (add_entry_invalid _ _ _ Hkey Hinv Hroot item) as Hadd.
  pose proof (remove_entry_invalid _ _ _ Hkey Hinv Hroot index val) as Hrem.
  repeat split; try assumption.
  - unfold get. now rewrite Hget.
  - unfold put. rewrite Hget. cbn [entry_or_none].
    destruct (py_eq VNone item); [reflexivity|]. now rewrite Hadd.
  - unfold delete. now rewrite Hget.
Qed.

(** C3, as stated, fails: the path [a!!] is not in the grammar, and
    neither lookup nor [put] raises for it. *)
Lemma invalid_path_does_not_raise :
  let self := Build "f.yml" "yaml" "." ".orig" false (VDict []) in
  "a!!" <> ""
  /\ valid_key "a!!" "." = false
  /\ get_entry (yaml_dict self) "a!!" "." = Ok VNone
  /\ ~ (exists e, fst (put self "a!!" (VInt 1)) = Raise e).
Proof.
  cbv zeta. repeat split; try reflexivity; try discriminate.
  intros [e He]. vm_compute in He. discriminate.
Qed.

(** ** Loose equality in [put] *)

(** C10. [put] is a changed=false no-op, the document and the stored
    value left as they are, whenever the value resolved at the path is
    equal to the new one under [==]; that equality identifies [True] with
    the integer 1 and [False] with 0, so a [put] of [True] on a path that
    holds the integer 1 keeps the integer. *)
Theorem put_loose_equality_noop :
  (forall (self : Yedit.t) (path : string) (entry val : value),
      get_entry (yaml_dict self) path (separator self) = Ok entry ->
      py_eq entry val = true ->
      put self path val = (Ok false, self))
  /\ (forall b : bool,
         py_eq (VInt (Z.b2z b)) (VBool b) = true
         /\ py_eq (VBool b) (VInt (Z.b2z b)) = true)
  /\ (let self := Build "f.yml" "yaml" "." ".orig" false
                    (VDict [("a", VInt 1)]) in
      put self "a" (VBool true) = (Ok false, self)
      /\ get self "a" = Ok (VInt 1)).
Proof.
  split; [|split].
  - intros self path entry val Hget Heq. unfold put.
    rewrite Hget. cbn [entry_or_none].
    destruct entry; now rewrite Heq.
  - intros []; split; reflexivity.
  - cbv zeta. split; reflexivity.
Qed.

(** ** Upsert followed by lookup *)

Lemma add_last_get (st : step) (item data r data' : value) :
  add_last st item data = (Ok r, data') ->
  get_loop [st] data' = Ok item /\ r = data' /\ is_container data' = true.
Proof.
  destruct st as [i|k]; destruct data; cbn [add_last]; try discriminate.
  - destruct (i <=? Z.of_nat (length l)) eqn:E1; [|discriminate].
    destruct (i >? Z.of_nat (length l) - 1) eqn:E2.
    + intros H. inversion H; subst. repeat split.
      cbn [get_loop]. rewrite length_app. cbn [length].
      assert (Hi : i = Z.of_nat (length l)) by zlia. subst i.
      destruct (Z.of_nat (length l) <=? Z.of_nat (length l + 1) - 1) eqn:E3;
        [|zlia].
      unfold list_getitem. rewrite length_app. cbn [length].
      rewrite norm_index_of_nat by lia.
      now rewrite list_lookup_middle.
    + unfold list_setitem.
      destruct (norm_index i (length l)) as [j|] eqn:Ej; [|discriminate].
      intros H. inversion H; subst. repeat split.
      cbn [get_loop]. rewrite length_insert.
      destruct (i <=? Z.of_nat (length l) - 1) eqn:E3; [|zlia].
      unfold list_getitem. rewrite length_insert, Ej.
      rewrite list_lookup_insert_eq; [reflexivity|].
      now apply norm_index_lt in Ej.
  - intros H. inversion H; subst. repeat split.
    cbn [get_loop]. now rewrite dict_get_set_eq.
Qed.

Lemma add_loop_unfold (st st2 : step) (rest : list step) (item data : value) :
  add_loop (st :: st2 :: rest) item data
  = add_round st (add_loop (st2 :: rest) item) data.
Proof. reflexivity. Qed.

Lemma add_loop_get (item : value) (steps : list step) :
  forall data r data',
    add_loop steps item data = (Ok r, data') ->
    get_loop steps data' = Ok item /\ is_container data' = true.
Proof.
  induction steps as [|st rest IH]; intros data r data'; [discriminate|].
  destruct rest as [|st2 rest].
  { cbn [add_loop]. intros H. apply add_last_get in H. tauto. }
  rewrite add_loop_unfold. unfold add_round.
  destruct st as [i|k]; destruct data; try discriminate;
    try (destruct (truthy _); discriminate).
  - destruct (i <=? Z.of_nat (length l) - 1) eqn:E1; [|discriminate].
    destruct (norm_index i (length l)) as [j|] eqn:Ej; [|discriminate].
    destruct (l !! j) as [child|] eqn:El; [|discriminate].
    destruct (add_loop (st2 :: rest) item child) as [r' child'] eqn:Ea.
    intros H. inversion H; subst r' data'. split; [|reflexivity].
    cbn [get_loop]. rewrite length_insert, E1.
    unfold list_getitem. rewrite length_insert, Ej.
    rewrite list_lookup_insert_eq by (now apply norm_index_lt in Ej).
    now apply (IH _ _ _ Ea).
  - destruct (dict_get k d) as [child|] eqn:Ed; [destruct (truthy child)|];
      cbv zeta.
    + destruct (add_loop (st2 :: rest) item child) as [r' child'] eqn:Ea.
      intros H. inversion H; subst r' data'. split; [|reflexivity].
      cbn [get_loop]. rewrite dict_get_set_eq. now apply (IH _ _ _ Ea).
    + destruct (add_loop (st2 :: rest) item (VDict [])) as [r' child'] eqn:Ea.
      intros H. inversion H; subst r' data'. split; [|reflexivity].
      cbn [get_loop]. rewrite dict_get_set_eq. now apply (IH _ _ _ Ea).
    + destruct (add_loop (st2 :: rest) item (VDict [])) as [r' child'] eqn:Ea.
      intros H. inversion H; subst r' data'. split; [|reflexivity].
      cbn [get_loop]. rewrite dict_get_set_eq. now apply (IH _ _ _ Ea).
Qed.

(** [add_loop] succeeds on containers only. *)
Lemma add_loop_ok_container (item : value) (steps : list step)
  (data r data' : value) :
  add_loop steps item data = (Ok r, data') -> is_container data = true.
Proof.
  destruct steps as [|st [|st2 rest]]; [discriminate| |].
  - cbn [add_loop]. destruct st, data; cbn [add_last]; try discriminate;
      reflexivity.
  - rewrite add_loop_unfold. unfold add_round.
    destruct st, data; try discriminate; try reflexivity;
      destruct (truthy _); discriminate.
Qed.

(** The object that [add_loop] returns is a mapping or a sequence. *)
Lemma add_loop_result (item : value) (steps : list step) :
  forall data r data',
    add_loop steps item data = (Ok r, data') -> is_container r = true.
Proof.
  induction steps as [|st rest IH]; intros data r data'; [discriminate|].
  destruct rest as [|st2 rest].
  { cbn [add_loop]. intros H. apply add_last_get in H as (_ & -> & H).
    exact H. }
  rewrite add_loop_unfold. unfold add_round.
  destruct st as [i|k]; destruct data; try discriminate;
    try (destruct (truthy _); discriminate).
  - destruct (i <=? Z.of_nat (length l) - 1); [|discriminate].
    destruct (norm_index i (length l)) as [j|]; [|discriminate].
    destruct (l !! j) as [child|]; [|discriminate].
    destruct (add_loop (st2 :: rest) item child) as [r' child'] eqn:Ea.
    intros H. inversion H; subst. now apply (IH _ _ _ Ea).
  - destruct (dict_get k d) as [child|]; [destruct (truthy child)|]; cbv zeta.
    + destruct (add_loop (st2 :: rest) item child) as [r' child'] eqn:Ea.
      intros H. inversion H; subst. now apply (IH _ _ _ Ea).
    + destruct (add_loop (st2 :: rest) item (VDict [])) as [r' child'] eqn:Ea.
      intros H. inversion H; subst. now apply (IH _ _ _ Ea).
    + destruct (add_loop (st2 :: rest) item (VDict [])) as [r' child'] eqn:Ea.
      intros H. inversion H; subst. now apply (IH _ _ _ Ea).
Qed.

(** The tree after [add_entry]: the returned object for the root path,
    the mutated [data] for any other. *)
Lemma add_entry_get (data : value) (key : string) (item : value)
  (sep : string) (r data' : value) :
  add_entry data key item sep = (Ok r, data') ->
  is_none r = false ->
  get_entry (if (key =? "")%string then r else data') key sep = Ok item.
Proof.
  unfold add_entry, get_entry.
  destruct (key =? "")%string eqn:Ekey.
  { intros H _. inversion H; subst. apply String.eqb_eq in Ekey. now subst. }
  destruct (negb (nonempty key && valid_key key sep) && is_container data)
    eqn:Eguard.
  { intros H Hr. inversion H; subst. discriminate. }
  intros Hadd _.
  pose proof (add_loop_ok_container _ _ _ _ _ Hadd) as Hc.
  destruct (add_loop_get _ _ _ _ _ Hadd) as [Hget Hc'].
  rewrite Hc in Eguard. rewrite Hc'.
  rewrite andb_true_r in Eguard |- *. now rewrite Eguard.
Qed.

(** C8. Write/read round trip: when [add_entry] succeeds (it returns an
    object, not [None]), resolving the same path on the resulting tree
    returns exactly the value just written, for paths of any number of
    mapping-key and sequence-index steps. The resulting tree is the
    returned object for the root path and the mutated tree otherwise, as
    [put] commits it. *)
Theorem upsert_then_resolve (data : value) (key : string) (item : value)
  (sep : string) (r data' : value) :
  add_entry data key item sep = (Ok r, data') ->
  is_none r = false ->
  get_entry (if (key =? "")%string then r else data') key sep = Ok item.
Proof. apply add_entry_get. Qed.

(** ** Equality *)

(** Induction on values, the elements of a sequence and the values of a
    mapping being smaller than it. *)
Lemma value_ind (P : value -> Prop)
  (HNone : P VNone)
  (HBool : forall b, P (VBool b))
  (HInt : forall z, P (VInt z))
  (HStr : forall s, P (VStr s))
  (HList : forall l, Forall P l -> P (VList l))
  (HDict : forall d, Forall (fun kv => P (snd kv)) d -> P (VDict d)) :
  forall v, P v.
Proof.
  fix IH 1. intros [| b | z | s | l | d].
  - exact HNone.
  - apply HBool.
  - apply HInt.
  - apply HStr.
  - apply HList. induction l as [|x l IHl]; constructor; [apply IH | exact IHl].
  - apply HDict. induction d as [|kv d IHd]; constructor;
      [apply IH | exact IHd].
Qed.

Lemma py_eq_list (l1 l2 : list value) :
  py_eq (VList l1) (VList l2)
  = match l1, l2 with
    | [], [] => true
    | x :: r1, y :: r2 => py_eq x y && py_eq (VList r1) (VList r2)
    | _, _ => false
    end.
Proof. destruct l1, l2; reflexivity. Qed.

Lemma py_eq_dict (d1 d2 : list (string * value)) :
  py_eq (VDict d1) (VDict d2)
  = (length d1 =? length d2)%nat
    && forallb (fun kv => match dict_get (fst kv) d2 with
                          | Some w => py_eq (snd kv) w
                          | None => false
                          end) d1.
Proof.
  cbn [py_eq]. now f_equal.
Qed.

Lemma wf_dict (d : list (string * value)) :
  wf (VDict d) = nodup_keys (map fst d) && forallb (fun kv => wf (snd kv)) d.
Proof.
  cbn [wf]. now f_equal.
Qed.

Lemma dict_get_absent (k : string) (d : list (string * value)) :
  existsb (String.eqb k) (map fst d) = false -> dict_get k d = None.
Proof.
  induction d as [|[k' v] d IH]; [reflexivity|].
  cbn [map fst existsb dict_get]. destruct (k =? k')%string; [discriminate|].
  exact IH.
Qed.

(** In a mapping of distinct keys, every item is the one that its key
    looks up. *)
Lemma dict_get_item (pre d : list (string * value)) (k : string) (v : value) :
  nodup_keys (map fst (pre ++ (k, v) :: d)) = true ->
  dict_get k (pre ++ (k, v) :: d) = Some v.
Proof.
  induction pre as [|[k' v'] pre IH]; cbn [app map fst nodup_keys dict_get].
  - now rewrite string_eqb_refl.
  - intros H. apply andb_prop in H as [Hk Hrest].
    destruct (k =? k')%string eqn:E; [|now apply IH].
    apply String.eqb_eq in E. subst k'. exfalso.
    rewrite map_app, existsb_app in Hk. cbn [map fst existsb] in Hk.
    rewrite string_eqb_refl, orb_true_r in Hk. discriminate.
Qed.

Lemma py_eq_refl (v : value) : wf v = true -> py_eq v v = true.
Proof.
  induction v as [| b | z | s | l IHl | d IHd] using value_ind; intros Hwf.
  - reflexivity.
  - now destruct b.
  - apply Z.eqb_refl.
  - apply string_eqb_refl.
  - cbn [wf] in Hwf. induction IHl as [|x l Hx _ IH]; [reflexivity|].
    rewrite py_eq_list. cbn [forallb] in Hwf.
    apply andb_prop in Hwf as [Hwx Hwl]. now rewrite Hx, IH.
  - rewrite py_eq_dict, Nat.eqb_refl. cbn [andb].
    rewrite wf_dict in Hwf. apply andb_prop in Hwf as [Hnd Hwf].
    assert (Hgen : forall pre suf,
              d = (pre ++ suf)%list ->
              forallb (fun kv => match dict_get (fst kv) d with
                                 | Some w => py_eq (snd kv) w
                                 | None => false
                                 end) suf = true).
    { intros pre suf. revert pre.
      induction suf as [|[k v] suf IHsuf]; intros pre Hd; [reflexivity|].
      cbn [forallb fst snd]. apply andb_true_intro. split.
      - rewrite Hd, dict_get_item by (rewrite <- Hd; exact Hnd).
        rewrite Forall_forall in IHd. apply (IHd (k, v)).
        + rewrite Hd. apply list_elem_of_In, in_or_app. right. now left.
        + rewrite forallb_forall in Hwf. apply (Hwf (k, v)).
          rewrite Hd. apply in_or_app. right. now left.
      - apply (IHsuf (pre ++ [(k, v)])%list).
        now rewrite <- app_assoc. }
    now apply (Hgen []).
Qed.

(** ** [put] *)

(** Lookup raises [IndexError] and nothing else. *)
Lemma get_loop_raise (steps : list step) :
  forall data e, get_loop steps data = Raise e -> e = IndexError.
Proof.
  induction steps as [|st rest IH]; intros data e; [discriminate|].
  destruct st as [i|k]; destruct data; cbn [get_loop]; try discriminate.
  - destruct (i <=? Z.of_nat (length l) - 1); [|discriminate].
    unfold list_getitem.
    destruct (norm_index i (length l)) as [j|]; [|congruence].
    destruct (l !! j); [apply IH | congruence].
  - apply IH.
Qed.

Lemma get_entry_raise (data : value) (key sep : string) (e : exn) :
  get_entry data key sep = Raise e -> e = IndexError.
Proof.
  unfold get_entry. destruct (key =? "")%string; [apply get_loop_raise|].
  destruct (negb (nonempty key && valid_key key sep) && is_container data);
    [discriminate | apply get_loop_raise].
Qed.

(** The handler of [KeyError] around [get_entry] never runs. *)
Lemma entry_or_none_get_entry (data : value) (key sep : string) :
  entry_or_none (get_entry data key sep) = get_entry data key sep.
Proof.
  destruct (get_entry data key sep) as [v|e] eqn:E; [reflexivity|].
  apply get_entry_raise in E. now subst e.
Qed.

(** What a [put] that reports a change has done. *)
Lemma put_changed (self self' : Yedit.t) (path : string) (val : value) :
  put self path val = (Ok true, self') ->
  exists r tmp',
    add_entry (yaml_dict self) path val (separator self) = (Ok r, tmp')
    /\ is_none r = false
    /\ self' = set_yaml_dict self (if (path =? "")%string then r else tmp')
    /\ ((path =? "")%string = true -> is_container r = true).
Proof.
  unfold put. rewrite entry_or_none_get_entry.
  destruct (get_entry (yaml_dict self) path (separator self)) as [entry|e];
    [|discriminate].
  destruct (py_eq entry val); [discriminate|]. cbv zeta.
  destruct (add_entry (yaml_dict self) path val (separator self))
    as [[r|e] tmp'] eqn:Ea; [|discriminate].
  intros H. exists r, tmp'. split; [reflexivity|].
  destruct (path =? "")%string;
    destruct r; try discriminate; cbn in H; inversion H; subst;
    repeat split; intros; try reflexivity; discriminate.
Qed.

(** ** Walks *)

Lemma get_loop_app (a b : list step) :
  forall data,
    get_loop (a ++ b) data
    = match get_loop a data with
      | Ok v => get_loop b v
      | Raise e => Raise e
      end.
Proof.
  induction a as [|st a IH]; intros data; [reflexivity|].
  cbn [app get_loop]. destruct st as [i|k]; destruct data;
    rewrite ?get_loop_none; try reflexivity.
  - destruct (i <=? Z.of_nat (length l) - 1);
      [|now rewrite get_loop_none].
    destruct (list_getitem l i); [apply IH | reflexivity].
  - apply IH.
Qed.

Lemma add_loop_round (st : step) (rest : list step) (item data : value) :
  rest <> [] ->
  add_loop (st :: rest) item data = add_round st (add_loop rest item) data.
Proof. destruct rest; [congruence | reflexivity]. Qed.

Lemma remove_loop_round (st : step) (rest : list step) (data : value) :
  rest <> [] ->
  remove_loop (st :: rest) data = remove_round st (remove_loop rest) data.
Proof. destruct rest; [congruence | reflexivity]. Qed.

Lemma app_cons_nonempty {A} (a : list A) (x : A) (b : list A) :
  (a ++ x :: b)%list <> [].
Proof. now destruct a. Qed.

(** A walk that ends on a sequence or a mapping went through the
    items of the tree: no absent key stood for [None] on the way. *)
Lemma get_loop_step_key (k : string) (d : list (string * value))
  (rest : list step) (tgt : value) :
  get_loop (SKey k :: rest) (VDict d) = Ok tgt ->
  is_none tgt = false ->
  exists child, dict_get k d = Some child /\ get_loop rest child = Ok tgt.
Proof.
  cbn [get_loop]. destruct (dict_get k d) as [child|]; cbn [default].
  - intros H _. now exists child.
  - rewrite get_loop_none. intros H Hn. inversion H; subst. discriminate.
Qed.

Lemma get_loop_step_idx (i : Z) (l : list value) (rest : list step)
  (tgt : value) :
  get_loop (SIdx i :: rest) (VList l) = Ok tgt ->
  is_none tgt = false ->
  exists j child,
    (i <=? Z.of_nat (length l) - 1) = true
    /\ norm_index i (length l) = Some j
    /\ l !! j = Some child
    /\ get_loop rest child = Ok tgt.
Proof.
  cbn [get_loop]. destruct (i <=? Z.of_nat (length l) - 1).
  - unfold list_getitem.
    destruct (norm_index i (length l)) as [j|]; [|discriminate].
    destruct (l !! j) as [child|] eqn:El; [|discriminate].
    intros H _. now exists j, child.
  - intros H Hn. inversion H; subst. discriminate.
Qed.

(** The walk does not go on from a scalar. *)
Lemma get_loop_stuck (st : step) (rest : list step) (data tgt : value) :
  get_loop (st :: rest) data = Ok tgt ->
  is_none tgt = false ->
  match st, data with
  | SKey _, VDict _ | SIdx _, VList _ => True
  | _, _ => False
  end.
Proof.
  destruct st, data; cbn [get_loop]; intros H Hn; try exact I;
    inversion H; subst; discriminate.
Qed.

(** ** Removal *)

(** Removal of an index step at or beyond the end of the sequence that
    the rest of the path resolves to. *)
Lemma remove_loop_beyond (i : Z) (l : list value) (pre : list step) :
  Z.of_nat (length l) <= i ->
  forall data,
    get_loop pre data = Ok (VList l) ->
    remove_loop (pre ++ [SIdx i]) data = (Ok None, data).
Proof.
  intros Hi. induction pre as [|st pre IH]; intros data Hget.
  - cbn in Hget. inversion Hget; subst. cbn [app remove_loop remove_last].
    destruct (i <=? Z.of_nat (length l) - 1) eqn:E; [zlia | reflexivity].
  - cbn [app]. rewrite remove_loop_round by apply app_cons_nonempty.
    pose proof (get_loop_stuck _ _ _ _ Hget eq_refl) as Hshape.
    destruct st as [j|k]; destruct data; try contradiction; cbn [remove_round].
    + apply get_loop_step_idx in Hget as (n & child & -> & -> & Hn & Hget);
        [|reflexivity].
      rewrite Hn, (IH _ Hget). now rewrite list_insert_id.
    + apply get_loop_step_key in Hget as (child & Hk & Hget); [|reflexivity].
      rewrite Hk, (IH _ Hget). now rewrite dict_set_same.
Qed.

(** C5 (amended). An index step at or beyond the end of the sequence
    removes nothing: on the tree [{a: [1, 2]}], [delete] with the path
    [a[5]] reports changed=false and leaves the tree unchanged, and in
    general, where the path ends with such a step on the sequence that
    the steps before it resolve to, [remove_entry] returns [None] without
    touching the tree and [delete] reports changed=false. The argument
    [index] of [delete] is read for the root path only: for any other
    path [remove_entry] does what it does without [index] and [value]. *)
Theorem delete_beyond_end_is_noop :
  (let self := Build "f.yml" "yaml" "." ".orig" false
                 (VDict [("a", VList [VInt 1; VInt 2])]) in
   delete self "a[5]" None VNone = (Ok false, self))
  /\ (forall (self : Yedit.t) (path : string) (pre : list step) (i : Z)
             (l : list value) (index : option Z) (val : value),
         parse_key path (separator self) = (pre ++ [SIdx i])%list ->
         get_loop pre (yaml_dict self) = Ok (VList l) ->
         Z.of_nat (length l) <= i ->
         remove_entry (yaml_dict self) path index val (separator self)
         = (Ok None, yaml_dict self)
         /\ delete self path index val = (Ok false, self))
  /\ (forall (data : value) (path : string) (index : option Z) (val : value)
             (sep : string),
         path <> "" ->
         remove_entry data path index val sep
         = remove_entry data path None VNone sep).
Proof.
  split; [reflexivity|]. split.
  - intros self path pre i l index val Hparse Hpre Hi.
    assert (Hne : (path =? "")%string = false).
    { destruct (path =? "")%string eqn:E; [|reflexivity].
      apply String.eqb_eq in E. subst path. rewrite parse_key_empty in Hparse.
      symmetry in Hparse. now apply app_cons_nonempty in Hparse. }
    assert (Hrem : remove_entry (yaml_dict self) path index val (separator self)
                   = (Ok None, yaml_dict self)).
    { unfold remove_entry. rewrite Hne.
      destruct (negb (nonempty path && valid_key path (separator self))
                && is_container (yaml_dict self)).
      - now destruct (yaml_dict self).
      - rewrite Hparse, (remove_loop_beyond i l pre Hi _ Hpre).
        now destruct (yaml_dict self). }
    split; [exact Hrem|].
    unfold delete. rewrite entry_or_none_get_entry.
    assert (Hget : get_entry (yaml_dict self) path (separator self) = Ok VNone).
    { unfold get_entry. rewrite Hne.
      destruct (negb (nonempty path && valid_key path (separator self))
                && is_container (yaml_dict self)); [reflexivity|].
      rewrite Hparse, get_loop_app, Hpre. cbn [get_loop].
      destruct (i <=? Z.of_nat (length l) - 1) eqn:E; [zlia | reflexivity]. }
    now rewrite Hget.
  - intros data path index val sep Hne. apply String.eqb_neq in Hne.
    unfold remove_entry. now rewrite Hne.
Qed.

(** C5, as stated, fails: on the tree [{a: [1, 2]}], [delete] with the
    path [a] and the index 5 removes the key [a]. *)
Lemma delete_with_index_removes_key :
  let self := Build "f.yml" "yaml" "." ".orig" false
                (VDict [("a", VList [VInt 1; VInt 2])]) in
  delete self "a" (Some 5) VNone = (Ok true, set_yaml_dict self (VDict []))
  /\ delete self "a" (Some 5) VNone <> (Ok false, self).
Proof. cbv zeta. split; [reflexivity | discriminate]. Qed.

(** ** Mutation through an entry *)

(** The entry that was mutated in place is what the path resolves to
    afterwards. *)
Lemma get_loop_set_loop (new : value) (steps : list step) :
  forall data tgt,
    get_loop steps data = Ok tgt ->
    is_none tgt = false ->
    get_loop steps (set_loop steps new data) = Ok new.
Proof.
  induction steps as [|st rest IH]; intros data tgt Hget Hn; [reflexivity|].
  pose proof (get_loop_stuck _ _ _ _ Hget Hn) as Hshape.
  destruct st as [i|k]; destruct data; try contradiction.
  - apply get_loop_step_idx in Hget as (j & child & Hle & Hj & Hl & Hget);
      [|exact Hn].
    cbn [set_loop]. rewrite Hle, Hj, Hl. cbn [get_loop].
    rewrite length_insert, Hle. unfold list_getitem.
    rewrite length_insert, Hj.
    rewrite list_lookup_insert_eq by (now apply norm_index_lt in Hj).
    now apply (IH _ _ Hget).
  - apply get_loop_step_key in Hget as (child & Hk & Hget); [|exact Hn].
    cbn [set_loop]. rewrite Hk. cbn [get_loop].
    rewrite dict_get_set_eq. now apply (IH _ _ Hget).
Qed.

(** An entry mutated into what it was leaves the tree as it was. *)
Lemma set_loop_same (steps : list step) :
  forall data tgt,
    get_loop steps data = Ok tgt ->
    is_none tgt = false ->
    set_loop steps tgt data = data.
Proof.
  induction steps as [|st rest IH]; intros data tgt Hget Hn.
  { cbn in Hget. now inversion Hget. }
  pose proof (get_loop_stuck _ _ _ _ Hget Hn) as Hshape.
  destruct st as [i|k]; destruct data; try contradiction; cbn [set_loop].
  - apply get_loop_step_idx in Hget as (j & child & -> & -> & Hl & Hget);
      [|exact Hn].
    rewrite Hl, (IH _ _ Hget Hn). now rewrite list_insert_id.
  - apply get_loop_step_key in Hget as (child & Hk & Hget); [|exact Hn].
    rewrite Hk, (IH _ _ Hget Hn). now rewrite dict_set_same.
Qed.

Lemma get_entry_set_entry (data : value) (key sep : string) (tgt new : value) :
  get_entry data key sep = Ok tgt ->
  is_none tgt = false ->
  is_container data = true ->
  is_container new = true ->
  get_entry (set_entry data key sep new) key sep = Ok new.
Proof.
  unfold get_entry, set_entry. intros Hget Hn Hc Hnew.
  destruct (key =? "")%string eqn:Ekey.
  { now apply (get_loop_set_loop _ _ _ _ Hget). }
  rewrite Hc, andb_true_r in Hget |- *.
  destruct (negb (nonempty key && valid_key key sep)) eqn:Eg.
  { inversion Hget; subst. discriminate. }
  assert (Hc' : is_container (set_loop (parse_key key sep) new data) = true).
  { destruct (parse_key key sep) as [|[i|k] rest]; [exact Hnew| |];
      destruct data; try discriminate; cbn [set_loop];
      repeat case_match; reflexivity. }
  cbn [andb]. now apply (get_loop_set_loop _ _ _ _ Hget).
Qed.

(** A sequence or a mapping is found in a sequence or a mapping. *)
Lemma get_entry_container (data : value) (key sep : string) (tgt : value) :
  get_entry data key sep = Ok tgt ->
  is_container tgt = true ->
  is_container data = true.
Proof.
  intros Hget Htgt. destruct (is_container data) eqn:Hc; [reflexivity|].
  unfold get_entry in Hget. rewrite Hc, andb_false_r in Hget.
  assert (H : get_loop (parse_key key sep) data = Ok tgt)
    by (now destruct (key =? "")%string).
  rewrite get_loop_scalar in H by exact Hc.
  destruct (parse_key key sep); inversion H; subst; [congruence|discriminate].
Qed.

(** A sequence holds the element that [index] found, at that position. *)
Lemma list_index_item (l : list value) (x : value) (i : nat) :
  list_index l x = Some i ->
  exists old,
    l !! i = Some old
    /\ list_getitem l (Z.of_nat i) = Ok old
    /\ forall v, list_setitem l (Z.of_nat i) v = Ok (<[i := v]> l).
Proof.
  intros H. apply list_index_lookup in H as (old & Hl & _).
  pose proof (lookup_lt_Some _ _ _ Hl) as Hlt.
  exists old. unfold list_getitem, list_setitem.
  rewrite norm_index_of_nat by exact Hlt. now rewrite Hl.
Qed.

(** ** [update] on a sequence *)

(** C6 (amended). Where the path resolves to a sequence and [curr_value]
    is true as a condition: if some element equals [curr_value], the first
    such element is replaced by [value] when it differs from it
    (changed=true, and the path resolves to the sequence with that
    element replaced), and nothing changes when it equals [value]
    (changed=false); if no element equals [curr_value], [update] reports
    changed=false and leaves the document as it is, without a search for
    [value] and without an append. *)
Theorem update_by_curr_value (self : Yedit.t) (path : string)
  (l : list value) (val : value) (index : option Z) (curr_value : value) :
  get_entry (yaml_dict self) path (separator self) = Ok (VList l) ->
  truthy curr_value = true ->
  (forall (i : nat) (old : value),
      list_index l curr_value = Some i ->
      l !! i = Some old ->
      py_eq old val = false ->
      let self' :=
        set_yaml_dict self
          (set_entry (yaml_dict self) path (separator self)
             (VList (<[i := val]> l))) in
      update self path val index curr_value = (Ok true, self')
      /\ get_entry (yaml_dict self') path (separator self')
         = Ok (VList (<[i := val]> l)))
  /\ (forall (i : nat) (old : value),
         list_index l curr_value = Some i ->
         l !! i = Some old ->
         py_eq old val = true ->
         update self path val index curr_value = (Ok false, self))
  /\ (list_index l curr_value = None ->
      update self path val index curr_value = (Ok false, self)).
Proof.
  intros Hget Hcurr.
  pose proof (get_entry_container _ _ _ _ Hget eq_refl) as Hroot.
  assert (Hupd : update self path val index curr_value
                 = match update_list l val index curr_value with
                   | (Ok true, l') =>
                       (Ok true,
                        set_yaml_dict self
                          (set_entry (yaml_dict self) path (separator self)
                             (VList l')))
                   | (r, _) => (r, self)
                   end).
  { unfold update. now rewrite entry_or_none_get_entry, Hget. }
  rewrite Hupd. unfold update_list. rewrite Hcurr.
  split; [|split].
  - intros i old Hi Hl Hne. rewrite Hi.
    destruct (list_index_item _ _ _ Hi) as (old' & Hl' & Hgi & Hsi).
    assert (old' = old) by congruence. subst old'.
    unfold update_at. rewrite Hgi, Hne, Hsi. cbn [negb]. cbv zeta.
    split; [reflexivity|].
    cbn [yaml_dict separator set_yaml_dict].
    now apply (get_entry_set_entry _ _ _ _ _ Hget).
  - intros i old Hi Hl Heq. rewrite Hi.
    destruct (list_index_item _ _ _ Hi) as (old' & Hl' & Hgi & Hsi).
    assert (old' = old) by congruence. subst old'.
    unfold update_at. rewrite Hgi, Heq. cbn [negb]. unfold update_seek.
    destruct (list_index_found _ _ _ _ Hl Heq) as [j ->]. reflexivity.
  - intros ->. reflexivity.
Qed.

(** C6, as stated, fails: on the sequence [[1, 2]] with [curr_value] 9
    and [value] 7, neither of which is an element, [update] appends
    nothing and reports changed=false. *)
Lemma update_missing_curr_value_no_append :
  let self := Build "f.yml" "yaml" "." ".orig" false
                (VDict [("a", VList [VInt 1; VInt 2])]) in
  list_index [VInt 1; VInt 2] (VInt 9) = None
  /\ list_index [VInt 1; VInt 2] (VInt 7) = None
  /\ update self "a" (VInt 7) None (VInt 9) = (Ok false, self)
  /\ fst (update self "a" (VInt 7) None (VInt 9)) <> Ok true.
Proof. cbv zeta. repeat split; try reflexivity. discriminate. Qed.

(** ** Conflicts on the way of an upsert *)

(** [add_loop] on a scalar that is true as a condition. *)
Lemma add_loop_on_scalar (item s : value) (rest : list step) :
  rest <> [] ->
  is_scalar s = true ->
  truthy s = true ->
  fst (add_loop rest item s) = Raise YeditException.
Proof.
  intros Hrest Hs Ht. destruct rest as [|st [|st2 rest]]; [congruence| |].
  - cbn [add_loop]. destruct st, s; try discriminate; reflexivity.
  - rewrite add_loop_round by discriminate. unfold add_round.
    destruct st, s; try discriminate; try reflexivity;
      cbn in Ht |- *; now rewrite Ht.
Qed.

(** A walk of at least one step that ends on something went through a
    sequence or a mapping that is not empty. *)
Lemma get_loop_start_truthy (st : step) (rest : list step)
  (data tgt : value) :
  get_loop (st :: rest) data = Ok tgt ->
  is_none tgt = false ->
  truthy data = true.
Proof.
  intros Hget Hn.
  pose proof (get_loop_stuck _ _ _ _ Hget Hn) as Hshape.
  destruct st as [i|k]; destruct data; try contradiction.
  - apply get_loop_step_idx in Hget as (j & child & _ & _ & Hl & _);
      [|exact Hn].
    now destruct l.
  - apply get_loop_step_key in Hget as (child & Hk & _); [|exact Hn].
    now destruct d.
Qed.

(** What a walk reaches from a value that is false as a condition is
    false as a condition. *)
Lemma get_loop_truthy (pre : list step) (data tgt : value) :
  get_loop pre data = Ok tgt ->
  truthy tgt = true ->
  truthy data = true.
Proof.
  destruct pre as [|st rest]; [intros H; now inversion H|].
  intros Hget Ht. apply (get_loop_start_truthy _ _ _ _ Hget).
  now destruct tgt.
Qed.

Lemma add_loop_conflict (item s : value) (k : string)
  (d : list (string * value)) (rest pre : list step) :
  rest <> [] ->
  dict_get k d = Some s ->
  is_scalar s = true ->
  truthy s = true ->
  forall data,
    get_loop pre data = Ok (VDict d) ->
    fst (add_loop (pre ++ SKey k :: rest) item data) = Raise YeditException.
Proof.
  intros Hrest Hk Hs Ht.
  assert (Htd : truthy (VDict d) = true) by now destruct d.
  induction pre as [|st pre IH]; intros data Hget.
  - cbn in Hget. inversion Hget; subst. cbn [app].
    rewrite add_loop_round by exact Hrest. cbn [add_round]. rewrite Hk, Ht.
    pose proof (add_loop_on_scalar item s rest Hrest Hs Ht) as Hraise.
    now destruct (add_loop rest item s).
  - cbn [app]. rewrite add_loop_round by apply app_cons_nonempty.
    pose proof (get_loop_stuck _ _ _ _ Hget eq_refl) as Hshape.
    destruct st as [i|k']; destruct data; try contradiction; cbn [add_round].
    + apply get_loop_step_idx in Hget as (j & child & -> & -> & -> & Hget);
        [|reflexivity].
      specialize (IH _ Hget).
      now destruct (add_loop (pre ++ SKey k :: rest) item child).
    + apply get_loop_step_key in Hget as (child & -> & Hget); [|reflexivity].
      rewrite (get_loop_truthy _ _ _ Hget Htd).
      specialize (IH _ Hget).
      now destruct (add_loop (pre ++ SKey k :: rest) item child).
Qed.

(** C4 (amended). Where a step of a valid path other than the last
    addresses a mapping key whose value is a scalar that is true as a
    condition ([True], an integer other than 0, a non-empty string),
    [add_entry] raises [YeditException]; [put] of a value other than
    [None] lets the exception through and leaves the live tree as it was.
    The scalar [None] is no conflict: on the tree [{a: None}] the [put] of
    2 at [a.b] replaces it by a mapping and reports changed=true. *)
Theorem scalar_on_path_conflict :
  (forall (self : Yedit.t) (path : string) (val : value)
          (pre rest : list step) (k : string) (d : list (string * value))
          (s : value),
      valid_key path (separator self) = true ->
      parse_key path (separator self) = (pre ++ SKey k :: rest)%list ->
      rest <> [] ->
      get_loop pre (yaml_dict self) = Ok (VDict d) ->
      dict_get k d = Some s ->
      is_scalar s = true ->
      truthy s = true ->
      fst (add_entry (yaml_dict self) path val (separator self))
      = Raise YeditException
      /\ (is_none val = false ->
          put self path val = (Raise YeditException, self)))
  /\ (let self := Build "f.yml" "yaml" "." ".orig" false
                    (VDict [("a", VNone)]) in
      put self "a.b" (VInt 2)
      = (Ok true,
         set_yaml_dict self (VDict [("a", VDict [("b", VInt 2)])]))).
Proof.
  split; [|reflexivity].
  intros self path val pre rest k d s Hvalid Hparse Hrest Hpre Hk Hs Ht.
  assert (Hne : (path =? "")%string = false).
  { destruct (path =? "")%string eqn:E; [|reflexivity].
    apply String.eqb_eq in E. subst path. rewrite parse_key_empty in Hparse.
    symmetry in Hparse. now apply app_cons_nonempty in Hparse. }
  assert (Hguard : nonempty path && valid_key path (separator self) = true).
  { unfold nonempty. now rewrite Hne, Hvalid. }
  assert (Hadd : fst (add_entry (yaml_dict self) path val (separator self))
                 = Raise YeditException).
  { unfold add_entry. rewrite Hne, Hguard. cbn [negb andb]. rewrite Hparse.
    now apply (add_loop_conflict val s k d rest pre). }
  split; [exact Hadd|].
  intros Hval. unfold put. rewrite entry_or_none_get_entry.
  assert (Hget : get_entry (yaml_dict self) path (separator self) = Ok VNone).
  { unfold get_entry. rewrite Hne, Hguard. cbn [negb andb].
    rewrite Hparse, get_loop_app, Hpre. cbn [get_loop]. rewrite Hk.
    cbn [default from_option id]. rewrite get_loop_scalar.
    - now destruct rest.
    - unfold is_scalar in Hs. now destruct (is_container s). }
  rewrite Hget. destruct val; try discriminate; cbn [py_eq]; cbv zeta;
    destruct (add_entry _ _ _ _) as [r tmp']; cbn [fst] in Hadd;
    now rewrite Hadd.
Qed.

(** C4, as stated, fails: on the tree [{a: None}] the step [a] of the
    path [a.b] addresses a scalar, and the upsert raises nothing; on the
    tree [{a: 5}], where it raises, [put] raises too instead of reporting
    changed=false. *)
Lemma null_on_path_is_overwritten :
  let self0 := Build "f.yml" "yaml" "." ".orig" false
                 (VDict [("a", VNone)]) in
  let self5 := Build "f.yml" "yaml" "." ".orig" false
                 (VDict [("a", VInt 5)]) in
  dict_get "a" [("a", VNone)] = Some VNone
  /\ is_scalar VNone = true
  /\ is_raise (fst (add_entry (yaml_dict self0) "a.b" (VInt 2) ".")) = false
  /\ fst (put self0 "a.b" (VInt 2)) = Ok true
  /\ fst (put self5 "a.b" (VInt 2)) <> Ok false.
Proof. cbv zeta. repeat split; try reflexivity. discriminate. Qed.

(** ** The root stays a mapping or a sequence *)

Lemma set_loop_container (steps : list step) (new data : value) :
  is_container data = true ->
  is_container new = true ->
  is_container (set_loop steps new data) = true.
Proof.
  intros Hd Hn. destruct steps as [|[i|k] rest]; [exact Hn| |];
    destruct data; try discriminate; cbn [set_loop];
    repeat case_match; reflexivity.
Qed.

Lemma set_entry_container (data : value) (key sep : string) (new : value) :
  is_container data = true ->
  is_container new = true ->
  is_container (set_entry data key sep new) = true.
Proof.
  intros Hd Hn. unfold set_entry.
  repeat case_match; auto using set_loop_container.
Qed.

Lemma add_loop_container (item : value) (steps : list step) (data : value) :
  is_container data = true ->
  is_container (snd (add_loop steps item data)) = true.
Proof.
  intros Hd. destruct steps as [|st [|st2 rest]]; [exact Hd| |].
  - cbn [add_loop]. unfold add_last.
    destruct st, data; try discriminate; repeat case_match; reflexivity.
  - rewrite add_loop_round by discriminate. unfold add_round.
    destruct st, data; try discriminate; repeat case_match; reflexivity.
Qed.

Lemma add_entry_container (data : value) (key : string) (item : value)
  (sep : string) :
  is_container data = true ->
  is_container (snd (add_entry data key item sep)) = true.
Proof.
  intros Hd. unfold add_entry.
  repeat case_match; auto using add_loop_container.
Qed.

Lemma remove_loop_container (steps : list step) (data : value) :
  is_container data = true ->
  is_container (snd (remove_loop steps data)) = true.
Proof.
  intros Hd. destruct steps as [|st [|st2 rest]]; [exact Hd| |].
  - cbn [remove_loop]. unfold remove_last.
    destruct st, data; try discriminate; repeat case_match; reflexivity.
  - rewrite remove_loop_round by discriminate. unfold remove_round.
    destruct st, data; try discriminate; repeat case_match; reflexivity.
Qed.

Lemma remove_entry_container (data : value) (key : string)
  (index : option Z) (val : value) (sep : string) :
  is_container data = true ->
  is_container (snd (remove_entry data key index val sep)) = true.
Proof.
  intros Hd. unfold remove_entry.
  repeat case_match; subst; try reflexivity; try discriminate;
    auto using remove_loop_container.
Qed.

Lemma put_container (self : Yedit.t) (path : string) (val : value) :
  is_container (yaml_dict self) = true ->
  is_container (yaml_dict (snd (put self path val))) = true.
Proof.
  intros Hd. unfold put.
  pose proof (add_entry_container (yaml_dict self) path val (separator self) Hd)
    as Hadd.
  destruct (entry_or_none _) as [entry|e]; [|exact Hd].
  destruct (py_eq entry val); [exact Hd|]. cbv zeta.
  destruct (add_entry _ _ _ _) as [[r|e] tmp']; [|exact Hd].
  cbn [snd] in Hadd.
  destruct r; try exact Hd; destruct (path =? "")%string;
    cbn; first [exact Hd | exact Hadd | reflexivity].
Qed.

Lemma entry_or_new_list_container (self : Yedit.t) (path : string) :
  is_container (yaml_dict self) = true ->
  is_container (yaml_dict (snd (entry_or_new_list self path))) = true.
Proof.
  intros Hd. unfold entry_or_new_list.
  pose proof (put_container self path (VList []) Hd) as Hput.
  destruct (entry_or_none _) as [entry|e]; [|exact Hd].
  destruct entry; try exact Hd.
  destruct (put self path (VList [])) as [[b|e] self']; exact Hput.
Qed.

(** [put] at the root path. *)
Lemma put_root (self : Yedit.t) (val : value) :
  put self "" val
  = if py_eq (yaml_dict self) val then (Ok false, self)
    else if is_container val then (Ok true, set_yaml_dict self val)
    else (Ok false, self).
Proof.
  unfold put. rewrite entry_or_none_get_entry.
  change (get_entry (yaml_dict self) "" (separator self))
    with (Ok (yaml_dict self)).
  cbv beta iota.
  destruct (py_eq (yaml_dict self) val); [reflexivity|].
  now destruct val.
Qed.

(** C9. Root-container invariant: on a document whose root is a mapping
    or a sequence, the root is still a mapping or a sequence after [put],
    [update], [append], [insert], [delete] and [pop], whatever they
    report, and so when they report changed=true. A [put] at the root
    path commits the new value when it is a mapping or a sequence and
    reports changed=false, committing nothing, when it is a scalar. *)
Theorem root_stays_container :
  (forall (self : Yedit.t) (path : string) (val key_or_item curr_value : value)
          (index : option Z) (pos : Z),
      is_container (yaml_dict self) = true ->
      is_container (yaml_dict (snd (put self path val))) = true
      /\ is_container
           (yaml_dict (snd (update self path val index curr_value))) = true
      /\ is_container (yaml_dict (snd (append self path val))) = true
      /\ is_container (yaml_dict (snd (insert self path val pos))) = true
      /\ is_container (yaml_dict (snd (delete self path index val))) = true
      /\ is_container (yaml_dict (snd (pop self path key_or_item))) = true)
  /\ (forall (self : Yedit.t) (val : value),
         py_eq (yaml_dict self) val = false ->
         is_container val = true ->
         put self "" val = (Ok true, set_yaml_dict self val))
  /\ (forall (self : Yedit.t) (val : value),
         is_scalar val = true ->
         put self "" val = (Ok false, self)).
Proof.
  split; [|split].
  - intros self path val key_or_item curr_value index pos Hd.
    split; [now apply put_container|].
    split; [|split; [|split; [|split]]].
    + unfold update. destruct (entry_or_none _) as [entry|e]; [|exact Hd].
      destruct entry; try exact Hd.
      * destruct (update_list l val index curr_value) as [[[|]|e] l'];
          try exact Hd.
        cbn. now apply set_entry_container.
      * destruct val; try exact Hd. cbn. now apply set_entry_container.
    + unfold append.
      pose proof (entry_or_new_list_container self path Hd) as Hc.
      destruct (entry_or_new_list self path) as [[entry|e] self'];
        [|exact Hc].
      destruct entry; try exact Hc. cbn. now apply set_entry_container.
    + unfold insert.
      pose proof (entry_or_new_list_container self path Hd) as Hc.
      destruct (entry_or_new_list self path) as [[entry|e] self'];
        [|exact Hc].
      destruct entry; try exact Hc. cbn. now apply set_entry_container.
    + unfold delete.
      pose proof (remove_entry_container (yaml_dict self) path index val
                    (separator self) Hd) as Hc.
      destruct (entry_or_none _) as [entry|e]; [|exact Hd].
      destruct (remove_entry _ _ _ _ _) as [[[[|]|]|e] data'];
        destruct entry; try exact Hd; exact Hc.
    + unfold pop. destruct (entry_or_none _) as [entry|e]; [|exact Hd].
      destruct entry; try exact Hd.
      * destruct (list_index l key_or_item); [|exact Hd].
        destruct (list_delitem l _); [|exact Hd].
        cbn. now apply set_entry_container.
      * destruct (dict_contains d key_or_item) as [[|]|e]; try exact Hd.
        destruct (dict_pop d key_or_item); [|exact Hd].
        cbn. now apply set_entry_container.
  - intros self val Hne Hc. now rewrite put_root, Hne, Hc.
  - intros self val Hs. rewrite put_root. unfold is_scalar in Hs.
    destruct (is_container val); [discriminate|].
    now destruct (py_eq (yaml_dict self) val).
Qed.

(** ** Not-found conditions *)












(** ** The theorems at concrete inputs *)

Lemma durable_write_crash_safety_witness :
  let self := Build "conf.yml" "yaml" "." ".orig" true
                (VDict [("a", VInt 1)]) in
  let dump := fun _ : value => ["a:"; " 1"] in
  let fs : gmap string string := {["conf.yml" := "a: 0"]} in
  fs !! "conf.yml" = Some "a: 0"
  /\ (let ops := Disk.write dump dump self fs in
      let now := Disk.state_after 5 ops fs in
      (now !! "conf.yml" = Some "a: 0"
       \/ now !! "conf.yml" = Some (Disk.serialized dump dump self))
      /\ (forallb (fun o => negb (Disk.is_rename o)) (take 5 ops) = true ->
          now !! "conf.yml" = Some "a: 0")).
Proof.
  cbv zeta. split; [vm_compute; reflexivity|].
  apply (durable_write_crash_safety
           (fun _ => ["a:"; " 1"]) (fun _ => ["a:"; " 1"])
           (Build "conf.yml" "yaml" "." ".orig" true (VDict [("a", VInt 1)]))
           "a: 0" 5 {["conf.yml" := "a: 0"]}).
  vm_compute; reflexivity.
Defined.


Lemma invalid_path_is_silent_witness :
  let self := Build "f.yml" "yaml" "." ".orig" false (VDict []) in
  valid_key "a!!" "." = false
  /\ get self "a!!" = Ok VNone
  /\ put self "a!!" (VInt 1) = (Ok false, self)
  /\ delete self "a!!" None VNone = (Ok false, self).
Proof.
  cbv zeta. split; [reflexivity|].
  destruct invalid_path_is_silent as [H _].
  destruct (H (Build "f.yml" "yaml" "." ".orig" false (VDict [])) "a!!"
              (VInt 1) None VNone) as (_ & _ & _ & Hget & Hput & Hdel).
  - discriminate.
  - reflexivity.
  - reflexivity.
  - split; [exact Hget | split; [exact Hput | exact Hdel]].
Defined.

Lemma scalar_on_path_conflict_witness :
  let self := Build "f.yml" "yaml" "." ".orig" false
                (VDict [("x", VInt 1)]) in
  fst (add_entry (yaml_dict self) "x.y" (VInt 2) ".") = Raise YeditException
  /\ put self "x.y" (VInt 2) = (Raise YeditException, self).
Proof.
  cbv zeta. destruct scalar_on_path_conflict as [H _].
  destruct (H (Build "f.yml" "yaml" "." ".orig" false (VDict [("x", VInt 1)]))
              "x.y" (VInt 2) [] [SKey "y"] "x" [("x", VInt 1)] (VInt 1))
    as [Hadd Hput]; try reflexivity; try discriminate.
  split; [exact Hadd | now apply Hput].
Defined.

Lemma delete_beyond_end_is_noop_witness :
  let self := Build "f.yml" "yaml" "." ".orig" false
                (VDict [("a", VList [VInt 1; VInt 2])]) in
  remove_entry (yaml_dict self) "a[2]" None VNone "."
  = (Ok None, yaml_dict self)
  /\ delete self "a[2]" None VNone = (Ok false, self).
Proof.
  cbv zeta. destruct delete_beyond_end_is_noop as (_ & H & _).
  apply (H (Build "f.yml" "yaml" "." ".orig" false
              (VDict [("a", VList [VInt 1; VInt 2])]))
           "a[2]" [SKey "a"] 2 [VInt 1; VInt 2] None VNone).
  - reflexivity.
  - reflexivity.
  - vm_compute. discriminate.
Defined.

Lemma update_by_curr_value_witness :
  let self := Build "f.yml" "yaml" "." ".orig" false
                (VDict [("a", VList [VInt 1; VInt 2])]) in
  update self "a" (VInt 7) None (VInt 2)
  = (Ok true, set_yaml_dict self (VDict [("a", VList [VInt 1; VInt 7])]))
  /\ update self "a" (VInt 7) None (VInt 9) = (Ok false, self).
Proof.
  cbv zeta.
  destruct (update_by_curr_value
              (Build "f.yml" "yaml" "." ".orig" false
                 (VDict [("a", VList [VInt 1; VInt 2])]))
              "a" [VInt 1; VInt 2] (VInt 7) None (VInt 2))
    as (H1 & _ & _); try reflexivity.
  destruct (update_by_curr_value
              (Build "f.yml" "yaml" "." ".orig" false
                 (VDict [("a", VList [VInt 1; VInt 2])]))
              "a" [VInt 1; VInt 2] (VInt 7) None (VInt 9))
    as (_ & _ & H3); try reflexivity.
  split.
  - apply (H1 1%nat (VInt 2)); reflexivity.
  - apply H3. reflexivity.
Defined.

Lemma upsert_then_resolve_witness :
  add_entry (VDict [("a", VList [VInt 1])]) "a[1]" (VStr "x") "."
  = (Ok (VList [VInt 1; VStr "x"]), VDict [("a", VList [VInt 1; VStr "x"])])
  /\ get_entry (VDict [("a", VList [VInt 1; VStr "x"])]) "a[1]" "."
     = Ok (VStr "x").
Proof.
  split; [reflexivity|].
  apply (upsert_then_resolve (VDict [("a", VList [VInt 1])]) "a[1]" (VStr "x")
           "." (VList [VInt 1; VStr "x"])
           (VDict [("a", VList [VInt 1; VStr "x"])]));
    reflexivity.
Defined.

Lemma root_stays_container_witness :
  let self := Build "f.yml" "yaml" "." ".orig" false
                (VDict [("a", VList [VInt 1])]) in
  is_container (yaml_dict (snd (append self "a" (VInt 2)))) = true
  /\ put self "" (VList [VInt 3]) = (Ok true, set_yaml_dict self (VList [VInt 3]))
  /\ put self "" (VInt 3) = (Ok false, self).
Proof.
  cbv zeta. destruct root_stays_container as (H1 & H2 & H3).
  split; [|split].
  - apply (H1 (Build "f.yml" "yaml" "." ".orig" false
                 (VDict [("a", VList [VInt 1])]))
              "a" (VInt 2) VNone VNone None 0).
    reflexivity.
  - apply H2; reflexivity.
  - apply H3; reflexivity.
Defined.

Lemma put_loose_equality_noop_witness :
  let self := Build "f.yml" "yaml" "." ".orig" false
                (VDict [("on", VInt 0)]) in
  py_eq (VInt 0) (VBool false) = true
  /\ put self "on" (VBool false) = (Ok false, self).
Proof.
  cbv zeta. split; [reflexivity|].
  destruct put_loose_equality_noop as [H _].
  apply (H (Build "f.yml" "yaml" "." ".orig" false (VDict [("on", VInt 0)]))
           "on" (VInt 0) (VBool false)); reflexivity.
Defined.

(* ================================================================== *)
(** * [put] twice, on documents with floats                            *)
(* ================================================================== *)

Section WithFloats.
Import Floating.

(** ** Mappings and sequences *)


(** ** Upsert followed by lookup *)


















(** [nan] equals no value. *)
Lemma py_eq_nan (v : value) : py_eq (FFloat Nan) v = false.
Proof. cbn [py_eq]. now destruct (as_float v). Qed.




End WithFloats.

(* ================================================================== *)
(** * Further properties                                               *)
(* ================================================================== *)

(** ** The durable writer on the rest of the disk *)

Section WriterFrame.
Import Disk Engine.
Variable yaml_dump json_dump : value -> list string.
Variable is_dir : string -> bool.

Lemma exec_frame (o : op) (p : string) (fs fs' : gmap string string) :
  p ∉ writes_to o -> exec o fs = Some fs' -> fs' !! p = fs !! p.
Proof.
  intros Hp. destruct o; cbn [exec writes_to] in *;
    try (intros H; now inversion H).
  - destruct (fs !! path); intros H; now inversion H.
  - destruct (src =? dst)%string; [discriminate|].
    destruct (fs !! src); [|discriminate]. intros H. inversion H; subst.
    apply lookup_insert_ne. intros ->. apply Hp. now left.
  - intros H. inversion H; subst.
    apply lookup_insert_ne. intros ->. apply Hp. now left.
  - destruct (fs !! path); [|discriminate]. intros H. inversion H; subst.
    apply lookup_insert_ne. intros ->. apply Hp. now left.
  - destruct (fs !! src); [|discriminate]. intros H. inversion H; subst.
    rewrite lookup_insert_ne, lookup_delete_ne; [reflexivity| |];
      intros ->; apply Hp; [left | right; left].
Qed.

Ltac notin :=
  repeat (apply not_elem_of_cons; split; [assumption|]);
  apply not_elem_of_nil.

Lemma state_after_frame (p : string) (ops : list op) :
  Forall (fun o => p ∉ writes_to o) ops ->
  forall (k : nat) (fs : gmap string string),
    state_after k ops fs !! p = fs !! p.
Proof.
  induction 1 as [|o ops Ho _ IH]; intros k fs; [now destruct k|].
  destruct k as [|k]; [reflexivity|]. cbn [state_after].
  destruct (exec o fs) as [fs'|] eqn:E; [|reflexivity].
  rewrite IH. now apply (exec_frame o).
Qed.

Lemma _write_confined (f p : string) (chunks : list string) :
  p <> f -> p <> (f ++ ".yedit")%string ->
  Forall (fun o => p ∉ writes_to o) (_write f chunks).
Proof.
  intros Hf Htmp. unfold _write. repeat apply Forall_cons_2;
    cbn [writes_to]; try notin.
  apply Forall_app. split.
  - apply Forall_forall. intros o Ho. apply list_elem_of_fmap in Ho.
    destruct Ho as (c & -> & _). cbn [writes_to]. notin.
  - repeat apply Forall_cons_2; cbn [writes_to]; try notin.
    apply Forall_nil_2.
Qed.

Lemma write_confined (self : Yedit.t) (fs : gmap string string)
  (p : string) :
  p <> Yedit.filename self ->
  p <> (Yedit.filename self ++ ".yedit")%string ->
  p <> (Yedit.filename self ++ Yedit.backup_ext self)%string ->
  Forall (fun o => p ∉ writes_to o) (write yaml_dump json_dump self fs).
Proof.
  intros Hf Htmp Hbak. unfold write.
  destruct (Yedit.filename self =? "")%string; [constructor|].
  apply Forall_app. split.
  - destruct (Yedit.backup self && file_exists self fs); [|constructor].
    repeat constructor. cbn [writes_to]. notin.
  - repeat case_match; auto using _write_confined.
Qed.

Lemma exec_on_frame (o : op) (p : string) (fs fs' : gmap string string) :
  p ∉ writes_on is_dir o -> exec_on is_dir o fs = Some fs' ->
  fs' !! p = fs !! p.
Proof.
  intros Hp. destruct o; cbn [exec_on writes_on] in *;
    try (apply exec_frame; exact Hp).
  - destruct (is_dir path); [intros H; now inversion H|].
    now apply exec_frame.
  - cbv zeta. destruct (is_dir (copy_dst is_dir src dst)); [discriminate|].
    now apply exec_frame.
  - destruct (is_dir path); [discriminate | now apply exec_frame].
  - destruct (is_dir dst); [discriminate | now apply exec_frame].
Qed.

Lemma state_after_on_frame (p : string) (ops : list op) :
  Forall (fun o => p ∉ writes_on is_dir o) ops ->
  forall (k : nat) (fs : gmap string string),
    state_after_on is_dir k ops fs !! p = fs !! p.
Proof.
  induction 1 as [|o ops Ho _ IH]; intros k fs; [now destruct k|].
  destruct k as [|k]; [reflexivity|]. cbn [state_after_on].
  destruct (exec_on is_dir o fs) as [fs'|] eqn:E; [|reflexivity].
  rewrite IH. now apply (exec_on_frame o).
Qed.

(** Where no path of the calls is a directory, the disk with
    directories is the disk of files. *)
Lemma state_after_on_plain (ops : list op) :
  Forall (fun o => forall fs, exec_on is_dir o fs = exec o fs) ops ->
  forall (k : nat) (fs : gmap string string),
    state_after_on is_dir k ops fs = state_after k ops fs.
Proof.
  induction 1 as [|o ops Ho _ IH]; intros k fs; [now destruct k|].
  destruct k as [|k]; [reflexivity|]. cbn [state_after_on state_after].
  rewrite Ho. destruct (exec o fs); [apply IH | reflexivity].
Qed.

Lemma _write_confined_on (f p : string) (chunks : list string) :
  p <> f -> p <> (f ++ ".yedit")%string ->
  Forall (fun o => p ∉ writes_on is_dir o) (_write f chunks).
Proof.
  intros Hf Htmp. unfold _write. repeat apply Forall_cons_2;
    cbn [writes_on writes_to]; try notin.
  apply Forall_app. split.
  - apply Forall_forall. intros o Ho. apply list_elem_of_fmap in Ho.
    destruct Ho as (c & -> & _). cbn [writes_on writes_to]. notin.
  - repeat apply Forall_cons_2; cbn [writes_on writes_to]; try notin.
    apply Forall_nil_2.
Qed.

(** X1. [write] leaves every file alone but the target, the temporary
    file next to it and the backup copy, which [shutil.copy] puts at the
    backup path, or inside it under the name of the target where the
    backup path is a directory: at every instant of a run, on a target
    that is no directory, any other path shows what it showed before. *)
Theorem write_touches_three_paths (self : Yedit.t) (fs : gmap string string)
  (p : string) (k : nat) :
  is_dir (Yedit.filename self) = false ->
  p <> Yedit.filename self ->
  p <> (Yedit.filename self ++ ".yedit")%string ->
  p <> copy_dst is_dir (Yedit.filename self)
         (Yedit.filename self ++ Yedit.backup_ext self)%string ->
  state_after_on is_dir k (write yaml_dump json_dump self fs) fs !! p
  = fs !! p.
Proof.
  intros _ Hf Htmp Hbak. apply state_after_on_frame. unfold write.
  destruct (Yedit.filename self =? "")%string; [constructor|].
  apply Forall_app. split.
  - destruct (Yedit.backup self && file_exists self fs); [|constructor].
    repeat constructor. cbn [writes_on]. notin.
  - repeat case_match; auto using _write_confined_on.
Qed.

(** [write] on a disk without the target: [os.stat] fails, the first
    call of all, and the disk stays as it is. *)
Lemma write_on_missing_target (self : Yedit.t) (fs : gmap string string)
  (k : nat) :
  fs !! Yedit.filename self = None ->
  state_after k (write yaml_dump json_dump self fs) fs = fs.
Proof.
  intros Hf. unfold write, file_exists. rewrite Hf, andb_false_r.
  destruct (Yedit.filename self =? "")%string; [apply state_after_nil|].
  cbn [app]. unfold _write.
  repeat case_match; try apply state_after_nil;
    destruct k; cbn [app state_after exec]; now rewrite ?Hf.
Qed.

(** The disk after the chunks, the rename and the last calls of
    [_write], from a disk that holds the temporary file. *)
Lemma write_out_run (f : string) (chunks : list string) :
  forall (k : nat) (sofar : string) (fs : gmap string string),
    fs !! (f ++ ".yedit")%string = Some sofar ->
    (4 + length chunks <= k)%nat ->
    state_after k
      (map (WriteOut (f ++ ".yedit")) chunks
       ++ [Fsync (f ++ ".yedit"); Funlock (f ++ ".yedit");
           Rename (f ++ ".yedit") f; FsyncDir])%list fs
    = <[f := (sofar ++ join chunks)%string]> (base.delete (f ++ ".yedit")%string fs).
Proof.
  induction chunks as [|c chunks IH]; intros k sofar fs Htmp Hk.
  - cbn [map app length join fold_right] in *.
    rewrite string_app_empty.
    do 4 (destruct k as [|k]; [lia|]).
    cbn [state_after exec]. rewrite Htmp. cbn [state_after exec].
    apply state_after_nil.
  - cbn [map app length] in *. destruct k as [|k]; [lia|].
    cbn [state_after exec]. rewrite Htmp.
    rewrite (IH k (sofar ++ c)%string) by (rewrite ?lookup_insert_eq; (reflexivity || lia)).
    rewrite delete_insert_eq, string_app_assoc. reflexivity.
Qed.

(** A run of [_write] to its end replaces the content of the target and
    leaves no temporary file. *)
Lemma _write_run (f old : string) (chunks : list string) (k : nat)
  (fs : gmap string string) :
  fs !! f = Some old ->
  (length (_write f chunks) <= k)%nat ->
  state_after k (_write f chunks) fs
  = <[f := join chunks]> (base.delete (f ++ ".yedit")%string fs).
Proof.
  intros Hf Hk. unfold _write in *. cbn [app length] in *.
  rewrite length_app, length_map in Hk. cbn [length] in Hk.
  do 3 (destruct k as [|k]; [lia|]).
  cbn [state_after exec]. rewrite Hf. cbn [state_after exec].
  rewrite (write_out_run f chunks k "")
    by (rewrite ?lookup_insert_eq; (reflexivity || lia)).
  rewrite delete_insert_eq. reflexivity.
Qed.

(** A run of [write] to its end with [backup] set, on a disk of files. *)
Lemma write_backup_run (self : Yedit.t) (old : string)
  (fs : gmap string string) :
  fs !! Yedit.filename self = Some old ->
  Yedit.filename self <> "" ->
  Yedit.backup self = true ->
  Yedit.backup_ext self <> "" ->
  Yedit.backup_ext self <> ".yedit" ->
  Yedit.content_type self = "yaml" \/ Yedit.content_type self = "json" ->
  let ops := write yaml_dump json_dump self fs in
  let final := state_after (length ops) ops fs in
  final !! Yedit.filename self = Some (serialized yaml_dump json_dump self)
  /\ final !! (Yedit.filename self ++ Yedit.backup_ext self)%string = Some old
  /\ final !! (Yedit.filename self ++ ".yedit")%string = None.
Proof.
  intros Hf Hname Hbackup Hext Hyedit Htype.
  set (f := Yedit.filename self) in *.
  assert (Hbak : (f ++ Yedit.backup_ext self)%string <> f)
    by now apply string_app_ne.
  assert (Hbt : (f ++ Yedit.backup_ext self)%string <> (f ++ ".yedit")%string).
  { intros Heq. apply Hyedit. now apply (inj (String.append f)). }
  pose proof (tmp_ne_target f) as Htmp.
  unfold write, serialized, file_exists. fold f.
  apply String.eqb_neq in Hname. rewrite Hname, Hbackup, Hf. cbn [andb app].
  assert (Hsame : (f =? f ++ Yedit.backup_ext self)%string = false).
  { apply String.eqb_neq. congruence. }
  assert (Hbody : forall chunks,
    let ops := Copy f (f ++ Yedit.backup_ext self) :: _write f chunks in
    let final := state_after (length ops) ops fs in
    final !! f = Some (join chunks)
    /\ final !! (f ++ Yedit.backup_ext self)%string = Some old
    /\ final !! (f ++ ".yedit")%string = None).
  { intros chunks. cbv zeta. cbn [length state_after exec].
    rewrite Hsame, Hf.
    rewrite (_write_run f old) by (rewrite ?lookup_insert_ne; auto).
    rewrite lookup_insert_eq.
    rewrite lookup_insert_ne, lookup_delete_ne, lookup_insert_eq by congruence.
    rewrite lookup_insert_ne, lookup_delete_eq by congruence.
    auto. }
  destruct Htype as [-> | ->].
  - change ("yaml" =? "yaml")%string with true. cbv iota. apply Hbody.
  - change ("json" =? "yaml")%string with false.
    change ("json" =? "json")%string with true. cbv iota. apply Hbody.
Qed.

(** The calls of [_write] on a target and a temporary path that are no
    directories. *)
Lemma _write_plain (f : string) (chunks : list string) :
  is_dir f = false ->
  is_dir (f ++ ".yedit")%string = false ->
  Forall (fun o => forall fs, exec_on is_dir o fs = exec o fs)
         (_write f chunks).
Proof.
  intros Hf Htmp. unfold _write. repeat apply Forall_cons_2;
    try (intros fs; cbn [exec_on]; now rewrite ?Hf, ?Htmp).
  apply Forall_app. split.
  - apply Forall_forall. intros o Ho. apply list_elem_of_fmap in Ho.
    destruct Ho as (c & -> & _). reflexivity.
  - repeat apply Forall_cons_2;
      try (intros fs; cbn [exec_on]; now rewrite ?Hf, ?Htmp).
    apply Forall_nil_2.
Qed.

(** X2. A run of [write] to its end with [backup] set, on an existing
    target and with a [backup_ext] other than the empty string and
    [.yedit], where neither the target nor the temporary path nor the
    backup path is a directory: the target holds the serialized
    document, the backup path holds the old content, and the temporary
    file is gone. *)
Theorem write_with_backup_completes (self : Yedit.t) (old : string)
  (fs : gmap string string) :
  fs !! Yedit.filename self = Some old ->
  Yedit.filename self <> "" ->
  Yedit.backup self = true ->
  Yedit.backup_ext self <> "" ->
  Yedit.backup_ext self <> ".yedit" ->
  Yedit.content_type self = "yaml" \/ Yedit.content_type self = "json" ->
  is_dir (Yedit.filename self) = false ->
  is_dir (Yedit.filename self ++ ".yedit")%string = false ->
  is_dir (Yedit.filename self ++ Yedit.backup_ext self)%string = false ->
  let ops := write yaml_dump json_dump self fs in
  let final := state_after_on is_dir (length ops) ops fs in
  final !! Yedit.filename self = Some (serialized yaml_dump json_dump self)
  /\ final !! (Yedit.filename self ++ Yedit.backup_ext self)%string = Some old
  /\ final !! (Yedit.filename self ++ ".yedit")%string = None.
Proof.
  intros Hf Hname Hbackup Hext Hyedit Htype Hdf Hdtmp Hdbak. cbv zeta.
  rewrite state_after_on_plain.
  { now apply (write_backup_run self old fs). }
  unfold write. destruct (Yedit.filename self =? "")%string; [constructor|].
  apply Forall_app. split.
  - destruct (Yedit.backup self && file_exists self fs); [|constructor].
    repeat constructor. intros fs0. cbn [exec_on]. unfold copy_dst.
    rewrite Hdbak. cbv zeta. now rewrite Hdbak.
  - repeat case_match; auto using _write_plain.
Qed.

(** X3. With [backup] set and an empty [backup_ext], [write] on an
    existing target changes nothing: the backup copy is a copy of the
    file onto itself, which fails before the temporary file is opened. *)
Theorem write_with_empty_backup_ext (self : Yedit.t) (old : string)
  (fs : gmap string string) (k : nat) :
  fs !! Yedit.filename self = Some old ->
  Yedit.backup self = true ->
  Yedit.backup_ext self = "" ->
  state_after k (write yaml_dump json_dump self fs) fs = fs.
Proof.
  intros Hf Hbackup Hext. unfold write, file_exists.
  rewrite Hf, Hbackup, Hext, string_app_empty. cbn [andb app].
  destruct (Yedit.filename self =? "")%string; [apply state_after_nil|].
  destruct k; [reflexivity|]. cbn [state_after exec].
  now rewrite string_eqb_refl.
Qed.

(** X4. With [backup] set and [backup_ext] equal to [.yedit], the backup
    path is the path of the temporary file: a run of [write] to its end
    installs the serialized document and leaves no backup. *)
Theorem write_with_yedit_backup_ext (self : Yedit.t) (old : string)
  (fs : gmap string string) :
  fs !! Yedit.filename self = Some old ->
  Yedit.filename self <> "" ->
  Yedit.backup self = true ->
  Yedit.backup_ext self = ".yedit" ->
  Yedit.content_type self = "yaml" \/ Yedit.content_type self = "json" ->
  let ops := write yaml_dump json_dump self fs in
  let final := state_after (length ops) ops fs in
  final !! Yedit.filename self = Some (serialized yaml_dump json_dump self)
  /\ final !! (Yedit.filename self ++ Yedit.backup_ext self)%string = None.
Proof.
  intros Hf Hname Hbackup Hext Htype.
  set (f := Yedit.filename self) in *.
  pose proof (tmp_ne_target f) as Htmp.
  unfold write, serialized, file_exists. fold f.
  apply String.eqb_neq in Hname. rewrite Hname, Hbackup, Hf, Hext.
  cbn [andb app].
  assert (Hsame : (f =? f ++ ".yedit")%string = false).
  { apply String.eqb_neq. congruence. }
  assert (Hbody : forall chunks,
    let ops := Copy f (f ++ ".yedit") :: _write f chunks in
    let final := state_after (length ops) ops fs in
    final !! f = Some (join chunks)
    /\ final !! (f ++ ".yedit")%string = None).
  { intros chunks. cbv zeta. cbn [length state_after exec].
    rewrite Hsame, Hf.
    rewrite (_write_run f old) by (rewrite ?lookup_insert_ne; auto).
    rewrite lookup_insert_eq.
    rewrite lookup_insert_ne, lookup_delete_eq by congruence.
    auto. }
  destruct Htype as [-> | ->].
  - change ("yaml" =? "yaml")%string with true. cbv iota. apply Hbody.
  - change ("json" =? "yaml")%string with false.
    change ("json" =? "json")%string with true. cbv iota. apply Hbody.
Qed.

End WriterFrame.

(** ** [append] and [insert] *)

Section Appending.
Import Engine.

(** The head of [append] and [insert] on a path that resolves to
    something. *)
Lemma entry_or_new_list_found (self : Yedit.t) (path : string)
  (entry : value) :
  get_entry (yaml_dict self) path (separator self) = Ok entry ->
  is_none entry = false ->
  entry_or_new_list self path = (Ok entry, self).
Proof.
  intros Hget Hn. unfold entry_or_new_list.
  rewrite entry_or_none_get_entry, Hget. now destruct entry.
Qed.

(** The document after an in-place mutation of the sequence or mapping
    at a path resolves that path to the mutated object. *)
Lemma mutate_entry (self : Yedit.t) (path : string) (entry new : value) :
  get_entry (yaml_dict self) path (separator self) = Ok entry ->
  is_container entry = true ->
  is_container new = true ->
  let self' :=
    set_yaml_dict self
      (set_entry (yaml_dict self) path (separator self) new) in
  get_entry (yaml_dict self') path (separator self') = Ok new.
Proof.
  intros Hget Hc Hnew. cbn [yaml_dict separator set_yaml_dict].
  apply (get_entry_set_entry _ _ _ entry); auto.
  - now destruct entry.
  - now apply (get_entry_container _ _ _ _ Hget).
Qed.

(** [append] on a path that resolves to a sequence. *)
Lemma append_to_sequence (self : Yedit.t) (path : string) (val : value)
  (l : list value) :
  get_entry (yaml_dict self) path (separator self) = Ok (VList l) ->
  let self' :=
    set_yaml_dict self
      (set_entry (yaml_dict self) path (separator self)
         (VList (l ++ [val]))) in
  append self path val = (Ok true, self')
  /\ get_entry (yaml_dict self') path (separator self')
     = Ok (VList (l ++ [val])).
Proof.
  intros Hget. split.
  - unfold append. now rewrite (entry_or_new_list_found _ _ _ Hget).
  - now apply (mutate_entry self path (VList l)).
Qed.

(** X5. [append] on a path that resolves to a sequence adds the value at
    its end and reports changed=true; on a path that resolves to anything
    else than a sequence or [None] it reports changed=false and leaves
    the document as it is. *)
Theorem append_on_entry (self : Yedit.t) (path : string) (val : value) :
  (forall l : list value,
      get_entry (yaml_dict self) path (separator self) = Ok (VList l) ->
      let self' :=
        set_yaml_dict self
          (set_entry (yaml_dict self) path (separator self)
             (VList (l ++ [val]))) in
      append self path val = (Ok true, self')
      /\ get_entry (yaml_dict self') path (separator self')
         = Ok (VList (l ++ [val])))
  /\ (forall entry : value,
         get_entry (yaml_dict self) path (separator self) = Ok entry ->
         is_none entry = false ->
         is_list entry = false ->
         append self path val = (Ok false, self)).
Proof.
  split.
  - intros l Hget. now apply append_to_sequence.
  - intros entry Hget Hn Hl. unfold append.
    rewrite (entry_or_new_list_found _ _ _ Hget Hn). now destruct entry.
Qed.

(** X6. [append] on a path that resolves to nothing, and at which [put]
    can create an empty sequence, creates the sequence of the one value:
    it reports changed=true and the path resolves to [[value]]. *)
Theorem append_creates_sequence (self self1 : Yedit.t) (path : string)
  (val : value) :
  get_entry (yaml_dict self) path (separator self) = Ok VNone ->
  put self path (VList []) = (Ok true, self1) ->
  exists self2,
    append self path val = (Ok true, self2)
    /\ get_entry (yaml_dict self2) path (separator self2) = Ok (VList [val]).
Proof.
  intros Hget Hput.
  destruct (put_changed _ _ _ _ Hput) as (r & tmp' & Hadd & Hr & -> & _).
  pose proof (add_entry_get _ _ _ _ _ _ Hadd Hr) as Hnew.
  set (self1 := set_yaml_dict self (if (path =? "")%string then r else tmp'))
    in *.
  assert (Hnew' : get_entry (yaml_dict self1) path (separator self1)
                  = Ok (VList [])) by exact Hnew.
  eexists. split.
  - unfold append, entry_or_new_list.
    rewrite entry_or_none_get_entry, Hget, Hput, Hnew'. reflexivity.
  - now apply (mutate_entry self1 path (VList [])).
Qed.

(** Where [list.insert] puts the new element. *)
Lemma list_insert_at_spec (l : list value) (i : Z) (v : value) :
  let n := Z.of_nat (length l) in
  let j := Z.to_nat (if i <? 0 then Z.max 0 (n + i) else Z.min i n) in
  (j <= length l)%nat
  /\ list_insert_at l i v !! j = Some v
  /\ take j (list_insert_at l i v) = take j l
  /\ drop (S j) (list_insert_at l i v) = drop j l
  /\ length (list_insert_at l i v) = S (length l).
Proof.
  cbv zeta. unfold list_insert_at.
  set (j := Z.to_nat (if i <? 0 then Z.max 0 (Z.of_nat (length l) + i)
                      else Z.min i (Z.of_nat (length l)))).
  assert (Hj : (j <= length l)%nat).
  { subst j. destruct (i <? 0) eqn:E; zlia. }
  assert (Hlen : length (take j l) = j) by (rewrite length_take; lia).
  repeat split.
  - exact Hj.
  - rewrite lookup_app_r by lia. now rewrite Hlen, Nat.sub_diag.
  - rewrite take_app_le by lia. rewrite take_take. f_equal. lia.
  - rewrite drop_app_ge by lia. rewrite Hlen.
    replace (S j - j)%nat with 1%nat by lia. reflexivity.
  - rewrite length_app. cbn [length]. rewrite length_drop. lia.
Qed.

(** X7. [insert] on a path that resolves to a sequence never fails on
    its index: it reports changed=true and the path resolves to the
    sequence with one element more, the value standing at the index
    clamped to the sequence (counted from the end when negative) and the
    other elements in their order. An index at or beyond the end makes
    [insert] what [append] is, and the index 0, or one at or below minus
    the length, puts the value first. *)
Theorem insert_places_value (self : Yedit.t) (path : string)
  (l : list value) (val : value) (index : Z) :
  get_entry (yaml_dict self) path (separator self) = Ok (VList l) ->
  let n := Z.of_nat (length l) in
  let j := Z.to_nat (if index <? 0 then Z.max 0 (n + index)
                     else Z.min index n) in
  exists l',
    let self' :=
      set_yaml_dict self
        (set_entry (yaml_dict self) path (separator self) (VList l')) in
    insert self path val index = (Ok true, self')
    /\ get_entry (yaml_dict self') path (separator self') = Ok (VList l')
    /\ length l' = S (length l)
    /\ l' !! j = Some val
    /\ take j l' = take j l
    /\ drop (S j) l' = drop j l
    /\ (n <= index -> insert self path val index = append self path val)
    /\ (index = 0 \/ index <= - n -> l' = val :: l).
Proof.
  intros Hget. cbv zeta. exists (list_insert_at l index val).
  destruct (list_insert_at_spec l index val) as (Hj & Hat & Htake & Hdrop & Hlen).
  assert (Hins : insert self path val index
                 = (Ok true,
                    set_yaml_dict self
                      (set_entry (yaml_dict self) path (separator self)
                         (VList (list_insert_at l index val))))).
  { unfold insert. now rewrite (entry_or_new_list_found _ _ _ Hget). }
  split; [exact Hins|].
  split; [now apply (mutate_entry self path (VList l))|].
  repeat split; try assumption.
  - intros Hge. rewrite Hins. unfold append.
    rewrite (entry_or_new_list_found _ _ _ Hget) by reflexivity.
    unfold list_insert_at.
    destruct (index <? 0) eqn:E; [zlia|].
    rewrite Z.min_r by lia. rewrite Nat2Z.id.
    now rewrite take_ge, drop_ge by lia.
  - intros Hfront. unfold list_insert_at.
    assert (Hz : Z.to_nat (if index <? 0
                           then Z.max 0 (Z.of_nat (length l) + index)
                           else Z.min index (Z.of_nat (length l))) = 0%nat).
    { destruct (index <? 0) eqn:E; zlia. }
    rewrite Hz. reflexivity.
Qed.

End Appending.

(** ** Well-formed documents *)

Lemma wf_list_lookup (l : list value) (j : nat) (v : value) :
  wf (VList l) = true -> l !! j = Some v -> wf v = true.
Proof.
  cbn [wf]. intros Hwf Hl. rewrite forallb_forall in Hwf.
  apply Hwf. apply list_elem_of_In. now apply list_elem_of_lookup_2 in Hl.
Qed.

Lemma wf_dict_get (d : list (string * value)) (k : string) (v : value) :
  wf (VDict d) = true -> dict_get k d = Some v -> wf v = true.
Proof.
  rewrite wf_dict. intros Hwf Hk. apply andb_prop in Hwf as [_ Hwf].
  induction d as [|[k' v'] d IH]; [discriminate|].
  cbn [forallb snd] in Hwf. apply andb_prop in Hwf as [Hv Hd].
  cbn [dict_get] in Hk. destruct (k =? k')%string.
  - inversion Hk; now subst.
  - now apply IH.
Qed.

(** What a path resolves to in a well-formed document is well-formed. *)
Lemma get_loop_wf (steps : list step) :
  forall data v, wf data = true -> get_loop steps data = Ok v -> wf v = true.
Proof.
  induction steps as [|st rest IH]; intros data v Hwf Hget.
  { cbn in Hget. inversion Hget; now subst. }
  destruct st as [i|k]; destruct data; cbn [get_loop] in Hget;
    try (inversion Hget; subst; reflexivity).
  - destruct (i <=? Z.of_nat (length l) - 1);
      [|inversion Hget; subst; reflexivity].
    unfold list_getitem in Hget.
    destruct (norm_index i (length l)) as [j|]; [|discriminate].
    destruct (l !! j) as [child|] eqn:El; [|discriminate].
    apply (IH child); [|exact Hget]. now apply (wf_list_lookup l j).
  - destruct (dict_get k d) as [child|] eqn:Ek; cbn [default from_option id] in Hget.
    + apply (IH child); [|exact Hget]. now apply (wf_dict_get d k).
    + rewrite get_loop_none in Hget. inversion Hget; subst; reflexivity.
Qed.

Lemma get_entry_wf (data : value) (key sep : string) (v : value) :
  wf data = true -> get_entry data key sep = Ok v -> wf v = true.
Proof.
  intros Hwf. unfold get_entry.
  destruct (key =? "")%string; [now apply get_loop_wf|].
  destruct (negb (nonempty key && valid_key key sep) && is_container data);
    [|now apply get_loop_wf].
  intros H. inversion H; subst. reflexivity.
Qed.

Lemma dict_get_del_eq (k : string) (d : list (string * value)) :
  nodup_keys (map fst d) = true -> dict_get k (dict_del k d) = None.
Proof.
  induction d as [|[k' v] d IH]; [reflexivity|].
  cbn [map fst nodup_keys dict_del dict_get]. intros H.
  apply andb_prop in H as [Hk Hd].
  destruct (k =? k')%string eqn:E.
  - apply String.eqb_eq in E. subst k'. apply dict_get_absent.
    now destruct (existsb (String.eqb k) (map fst d)).
  - cbn [dict_get]. rewrite E. now apply IH.
Qed.

Lemma dict_get_del_ne (k k' : string) (d : list (string * value)) :
  k' <> k -> dict_get k' (dict_del k d) = dict_get k' d.
Proof.
  intros Hne. induction d as [|[k0 v] d IH]; [reflexivity|].
  cbn [dict_del dict_get]. destruct (k =? k0)%string eqn:E.
  - apply String.eqb_eq in E. subst k0.
    apply String.eqb_neq in Hne. now rewrite Hne.
  - cbn [dict_get]. destruct (k' =? k0)%string; [reflexivity | exact IH].
Qed.

Lemma dict_get_set_ne (k k' : string) (v : value) (d : list (string * value)) :
  k' <> k -> dict_get k' (dict_set k v d) = dict_get k' d.
Proof.
  intros Hne. apply String.eqb_neq in Hne.
  induction d as [|[k0 v0] d IH]; cbn [dict_set dict_get].
  - now rewrite Hne.
  - destruct (k =? k0)%string eqn:E; cbn [dict_get].
    + apply String.eqb_eq in E. subst k0. now rewrite Hne.
    + destruct (k' =? k0)%string; [reflexivity | exact IH].
Qed.

(** ** [pop] *)

Section Popping.
Import Engine.

(** X8. [pop] of a key on a path that resolves to a mapping of a
    well-formed document: a key of the mapping is removed, the other
    keys keep their values, changed=true is reported, and the same [pop]
    again reports changed=false; a key that the mapping does not have is
    a changed=false no-op. *)
Theorem pop_removes_key (self : Yedit.t) (path k : string)
  (d : list (string * value)) :
  wf (yaml_dict self) = true ->
  get_entry (yaml_dict self) path (separator self) = Ok (VDict d) ->
  (dict_has k d = true ->
   let self' :=
     set_yaml_dict self
       (set_entry (yaml_dict self) path (separator self)
          (VDict (dict_del k d))) in
   pop self path (VStr k) = (Ok true, self')
   /\ get_entry (yaml_dict self') path (separator self')
      = Ok (VDict (dict_del k d))
   /\ dict_get k (dict_del k d) = None
   /\ (forall k', k' <> k -> dict_get k' (dict_del k d) = dict_get k' d)
   /\ pop self' path (VStr k) = (Ok false, self'))
  /\ (dict_has k d = false -> pop self path (VStr k) = (Ok false, self)).
Proof.
  intros Hwf Hget.
  assert (Hpop : forall s dd,
             get_entry (yaml_dict s) path (separator s) = Ok (VDict dd) ->
             pop s path (VStr k)
             = if dict_has k dd
               then (Ok true,
                     set_yaml_dict s
                       (set_entry (yaml_dict s) path (separator s)
                          (VDict (dict_del k dd))))
               else (Ok false, s)).
  { intros s dd Hs. unfold pop. rewrite entry_or_none_get_entry, Hs.
    cbn [dict_contains dict_pop]. now destruct (dict_has k dd). }
  split.
  - intros Hk. cbv zeta.
    pose proof (mutate_entry self path (VDict d) (VDict (dict_del k d))
                  Hget eq_refl eq_refl) as Hget'.
    cbv zeta in Hget'.
    assert (Hnd : nodup_keys (map fst d) = true).
    { pose proof (get_entry_wf _ _ _ _ Hwf Hget) as Hd.
      rewrite wf_dict in Hd. now apply andb_prop in Hd. }
    pose proof (dict_get_del_eq k d Hnd) as Hgone.
    rewrite (Hpop self d Hget), Hk.
    repeat split; auto using dict_get_del_ne.
    rewrite (Hpop _ _ Hget'). unfold dict_has. now rewrite Hgone.
  - intros Hk. now rewrite (Hpop self d Hget), Hk.
Qed.



End Popping.

(** ** [update] *)

Section Updating.
Import Engine.

Lemma set_entry_same (data : value) (key sep : string) (tgt : value) :
  get_entry data key sep = Ok tgt ->
  is_none tgt = false ->
  set_entry data key sep tgt = data.
Proof.
  unfold get_entry, set_entry. intros Hget Hn.
  destruct (key =? "")%string; [now apply set_loop_same|].
  destruct (negb (nonempty key && valid_key key sep) && is_container data);
    [reflexivity | now apply set_loop_same].
Qed.

Lemma set_yaml_dict_same (self : Yedit.t) :
  set_yaml_dict self (yaml_dict self) = self.
Proof. now destruct self. Qed.

(** What [d.update(new)] leaves under a key. *)
Lemma dict_get_update (k : string) (new : list (string * value)) :
  nodup_keys (map fst new) = true ->
  forall d,
    dict_get k (dict_update d new)
    = match dict_get k new with
      | Some v => Some v
      | None => dict_get k d
      end.
Proof.
  unfold dict_update.
  induction new as [|[k0 v0] new IH]; intros Hnd d; [reflexivity|].
  cbn [map fst nodup_keys] in Hnd. apply andb_prop in Hnd as [Hk0 Hnd].
  cbn [fold_left fst snd dict_get]. rewrite (IH Hnd).
  destruct (k =? k0)%string eqn:E.
  - apply String.eqb_eq in E. subst k0.
    rewrite dict_get_absent by (now destruct (existsb _ _)).
    apply dict_get_set_eq.
  - destruct (dict_get k new); [reflexivity|].
    apply dict_get_set_ne. now apply String.eqb_neq.
Qed.

(** X10. [update] on a path that resolves to a mapping, with a mapping
    as value, always reports changed=true; afterwards the path resolves
    to a mapping that has the value's entry under each key of the value
    and the old entry under every other key. The report does not depend
    on a difference: with the empty mapping as value the document is the
    same and changed=true all the same. *)
Theorem update_merges_mapping (self : Yedit.t) (path : string)
  (d new : list (string * value)) (index : option Z) (curr_value : value) :
  get_entry (yaml_dict self) path (separator self) = Ok (VDict d) ->
  nodup_keys (map fst new) = true ->
  let self' :=
    set_yaml_dict self
      (set_entry (yaml_dict self) path (separator self)
         (VDict (dict_update d new))) in
  update self path (VDict new) index curr_value = (Ok true, self')
  /\ get_entry (yaml_dict self') path (separator self')
     = Ok (VDict (dict_update d new))
  /\ (forall k,
         dict_get k (dict_update d new)
         = match dict_get k new with
           | Some v => Some v
           | None => dict_get k d
           end)
  /\ update self path (VDict []) index curr_value = (Ok true, self).
Proof.
  intros Hget Hnd. cbv zeta. split; [|split; [|split]].
  - unfold update. now rewrite entry_or_none_get_entry, Hget.
  - now apply (mutate_entry self path (VDict d)).
  - intros k. now apply dict_get_update.
  - unfold update. rewrite entry_or_none_get_entry, Hget.
    cbn [dict_update fold_left].
    now rewrite (set_entry_same _ _ _ _ Hget), set_yaml_dict_same.
Qed.

Lemma list_index_app_new (l : list value) (x : value) :
  wf x = true -> exists j, list_index (l ++ [x]) x = Some j.
Proof.
  intros Hwf. apply (list_index_found _ _ x (length l)).
  - now rewrite list_lookup_middle.
  - now apply py_eq_refl.
Qed.

(** X11. [update] on a path that resolves to a sequence, without
    [curr_value] and without [index], adds the value as to a set: a
    value that no element equals is appended (changed=true), a value
    that some element equals changes nothing (changed=false), and after
    either, the same [update] again changes nothing. *)
Theorem update_adds_missing_value (self : Yedit.t) (path : string)
  (l : list value) (val curr_value : value) :
  get_entry (yaml_dict self) path (separator self) = Ok (VList l) ->
  truthy curr_value = false ->
  wf val = true ->
  (list_index l val = None ->
   let self' :=
     set_yaml_dict self
       (set_entry (yaml_dict self) path (separator self)
          (VList (l ++ [val]))) in
   update self path val None curr_value = (Ok true, self')
   /\ get_entry (yaml_dict self') path (separator self')
      = Ok (VList (l ++ [val]))
   /\ update self' path val None curr_value = (Ok false, self'))
  /\ (forall i, list_index l val = Some i ->
      update self path val None curr_value = (Ok false, self)).
Proof.
  intros Hget Hcurr Hwf.
  assert (Hupd : forall s ll,
             get_entry (yaml_dict s) path (separator s) = Ok (VList ll) ->
             update s path val None curr_value
             = match list_index ll val with
               | None =>
                   (Ok true,
                    set_yaml_dict s
                      (set_entry (yaml_dict s) path (separator s)
                         (VList (ll ++ [val]))))
               | Some _ => (Ok false, s)
               end).
  { intros s ll Hs. unfold update.
    rewrite entry_or_none_get_entry, Hs.
    unfold update_list, update_at, update_seek. rewrite Hcurr.
    now destruct (list_index ll val). }
  split.
  - intros Hnone. cbv zeta.
    pose proof (mutate_entry self path (VList l) (VList (l ++ [val]))
                  Hget eq_refl eq_refl) as Hget'.
    cbv zeta in Hget'.
    rewrite (Hupd self l Hget), Hnone. split; [reflexivity|].
    split; [exact Hget'|].
    rewrite (Hupd _ _ Hget').
    now destruct (list_index_app_new l val Hwf) as [j ->].
  - intros i Hi. now rewrite (Hupd self l Hget), Hi.
Qed.

(** X12. [update] on a path that resolves to a sequence, with an
    [index] and without [curr_value]: an index within the sequence
    (counted from the end when negative) has its element replaced where
    it differs from the value (changed=true); an index outside the
    sequence raises [IndexError] and leaves the document as it is. *)
Theorem update_at_index (self : Yedit.t) (path : string)
  (l : list value) (val curr_value : value) (index : Z) :
  get_entry (yaml_dict self) path (separator self) = Ok (VList l) ->
  truthy curr_value = false ->
  (forall (j : nat) (old : value),
      norm_index index (length l) = Some j ->
      l !! j = Some old ->
      py_eq old val = false ->
      let self' :=
        set_yaml_dict self
          (set_entry (yaml_dict self) path (separator self)
             (VList (<[j := val]> l))) in
      update self path val (Some index) curr_value = (Ok true, self')
      /\ get_entry (yaml_dict self') path (separator self')
         = Ok (VList (<[j := val]> l)))
  /\ (norm_index index (length l) = None ->
      update self path val (Some index) curr_value
      = (Raise IndexError, self))
  /\ (norm_index index (length l) = None
      <-> index < - Z.of_nat (length l) \/ Z.of_nat (length l) <= index).
Proof.
  intros Hget Hcurr. split; [|split].
  - intros j old Hj Hl Hne. cbv zeta. split.
    + unfold update. rewrite entry_or_none_get_entry, Hget.
      unfold update_list, update_at, list_getitem, list_setitem.
      now rewrite Hcurr, Hj, Hl, Hne.
    + now apply (mutate_entry self path (VList l)).
  - intros Hj. unfold update. rewrite entry_or_none_get_entry, Hget.
    unfold update_list, update_at, list_getitem.
    now rewrite Hcurr, Hj.
  - unfold norm_index.
    destruct (0 <=? index) eqn:E0;
      [destruct (index <? Z.of_nat (length l)) eqn:E1
      |destruct (0 <=? Z.of_nat (length l) + index) eqn:E2];
      split; intros H; try discriminate; try reflexivity; zlia.
Qed.

End Updating.

(** ** [exists] and [create] *)

Section Existence.
Import Engine.



Lemma exists_items_all_present (entry items : list (string * value)) :
  (forall kv, In kv items -> dict_has (fst kv) entry = true) ->
  exists_items entry items
  = Ok (forallb (fun kv => match dict_get (fst kv) entry with
                           | Some w => py_eq w (snd kv)
                           | None => false
                           end) items).
Proof.
  induction items as [|[k v] items IH]; intros Hall; [reflexivity|].
  cbn [exists_items forallb fst snd].
  pose proof (Hall (k, v) (or_introl eq_refl)) as Hk.
  unfold dict_has in Hk. cbn [fst] in Hk.
  destruct (dict_get k entry) as [w|]; [|discriminate].
  destruct (py_eq w v); cbn [negb andb]; [|reflexivity].
  apply IH. intros kv Hin. apply Hall. now right.
Qed.

Lemma exists_items_absent (entry pre post : list (string * value))
  (k : string) (v : value) :
  dict_get k entry = None ->
  (forall kv, In kv pre ->
              exists w, dict_get (fst kv) entry = Some w
                        /\ py_eq w (snd kv) = true) ->
  exists_items entry (pre ++ (k, v) :: post) = Raise KeyError.
Proof.
  intros Hk. induction pre as [|[k0 v0] pre IH]; intros Hpre.
  - cbn [app exists_items]. now rewrite Hk.
  - cbn [app exists_items].
    destruct (Hpre (k0, v0) (or_introl eq_refl)) as (w & Hw & Heq).
    cbn [fst snd] in Hw, Heq. rewrite Hw, Heq.
    cbn [negb]. apply IH. intros kv Hin. apply Hpre. now right.
Qed.

(** X14. [exists] on a path that resolves to a mapping, with a mapping
    as value: where the mapping at the path has every key of the value,
    the answer is whether every item of the value equals the entry under
    its key; where the first item of the value that is not matched has a
    key that the mapping lacks, [KeyError] is raised instead of the
    answer [False]. *)
Theorem exists_in_mapping (self : Yedit.t) (path : string)
  (d items : list (string * value)) :
  get_entry (yaml_dict self) path (separator self) = Ok (VDict d) ->
  ((forall kv, In kv items -> dict_has (fst kv) d = true) ->
   exists_ self path (VDict items)
   = Ok (forallb (fun kv => match dict_get (fst kv) d with
                            | Some w => py_eq w (snd kv)
                            | None => false
                            end) items))
  /\ (forall pre post k v,
         items = (pre ++ (k, v) :: post)%list ->
         dict_has k d = false ->
         (forall kv, In kv pre ->
                     exists w, dict_get (fst kv) d = Some w
                               /\ py_eq w (snd kv) = true) ->
         exists_ self path (VDict items) = Raise KeyError).
Proof.
  intros Hget.
  assert (Hex : exists_ self path (VDict items) = exists_items d items).
  { unfold exists_. now rewrite entry_or_none_get_entry, Hget. }
  rewrite Hex. split.
  - apply exists_items_all_present.
  - intros pre post k v -> Hk Hpre. apply exists_items_absent; [|exact Hpre].
    unfold dict_has in Hk. now destruct (dict_get k d).
Qed.

(** X15. On an object with a file name ([os.path.exists] refuses the
    [None] of an object built without one), [create] does nothing where
    the file exists. Where it does not,
    [create] reports changed=true as soon as [add_entry] returns an
    object, without a look at the value that the path holds: for a path
    other than the root the path resolves to the value afterwards, and
    for the root path the document is left as it was although a change
    is reported. *)
Theorem create_without_comparison (self : Yedit.t)
  (fs : gmap string string) (path : string) (val : value) :
  filename self <> "" ->
  (Disk.file_exists self fs = true ->
   create self fs path val = (Ok false, self))
  /\ (forall self',
         create self fs path val = (Ok true, self') ->
         path <> "" ->
         Disk.file_exists self fs = false
         /\ get_entry (yaml_dict self') path (separator self') = Ok val)
  /\ (Disk.file_exists self fs = false ->
      is_none val = false ->
      create self fs "" val = (Ok true, self)).
Proof.
  intros _. split; [|split].
  - intros Hex. unfold create. now rewrite Hex.
  - intros self' Hcreate Hpath. unfold create in Hcreate.
    destruct (Disk.file_exists self fs); [discriminate|].
    split; [reflexivity|]. cbn [negb] in Hcreate. cbv zeta in Hcreate.
    destruct (add_entry (yaml_dict self) path val (separator self))
      as [[r|e] tmp'] eqn:Hadd; [|discriminate].
    assert (Hr : is_none r = false) by (destruct r; [discriminate|..]; reflexivity).
    assert (Hself : self' = set_yaml_dict self tmp')
      by (destruct r; inversion Hcreate; reflexivity).
    subst self'. cbn [yaml_dict separator set_yaml_dict].
    pose proof (add_entry_get _ _ _ _ _ _ Hadd Hr) as Hget.
    apply String.eqb_neq in Hpath. now rewrite Hpath in Hget.
  - intros Hex Hval. unfold create. rewrite Hex. cbn [negb].
    change (add_entry (yaml_dict self) "" val (separator self))
      with (Ok val, yaml_dict self).
    destruct val; try discriminate; cbv beta iota zeta;
      now rewrite set_yaml_dict_same.
Qed.

End Existence.

(** ** [delete] *)

Section Deleting.
Import Engine.

(** X16. [delete] at the root path, without [index] and [value],
    empties the document, mapping or sequence, and reports changed=true
    whether or not there was something to remove. With an [index] on a
    mapping it raises [YeditException]; with a [value] on a mapping it
    removes that key, or raises [KeyError] where the mapping lacks it;
    with an [index] outside a sequence it raises [IndexError]; and with
    a [value] that no element of a sequence equals it reports
    changed=false. *)
Theorem delete_at_root (self : Yedit.t) :
  (forall d, yaml_dict self = VDict d ->
      delete self "" None VNone = (Ok true, set_yaml_dict self (VDict []))
      /\ (forall i,
             delete self "" (Some i) VNone = (Raise YeditException, self))
      /\ (forall k,
             delete self "" None (VStr k)
             = if dict_has k d
               then (Ok true, set_yaml_dict self (VDict (dict_del k d)))
               else (Raise KeyError, self)))
  /\ (forall l, yaml_dict self = VList l ->
         delete self "" None VNone = (Ok true, set_yaml_dict self (VList []))
         /\ (forall i,
                norm_index i (length l) = None ->
                delete self "" (Some i) VNone = (Raise IndexError, self))
         /\ (forall i j,
                norm_index i (length l) = Some j ->
                delete self "" (Some i) VNone
                = (Ok true, set_yaml_dict self (VList (base.delete j l))))
         /\ (forall x,
                is_none x = false ->
                list_index l x = None ->
                delete self "" None x = (Ok false, self))).
Proof.
  assert (Hget : get_entry (yaml_dict self) "" (separator self)
                 = Ok (yaml_dict self)) by reflexivity.
  split.
  - intros d Hd. unfold delete. rewrite entry_or_none_get_entry, Hget, Hd.
    cbn [remove_entry String.eqb is_none negb dict_pop].
    repeat split; intros;
      try (destruct (dict_has _ d));
      cbn; now rewrite <- ?Hd, ?set_yaml_dict_same.
  - intros l Hl. unfold delete. rewrite entry_or_none_get_entry, Hget, Hl.
    cbn [remove_entry String.eqb is_none negb].
    split; [reflexivity|]. split; [|split].
    + intros i Hi. unfold list_delitem. rewrite Hi.
      now rewrite <- Hl, set_yaml_dict_same.
    + intros i j Hj. unfold list_delitem. now rewrite Hj.
    + intros x Hx Hnone. rewrite Hx, Hnone. cbn [negb].
      now rewrite <- Hl, set_yaml_dict_same.
Qed.

(** Removal of the key [k] from the mapping that the steps before it
    resolve to. *)
Lemma remove_loop_key (k : string) (d : list (string * value))
  (pre : list step) :
  dict_has k d = true ->
  forall data,
    get_loop pre data = Ok (VDict d) ->
    remove_loop (pre ++ [SKey k]) data
    = (Ok (Some true), set_loop pre (VDict (dict_del k d)) data).
Proof.
  intros Hk. induction pre as [|st pre IH]; intros data Hget.
  - cbn in Hget. inversion Hget; subst.
    cbn [app remove_loop remove_last set_loop]. now rewrite Hk.
  - cbn [app]. rewrite remove_loop_round by apply app_cons_nonempty.
    pose proof (get_loop_stuck _ _ _ _ Hget eq_refl) as Hshape.
    destruct st as [j|k']; destruct data; try contradiction;
      cbn [remove_round set_loop].
    + apply get_loop_step_idx in Hget as (n & child & -> & -> & -> & Hget);
        [|reflexivity].
      now rewrite (IH _ Hget).
    + apply get_loop_step_key in Hget as (child & -> & Hget); [|reflexivity].
      now rewrite (IH _ Hget).
Qed.

(** A path of which the last step resolves to something ends on a
    mapping that has the key, or on a sequence that has the index. *)
Lemma get_loop_last_key (pre : list step) (k : string) (data tgt : value) :
  get_loop (pre ++ [SKey k]) data = Ok tgt ->
  is_none tgt = false ->
  exists d, get_loop pre data = Ok (VDict d) /\ dict_get k d = Some tgt.
Proof.
  rewrite get_loop_app. destruct (get_loop pre data) as [v|e]; [|discriminate].
  intros Hget Hn.
  pose proof (get_loop_stuck _ _ _ _ Hget Hn) as Hshape.
  destruct v; try contradiction.
  apply get_loop_step_key in Hget as (child & Hk & Hget); [|exact Hn].
  cbn in Hget. inversion Hget; subst. now exists d.
Qed.

(** X17. [delete] of a path that ends with a mapping key and resolves to
    something, in a well-formed document: the key is removed and
    changed=true is reported, whatever [index] and [value] are;
    afterwards the path resolves to nothing and the same [delete]
    reports changed=false on the unchanged document. *)
Theorem delete_then_lookup (self : Yedit.t) (path : string)
  (pre : list step) (k : string) (tgt : value) (index : option Z)
  (val : value) :
  wf (yaml_dict self) = true ->
  parse_key path (separator self) = (pre ++ [SKey k])%list ->
  get_entry (yaml_dict self) path (separator self) = Ok tgt ->
  is_none tgt = false ->
  exists self',
    delete self path index val = (Ok true, self')
    /\ get_entry (yaml_dict self') path (separator self') = Ok VNone
    /\ delete self' path index val = (Ok false, self').
Proof.
  intros Hwf Hparse Hget Hn.
  assert (Hne : (path =? "")%string = false).
  { destruct (path =? "")%string eqn:E; [|reflexivity].
    apply String.eqb_eq in E. subst path. rewrite parse_key_empty in Hparse.
    symmetry in Hparse. now apply app_cons_nonempty in Hparse. }
  assert (Hloop : get_loop (pre ++ [SKey k]) (yaml_dict self) = Ok tgt
                  /\ negb (nonempty path && valid_key path (separator self))
                     && is_container (yaml_dict self) = false).
  { unfold get_entry in Hget. rewrite Hne, Hparse in Hget.
    destruct (negb (nonempty path && valid_key path (separator self))
              && is_container (yaml_dict self)).
    - inversion Hget; subst. discriminate.
    - now split. }
  destruct Hloop as [Hloop Hguard].
  destruct (get_loop_last_key _ _ _ _ Hloop Hn) as (d & Hpre & Hk).
  assert (Hhas : dict_has k d = true) by (unfold dict_has; now rewrite Hk).
  assert (Hroot : is_container (yaml_dict self) = true).
  { destruct (is_container (yaml_dict self)) eqn:E; [reflexivity|].
    rewrite get_loop_scalar in Hpre by exact E.
    destruct pre; inversion Hpre as [Heq]. rewrite Heq in E. discriminate. }
  assert (Hnd : nodup_keys (map fst d) = true).
  { pose proof (get_loop_wf _ _ _ Hwf Hpre) as Hd.
    rewrite wf_dict in Hd. now apply andb_prop in Hd. }
  set (data' := set_loop pre (VDict (dict_del k d)) (yaml_dict self)).
  assert (Hrem : remove_entry (yaml_dict self) path index val (separator self)
                 = (Ok (Some true), data')).
  { unfold remove_entry. rewrite Hne, Hguard, Hparse.
    rewrite (remove_loop_key k d pre Hhas _ Hpre).
    now destruct (yaml_dict self). }
  assert (Hget' : get_entry data' path (separator self) = Ok VNone).
  { unfold get_entry. rewrite Hne, Hparse.
    assert (Hc : is_container data' = true)
      by now apply set_loop_container.
    rewrite Hc, Hroot in *. rewrite Hguard.
    rewrite get_loop_app. unfold data'.
    rewrite (get_loop_set_loop _ _ _ _ Hpre eq_refl).
    cbn [get_loop]. now rewrite (dict_get_del_eq k d Hnd). }
  exists (set_yaml_dict self data'). split; [|split].
  - unfold delete. rewrite entry_or_none_get_entry, Hget, Hrem.
    now destruct tgt.
  - exact Hget'.
  - unfold delete. cbn [yaml_dict separator set_yaml_dict].
    now rewrite entry_or_none_get_entry, Hget'.
Qed.

End Deleting.

(** ** What an upsert leaves alone *)

Section Frame.
Import Engine.

Lemma nonneg_steps_head (i : Z) (steps : list step) :
  nonneg_steps (SIdx i :: steps) -> 0 <= i.
Proof. intros H. apply H. now left. Qed.

(** Nothing is found from a value that is false as a condition. *)
Lemma get_loop_falsy (q : list step) (v : value) :
  truthy v = false -> q <> [] -> nonneg_steps q -> get_loop q v = Ok VNone.
Proof.
  intros Hv Hq Hnn. destruct q as [|[j|k] q]; [congruence| |];
    destruct v; try reflexivity; cbn [get_loop].
  - destruct l; [|discriminate]. cbn [length].
    apply nonneg_steps_head in Hnn.
    destruct (j <=? Z.of_nat 0 - 1) eqn:E; [zlia | reflexivity].
  - destruct d; [|discriminate]. cbn [dict_get default from_option id].
    apply get_loop_none.
Qed.

Lemma part_ways_nonempty (p q : list step) : part_ways p q -> q <> [].
Proof. now destruct 1. Qed.

Lemma list_getitem_insert_ne (l : list value) (i : nat) (j : Z) (v : value) :
  0 <= j -> j <> Z.of_nat i ->
  list_getitem (<[i := v]> l) j = list_getitem l j.
Proof.
  intros Hj Hne. unfold list_getitem. rewrite length_insert.
  destruct (norm_index j (length l)) as [n|] eqn:E; [|reflexivity].
  rewrite list_lookup_insert_ne; [reflexivity|].
  unfold norm_index in E. destruct (0 <=? j) eqn:E0; [|zlia].
  destruct (j <? Z.of_nat (length l)); inversion E. lia.
Qed.

(** The last step of an upsert and a path that parts ways with it. *)
Lemma add_last_frame (st : step) (item data r data' : value)
  (q : list step) :
  nonneg_steps [st] -> nonneg_steps q ->
  part_ways [st] q ->
  add_last st item data = (Ok r, data') ->
  get_loop q data' = get_loop q data.
Proof.
  intros Hp Hq Hways Hadd.
  inversion Hways as [k k' p' q' Hk | i j p' q' Hij | k j p' q'
                     | i k p' q' | st' p' q' Hrec]; subst.
  - destruct data; try discriminate. cbn [add_last] in Hadd.
    inversion Hadd; subst. cbn [get_loop].
    now rewrite dict_get_set_ne by congruence.
  - apply nonneg_steps_head in Hp, Hq.
    destruct data; try discriminate. cbn [add_last] in Hadd.
    destruct (i <=? Z.of_nat (length l)) eqn:E1; [|discriminate].
    destruct (i >? Z.of_nat (length l) - 1) eqn:E2.
    + inversion Hadd; subst. cbn [get_loop]. rewrite length_app.
      cbn [length].
      destruct (j <=? Z.of_nat (length l) - 1) eqn:E3.
      * destruct (j <=? Z.of_nat (length l + 1) - 1) eqn:E4; [|zlia].
        unfold list_getitem. rewrite length_app. cbn [length].
        rewrite !norm_index_nonneg by zlia.
        rewrite lookup_app_l by zlia. reflexivity.
      * destruct (j <=? Z.of_nat (length l + 1) - 1) eqn:E4;
          [zlia | reflexivity].
    + unfold list_setitem in Hadd.
      rewrite norm_index_nonneg in Hadd by zlia.
      inversion Hadd; subst. cbn [get_loop]. rewrite length_insert.
      destruct (j <=? Z.of_nat (length l) - 1); [|reflexivity].
      rewrite list_getitem_insert_ne; [reflexivity | lia | lia].
  - destruct data; try discriminate. cbn [add_last] in Hadd.
    inversion Hadd; subst. reflexivity.
  - destruct data; try discriminate. cbn [add_last] in Hadd.
    repeat case_match; try discriminate; inversion Hadd; subst; reflexivity.
  - inversion Hrec.
Qed.

(** An upsert leaves alone what is off its path, at the level of the
    tree. *)
Lemma add_loop_frame (item : value) (p : list step) :
  forall (q : list step) (data r data' : value),
    nonneg_steps p -> nonneg_steps q ->
    part_ways p q ->
    add_loop p item data = (Ok r, data') ->
    get_loop q data' = get_loop q data.
Proof.
  induction p as [|st p IH]; intros q data r data' Hp Hq Hways Hadd;
    [inversion Hways|].
  destruct p as [|st2 p].
  { now apply (add_last_frame st item data r data' q). }
  rewrite add_loop_round in Hadd by discriminate.
  specialize (IH) as IHp.
  inversion Hways as [k k' p' q' Hk | i j p' q' Hij | k j p' q'
                     | i k p' q' | st' p' q' Hrec]; subst.
  - (* another key *)
    destruct data; try (cbn in Hadd; repeat case_match; discriminate).
    cbn [add_round] in Hadd. cbn [get_loop].
    destruct (dict_get k d) as [child|]; [destruct (truthy child)|];
      cbv zeta in Hadd;
      destruct (add_loop (st2 :: p) item _) as [r' child'];
      inversion Hadd; subst;
      now rewrite !dict_get_set_ne by congruence.
  - (* another index *)
    apply nonneg_steps_head in Hq as Hj.
    pose proof (nonneg_steps_head _ _ Hp) as Hi.
    destruct data; try discriminate. cbn [add_round] in Hadd.
    destruct (i <=? Z.of_nat (length l) - 1) eqn:E1; [|discriminate].
    rewrite norm_index_nonneg in Hadd by zlia.
    destruct (l !! Z.to_nat i) as [child|]; [|discriminate].
    destruct (add_loop (st2 :: p) item child) as [r' child'].
    inversion Hadd; subst. cbn [get_loop]. rewrite length_insert.
    destruct (j <=? Z.of_nat (length l) - 1); [|reflexivity].
    rewrite list_getitem_insert_ne; [reflexivity | lia | lia].
  - (* a key against an index *)
    destruct data; try (cbn in Hadd; repeat case_match; discriminate).
    cbn [add_round] in Hadd.
    destruct (dict_get k d) as [child|]; [destruct (truthy child)|];
      cbv zeta in Hadd;
      destruct (add_loop (st2 :: p) item _) as [r' child'];
      inversion Hadd; subst; reflexivity.
  - (* an index against a key *)
    destruct data; try discriminate. cbn [add_round] in Hadd.
    repeat case_match; try discriminate.
    inversion Hadd; subst. reflexivity.
  - (* the same step, then apart *)
    pose proof (part_ways_nonempty _ _ Hrec) as Hq'.
    pose proof (nonneg_steps_cons _ _ Hp) as Hp'.
    pose proof (nonneg_steps_cons _ _ Hq) as Hqq.
    destruct st as [i|k].
    + pose proof (nonneg_steps_head _ _ Hp) as Hi.
      destruct data; try discriminate. cbn [add_round] in Hadd.
      destruct (i <=? Z.of_nat (length l) - 1) eqn:E1; [|discriminate].
      rewrite norm_index_nonneg in Hadd by zlia.
      destruct (l !! Z.to_nat i) as [child|] eqn:El; [|discriminate].
      destruct (add_loop (st2 :: p) item child) as [r' child'] eqn:Ea.
      assert (Hr : r' = Ok r) by (now inversion Hadd). subst r'.
    pose proof (IH q' _ _ _ Hp' Hqq Hrec Ea) as Hframe.
      inversion Hadd; subst. cbn [get_loop]. rewrite length_insert, E1.
      unfold list_getitem. rewrite length_insert.
      rewrite norm_index_nonneg by zlia.
      rewrite list_lookup_insert_eq by (apply lookup_lt_Some in El; lia).
      now rewrite El.
    + destruct data; try (cbn in Hadd; repeat case_match; discriminate).
      cbn [add_round] in Hadd. cbn [get_loop].
      destruct (dict_get k d) as [child|] eqn:Ek;
        [destruct (truthy child) eqn:Et|]; cbv zeta in Hadd.
      * destruct (add_loop (st2 :: p) item child) as [r' child'] eqn:Ea.
        assert (Hr : r' = Ok r) by (now inversion Hadd). subst r'.
    pose proof (IH q' _ _ _ Hp' Hqq Hrec Ea) as Hframe.
        inversion Hadd; subst. now rewrite dict_get_set_eq.
      * destruct (add_loop (st2 :: p) item (VDict [])) as [r' child'] eqn:Ea.
        assert (Hr : r' = Ok r) by (now inversion Hadd). subst r'.
    pose proof (IH q' _ _ _ Hp' Hqq Hrec Ea) as Hframe.
        inversion Hadd; subst. rewrite dict_get_set_eq.
        cbn [default from_option id]. rewrite Hframe.
        now rewrite !get_loop_falsy.
      * destruct (add_loop (st2 :: p) item (VDict [])) as [r' child'] eqn:Ea.
        assert (Hr : r' = Ok r) by (now inversion Hadd). subst r'.
    pose proof (IH q' _ _ _ Hp' Hqq Hrec Ea) as Hframe.
        inversion Hadd; subst. rewrite dict_get_set_eq.
        cbn [default from_option id]. rewrite Hframe.
        now rewrite get_loop_none, get_loop_falsy.
Qed.

(** X18. In a document that is a tree (no object of it is reached by
    two paths, as an alias of YAML would make it), a [put] that changes
    the document leaves alone what is off its path: where neither the
    path of the [put] nor another path has a negative index step, and
    the two part ways, the other path resolves afterwards to what it
    resolved to before. *)
Theorem put_leaves_other_paths (self self' : Yedit.t) (path other : string)
  (val : value) :
  put self path val = (Ok true, self') ->
  path <> "" ->
  nonneg_steps (parse_key path (separator self)) ->
  nonneg_steps (parse_key other (separator self)) ->
  part_ways (parse_key path (separator self))
            (parse_key other (separator self)) ->
  get_entry (yaml_dict self') other (separator self')
  = get_entry (yaml_dict self) other (separator self).
Proof.
  intros Hput Hpath Hp Hq Hways.
  apply put_changed in Hput as (r & tmp' & Hadd & Hr & -> & _).
  apply String.eqb_neq in Hpath. rewrite Hpath.
  cbn [yaml_dict separator set_yaml_dict].
  unfold add_entry in Hadd. rewrite Hpath in Hadd.
  destruct (negb (nonempty path && valid_key path (separator self))
            && is_container (yaml_dict self)).
  { inversion Hadd; subst. discriminate. }
  pose proof (add_loop_ok_container _ _ _ _ _ Hadd) as Hc.
  destruct (add_loop_get _ _ _ _ _ Hadd) as [_ Hc'].
  unfold get_entry. rewrite Hc, Hc'.
  rewrite (add_loop_frame val _ _ _ _ _ Hp Hq Hways Hadd).
  reflexivity.
Qed.

End Frame.

(** ** Missing mappings on the way of a [put] *)

Section Creating.
Import Engine.

Lemma dict_set_absent (k : string) (v : value) (d : list (string * value)) :
  dict_get k d = None -> dict_set k v d = (d ++ [(k, v)])%list.
Proof.
  induction d as [|[k' v'] d IH]; [reflexivity|].
  cbn [dict_get dict_set app]. destruct (k =? k')%string; [discriminate|].
  intros H. now rewrite IH.
Qed.

(** An upsert along keys from an empty mapping. *)
Lemma add_loop_nested (item : value) (k : string) (ks : list string) :
  snd (add_loop (map SKey (k :: ks)) item (VDict []))
  = nested (k :: ks) item
  /\ is_raise (fst (add_loop (map SKey (k :: ks)) item (VDict []))) = false.
Proof.
  revert k. induction ks as [|k2 ks IH]; intros k; [now split|].
  cbn [map]. rewrite add_loop_round by discriminate.
  cbn [add_round dict_get]. cbv zeta.
  destruct (IH k2) as [Hsnd Hok]. cbn [map] in Hsnd, Hok.
  destruct (add_loop (SKey k2 :: map SKey ks) item (VDict []))
    as [r child']. cbn [fst snd] in *. subst child'.
  cbn [dict_set]. rewrite string_eqb_refl. now split.
Qed.

(** The lookup and the upsert down keys that the root mapping does not
    begin. *)
Lemma upsert_on_fresh_keys (self : Yedit.t) (path : string)
  (d : list (string * value)) (k : string) (ks : list string)
  (val : value) :
  yaml_dict self = VDict d ->
  valid_key path (separator self) = true ->
  parse_key path (separator self) = map SKey (k :: ks) ->
  dict_get k d = None ->
  (path =? "")%string = false
  /\ get_entry (yaml_dict self) path (separator self) = Ok VNone
  /\ exists r,
       add_entry (yaml_dict self) path val (separator self)
       = (Ok r, VDict (d ++ [(k, nested ks val)]))
       /\ is_container r = true.
Proof.
  intros Hroot Hvalid Hparse Hk.
  assert (Hne : (path =? "")%string = false).
  { destruct (path =? "")%string eqn:E; [|reflexivity].
    apply String.eqb_eq in E. subst path. now rewrite parse_key_empty in Hparse. }
  assert (Hguard : nonempty path && valid_key path (separator self) = true).
  { unfold nonempty. now rewrite Hne, Hvalid. }
  split; [exact Hne|]. split.
  { unfold get_entry. rewrite Hne, Hguard, Hparse, Hroot. cbn [negb andb].
    cbn [map get_loop]. rewrite Hk. apply get_loop_none. }
  unfold add_entry. rewrite Hne, Hguard, Hparse, Hroot. cbn [negb andb].
  destruct ks as [|k2 ks].
  - cbn [map add_loop add_last nested fold_right].
    rewrite dict_set_absent by exact Hk. now eexists.
  - cbn [map]. rewrite add_loop_round by discriminate.
    cbn [add_round]. rewrite Hk. cbv zeta.
    destruct (add_loop_nested val k2 ks) as [Hsnd Hok]. cbn [map] in Hsnd, Hok.
    destruct (add_loop (SKey k2 :: map SKey ks) val (VDict []))
      as [r child'] eqn:Ea. cbn [fst snd] in *. subst child'.
    destruct r as [r|e]; [|discriminate].
    rewrite dict_set_twice, dict_set_absent by exact Hk.
    exists r. split; [reflexivity|].
    now apply (add_loop_result _ _ _ _ _ Ea).
Qed.

(** X19. [put] of a value other than [None] on a path of keys, of which
    the first is not a key of the root mapping, creates what is missing:
    it reports changed=true, and the root mapping has, after its old
    items in their order, the first key with mappings of one key each
    leading down the other keys to the value. *)
Theorem put_creates_nested_mappings (self : Yedit.t) (path : string)
  (d : list (string * value)) (k : string) (ks : list string)
  (val : value) :
  yaml_dict self = VDict d ->
  valid_key path (separator self) = true ->
  parse_key path (separator self) = map SKey (k :: ks) ->
  dict_get k d = None ->
  is_none val = false ->
  put self path val
  = (Ok true, set_yaml_dict self (VDict (d ++ [(k, nested ks val)]))).
Proof.
  intros Hroot Hvalid Hparse Hk Hval.
  destruct (upsert_on_fresh_keys self path d k ks val Hroot Hvalid Hparse Hk)
    as (Hne & Hget & r & Hadd & Hr).
  unfold put. rewrite entry_or_none_get_entry, Hget.
  assert (Heq : py_eq VNone val = false) by now destruct val.
  rewrite Heq, Hadd, Hne. now destruct r.
Qed.

End Creating.

(** ** The matcher accepts the words of the pattern *)

Section Matcher.
Import Re Grammar.

Lemma string_app_nil_inv (a b : string) :
  (a ++ b)%string = "" -> a = "" /\ b = "".
Proof.
  destruct a; [intros H; split; [reflexivity | exact H] | discriminate].
Qed.

Lemma nullable_complete (r : regex) (s : string) :
  matches r s -> s = "" -> nullable r = true.
Proof.
  induction 1 as [ | p c Hp | r1 r2 s _ IH | r1 r2 s _ IH
                 | r1 r2 s1 s2 _ IH1 _ IH2 | r | r s1 s2 _ _ _ _ ];
    intros Hs; cbn [nullable]; try reflexivity.
  - discriminate.
  - now rewrite IH.
  - rewrite IH by exact Hs. apply orb_true_r.
  - apply string_app_nil_inv in Hs as [-> ->]. now rewrite IH1, IH2.
Qed.

Lemma deriv_complete (r : regex) (s : string) :
  matches r s ->
  forall c t, s = String c t -> matches (deriv c r) t.
Proof.
  induction 1 as [ | p a Hp | r1 r2 s _ IH | r1 r2 s _ IH
                 | r1 r2 s1 s2 H1 IH1 H2 IH2 | r | r s1 s2 H1 IH1 H2 IH2 ];
    intros c t Hs; cbn [deriv].
  - discriminate.
  - inversion Hs; subst. rewrite Hp. constructor.
  - apply MAltL. now apply IH.
  - apply MAltR. now apply IH.
  - destruct s1 as [|a s1].
    + cbn in Hs. rewrite (nullable_complete _ _ H1 eq_refl).
      apply MAltR. now apply IH2.
    + change (String a (s1 ++ s2) = String c t)%string in Hs.
      inversion Hs; subst.
      assert (Hc : matches (Cat (deriv c r1) r2) (s1 ++ s2))
        by (apply MCat; [now apply IH1 | exact H2]).
      destruct (nullable r1); [now apply MAltL | exact Hc].
  - discriminate.
  - destruct s1 as [|a s1].
    + cbn in Hs. now apply IH2.
    + change (String a (s1 ++ s2) = String c t)%string in Hs.
      inversion Hs; subst. apply MCat; [now apply IH1 | exact H2].
Qed.

(** The matcher by derivatives accepts every word of the pattern. *)
Lemma fullmatch_complete (s : string) :
  forall r, matches r s -> fullmatch r s = true.
Proof.
  induction s as [|c s IH]; intros r H; cbn [fullmatch].
  - now apply (nullable_complete r "").
  - apply IH. now apply (deriv_complete r (String c s)).
Qed.

Lemma plus_matches (p : ascii -> bool) (k : string) :
  k <> "" -> string_forall p k = true -> matches (Plus (Chr p)) k.
Proof.
  destruct k as [|c k]; [congruence|]. intros _.
  cbn [string_forall]. intros H. apply andb_prop in H as [Hc Hk].
  change (String c k) with (String c "" ++ k)%string.
  apply MCat; [now constructor|].
  induction k as [|a k IH]; [constructor|].
  cbn [string_forall] in Hk. apply andb_prop in Hk as [Ha Hk].
  change (String a k) with (String a "" ++ k)%string.
  apply MStarMore; [now constructor | now apply IH].
Qed.

Lemma string_forall_weaken (p q : ascii -> bool) (s : string) :
  (forall c, p c = true -> q c = true) ->
  string_forall p s = true -> string_forall q s = true.
Proof.
  intros Hpq. induction s as [|c s IH]; [reflexivity|].
  cbn [string_forall]. intros H. apply andb_prop in H as [Hc Hs].
  now rewrite (Hpq c Hc), IH.
Qed.

Lemma plain_valid_key_char (c : ascii) :
  plain c = true -> valid_key_char c = true.
Proof.
  unfold plain, valid_key_char, one_of. cbn [existsb].
  intros H. apply orb_prop in H as [-> | H]; [reflexivity|].
  rewrite !orb_false_r in H. apply orb_prop in H as [H | H].
  - rewrite H. now rewrite !orb_true_r.
  - apply orb_prop in H as [H | H]; rewrite H; now rewrite !orb_true_r.
Qed.

Lemma plain_key_char (sep : string) (c : ascii) :
  plain c = true -> key_char sep c = true.
Proof.
  unfold plain, key_char. intros H.
  apply orb_prop in H as [-> | ->]; [reflexivity|]. apply orb_true_r.
Qed.

(** A segment of key characters, followed or not by one more
    character that is not a newline. *)
Lemma segment_matches (k tail : string) :
  k <> "" -> string_forall valid_key_char k = true ->
  matches (Opt (Chr dot)) tail ->
  matches (Cat (Alt re_index (Plus (Chr valid_key_char))) (Opt (Chr dot)))
          (k ++ tail).
Proof.
  intros Hk Hall Htail. apply MCat; [|exact Htail].
  apply MAltR. now apply plus_matches.
Qed.

Lemma plus_to_star (r : regex) (s : string) :
  matches (Cat r (Star r)) s -> matches (Star r) s.
Proof. intros H. inversion H; subst. now apply MStarMore. Qed.

Lemma dotted_valid (c : ascii) (keys : list string) :
  dot c = true ->
  keys <> [] ->
  (forall k, In k keys -> k <> "" /\ string_forall plain k = true) ->
  matches re_valid_key (dotted c keys).
Proof.
  intros Hc.
  set (X := Cat (Alt re_index (Plus (Chr valid_key_char))) (Opt (Chr dot))).
  change re_valid_key with (Cat X (Star X)).
  induction keys as [|k keys IH]; [congruence|].
  intros _ Hall.
  destruct (Hall k (or_introl eq_refl)) as [Hk Hplain].
  apply (string_forall_weaken _ _ _ plain_valid_key_char) in Hplain.
  destruct keys as [|k2 keys].
  - cbn [dotted].
    rewrite <- (string_app_empty k).
    apply MCat; [|constructor].
    rewrite <- (string_app_empty k).
    apply segment_matches; auto. apply MAltR. constructor.
  - change (dotted c (k :: k2 :: keys))
      with (k ++ String c (dotted c (k2 :: keys)))%string.
    replace (k ++ String c (dotted c (k2 :: keys)))%string
      with ((k ++ String c "") ++ dotted c (k2 :: keys))%string
      by (now rewrite string_app_assoc).
    assert (Hrest : matches (Cat X (Star X)) (dotted c (k2 :: keys))).
    { apply IH; [discriminate|]. intros k' Hin. apply Hall. now right. }
    apply MCat.
    + apply segment_matches; auto. apply MAltL. now constructor.
    + now apply plus_to_star.
Qed.

End Matcher.

(** ** Paths written with a separator *)

Section Dotted.
Import Re Grammar Engine.

Lemma findall_key_nil (fuel : nat) (sep : string) :
  findall_key fuel sep "" = [].
Proof. now destruct fuel. Qed.

Lemma key_char_not_bracket (sep : string) (c : ascii) :
  key_char sep c = true -> lit "[" c = false.
Proof.
  unfold lit. destruct (Ascii.eqb_spec "[" c) as [<-|]; [|reflexivity].
  unfold key_char, common_separators, com_sep.
  rewrite !filter_cons, filter_nil.
  repeat case_decide; vm_compute; congruence.
Qed.

Lemma span_segment (p : ascii -> bool) (k rest : string) :
  string_forall p k = true ->
  match rest with "" => True | String c _ => p c = false end ->
  span p (k ++ rest) = (k, rest).
Proof.
  intros Hk Hrest. induction k as [|a k IH].
  - change ("" ++ rest)%string with rest.
    destruct rest as [|c rest]; [reflexivity|]. cbn [span]. now rewrite Hrest.
  - cbn [string_forall] in Hk. apply andb_prop in Hk as [Ha Hk].
    change (String a k ++ rest)%string with (String a (k ++ rest)).
    cbn [span]. now rewrite Ha, (IH Hk).
Qed.

Lemma match_key_segment (sep k rest : string) :
  k <> "" ->
  string_forall (key_char sep) k = true ->
  match rest with "" => True | String c _ => key_char sep c = false end ->
  match_key sep (k ++ rest) = Some (SKey k, rest).
Proof.
  intros Hk Hall Hrest.
  pose proof (span_segment _ k rest Hall Hrest) as Hspan.
  destruct k as [|a k]; [congruence|].
  cbn [string_forall] in Hall. apply andb_prop in Hall as [Ha _].
  change (String a k ++ rest)%string with (String a (k ++ rest)) in *.
  unfold match_key. rewrite (key_char_not_bracket _ _ Ha), Ha.
  now rewrite Hspan.
Qed.

Lemma match_key_skip (sep : string) (c : ascii) (rest : string) :
  key_char sep c = false -> lit "[" c = false ->
  match_key sep (String c rest) = None.
Proof. intros Hk Hb. unfold match_key. now rewrite Hb, Hk. Qed.

Lemma parse_key_one_segment (sep k : string) :
  k <> "" ->
  string_forall (key_char sep) k = true ->
  parse_key k sep = [SKey k].
Proof.
  intros Hk Hall. unfold parse_key.
  pose proof (match_key_segment sep k "" Hk Hall I) as Hm.
  rewrite string_app_empty in Hm.
  destruct k as [|a k]; [congruence|]. cbn [String.length findall_key].
  now rewrite Hm, findall_key_nil.
Qed.

Lemma parse_key_segment_more (sep k : string) (c : ascii) (rest : string) :
  k <> "" ->
  string_forall (key_char sep) k = true ->
  key_char sep c = false -> lit "[" c = false ->
  parse_key (k ++ String c rest) sep = SKey k :: parse_key rest sep.
Proof.
  intros Hk Hall Hc Hb. unfold parse_key.
  pose proof (match_key_segment sep k (String c rest) Hk Hall Hc) as Hm.
  rewrite string_app_length.
  destruct k as [|a k]; [congruence|]. cbn [String.length plus findall_key].
  rewrite Hm. f_equal.
  rewrite (findall_key_fuel sep _ (S (String.length rest)) (String c rest))
    by (cbn [String.length]; lia).
  cbn [findall_key]. now rewrite (match_key_skip sep c rest Hc Hb).
Qed.

Lemma com_sep_char (c : ascii) :
  In c com_sep ->
  key_char (String c "") c = false /\ lit "[" c = false /\ dot c = true.
Proof.
  intros [<- | [<- | [<- | [<- | []]]]]; repeat split; reflexivity.
Qed.

Lemma dotted_parse (c : ascii) (keys : list string) :
  In c com_sep ->
  (forall k, In k keys -> k <> "" /\ string_forall plain k = true) ->
  parse_key (dotted c keys) (String c "") = map SKey keys.
Proof.
  intros Hc. destruct (com_sep_char c Hc) as (Hk & Hb & _).
  induction keys as [|k keys IH]; intros Hall; [reflexivity|].
  destruct (Hall k (or_introl eq_refl)) as [Hne Hplain].
  apply (string_forall_weaken _ (key_char (String c ""))) in Hplain;
    [|apply plain_key_char].
  destruct keys as [|k2 keys].
  - cbn [dotted map]. now apply parse_key_one_segment.
  - change (dotted c (k :: k2 :: keys))
      with (k ++ String c (dotted c (k2 :: keys)))%string.
    rewrite parse_key_segment_more by assumption.
    cbn [map]. f_equal. apply IH. intros k' Hin. apply Hall. now right.
Qed.

(** X20. A path of keys of the characters [[0-9a-zA-Z/_-]], written with
    one of the separators [.], [#], [|], [:] between them and read with
    that separator, is valid and has these keys for its steps; on an
    empty document, [put] of a value other than [None] at such a path
    builds the mappings down the keys to the value. *)
Theorem dotted_path_parses (c : ascii) (keys : list string) :
  In c com_sep ->
  keys <> [] ->
  (forall k, In k keys -> k <> "" /\ string_forall plain k = true) ->
  valid_key (dotted c keys) (String c "") = true
  /\ parse_key (dotted c keys) (String c "") = map SKey keys
  /\ (forall (self : Yedit.t) (val : value),
         yaml_dict self = VDict [] ->
         separator self = String c "" ->
         is_none val = false ->
         put self (dotted c keys) val
         = (Ok true, set_yaml_dict self (nested keys val))).
Proof.
  intros Hc Hne Hall. destruct (com_sep_char c Hc) as (_ & _ & Hdot).
  assert (Hvalid : valid_key (dotted c keys) (String c "") = true).
  { unfold valid_key, match_to_end.
    rewrite (fullmatch_complete _ _ (dotted_valid c keys Hdot Hne Hall)).
    reflexivity. }
  pose proof (dotted_parse c keys Hc Hall) as Hparse.
  split; [exact Hvalid|]. split; [exact Hparse|].
  intros self val Hroot Hsep Hval.
  destruct keys as [|k ks]; [congruence|].
  rewrite <- Hsep in Hvalid, Hparse.
  destruct (upsert_on_fresh_keys self _ [] k ks val Hroot Hvalid Hparse
              eq_refl) as (Hempty & Hget & r & Hadd & Hr).
  unfold put. rewrite entry_or_none_get_entry, Hget.
  assert (Heq : py_eq VNone val = false) by now destruct val.
  rewrite Heq, Hadd, Hempty. now destruct r.
Qed.

(** A key of percent signs has no tuple. *)
Lemma percent_parse (sep key : string) :
  string_forall (lit "%") key = true -> parse_key key sep = [].
Proof.
  unfold parse_key. induction key as [|c key IH]; [reflexivity|].
  cbn [string_forall]. intros H. apply andb_prop in H as [Hc Hkey].
  unfold lit in Hc. apply Ascii.eqb_eq in Hc. subst c.
  cbn [String.length findall_key].
  rewrite match_key_skip; [now apply IH| |reflexivity].
  unfold key_char, common_separators, com_sep.
  rewrite !filter_cons, filter_nil.
  repeat case_decide; reflexivity.
Qed.

(** X21. A non-empty key of percent signs passes [valid_key] and has no
    step at all: on a document rooted at a mapping or a sequence, lookup
    at it returns the whole document, and [put] of a value that differs
    from the document, like [delete], raises [IndexError] and leaves the
    document as it is. *)
Theorem percent_key_has_no_step (self : Yedit.t) (key : string) :
  key <> "" ->
  string_forall (lit "%") key = true ->
  is_container (yaml_dict self) = true ->
  valid_key key (separator self) = true
  /\ parse_key key (separator self) = []
  /\ get self key = Ok (yaml_dict self)
  /\ (forall val,
         py_eq (yaml_dict self) val = false ->
         put self key val = (Raise IndexError, self))
  /\ (forall index val, delete self key index val = (Raise IndexError, self)).
Proof.
  intros Hne Hall Hroot.
  assert (Hvalid : valid_key key (separator self) = true).
  { unfold valid_key, match_to_end. rewrite fullmatch_complete; [reflexivity|].
    unfold re_valid_key, Plus.
    rewrite <- (string_app_empty key). apply MCat; [|constructor].
    rewrite <- (string_app_empty key).
    apply segment_matches; auto.
    - apply (string_forall_weaken (lit "%")); [|exact Hall].
      intros c Hc. unfold lit in Hc. apply Ascii.eqb_eq in Hc. now subst c.
    - apply MAltR. constructor. }
  pose proof (percent_parse (separator self) key Hall) as Hparse.
  assert (Hkey : (key =? "")%string = false) by now apply String.eqb_neq.
  assert (Hguard : negb (nonempty key && valid_key key (separator self))
                   && is_container (yaml_dict self) = false).
  { unfold nonempty. now rewrite Hkey, Hvalid. }
  assert (Hget : get_entry (yaml_dict self) key (separator self)
                 = Ok (yaml_dict self)).
  { unfold get_entry. now rewrite Hkey, Hguard, Hparse. }
  split; [exact Hvalid|]. split; [exact Hparse|]. split; [|split].
  - unfold get. now rewrite entry_or_none_get_entry.
  - intros val Hval. unfold put. rewrite entry_or_none_get_entry, Hget, Hval.
    unfold add_entry. now rewrite Hkey, Hguard, Hparse.
  - intros index val. unfold delete.
    rewrite entry_or_none_get_entry, Hget.
    unfold remove_entry. rewrite Hkey, Hguard, Hparse.
    destruct (yaml_dict self) eqn:E; try discriminate;
      cbn [remove_loop]; rewrite <- E; now rewrite set_yaml_dict_same.
Qed.

End Dotted.

(** ** Values given as text *)

Section Coercion.
Import Engine Batch.
Variable yaml_load : string -> option value.

(** X22. [parse_value] raises nothing but [YeditException]. A value that
    is neither text nor a boolean is returned as it is, and so is the
    empty text unless the type asks for a boolean. Under a type that
    names [str] and not [bool], text is returned as it is, the loader
    never seeing it, and a boolean becomes the text [True] or [False];
    under a type that names [bool], text outside the twenty-two tokens
    raises [YeditException]. *)
Theorem parse_value_coercion (inc_value : value) (vtype : string) :
  (forall e, parse_value yaml_load inc_value vtype = Raise e ->
             e = YeditException)
  /\ (match inc_value with VStr _ | VBool _ => False | _ => True end ->
      parse_value yaml_load inc_value vtype = Ok inc_value)
  /\ (contains "bool" vtype = false ->
      parse_value yaml_load (VStr "") vtype = Ok (VStr ""))
  /\ (contains "str" vtype = true -> contains "bool" vtype = false ->
      (forall s, parse_value yaml_load (VStr s) vtype = Ok (VStr s))
      /\ (forall b, parse_value yaml_load (VBool b) vtype
                    = Ok (VStr (if b then "True" else "False"))))
  /\ (contains "bool" vtype = true ->
      forall s,
        in_list s true_bools = false -> in_list s false_bools = false ->
        parse_value yaml_load (VStr s) vtype = Raise YeditException).
Proof.
  split; [|split; [|split; [|split]]].
  - intros e. unfold parse_value.
    repeat case_match; intros Hraise; inversion Hraise; subst;
      try reflexivity; congruence.
  - intros Hkind. unfold parse_value. now destruct inc_value.
  - intros Hbool. unfold parse_value. now rewrite Hbool.
  - intros Hstr Hbool. split.
    + intros s. unfold parse_value. rewrite Hbool, Hstr. cbn [negb].
      now destruct (s =? "")%string.
    + intros b. unfold parse_value. rewrite Hstr.
      now destruct b.
  - intros Hbool s Ht Hf. unfold parse_value. now rewrite Hbool, Ht, Hf.
Qed.

End Coercion.

(** ** Batches of edits *)

Section Batches.
Import Engine Batch.
Variable yaml_load : string -> option value.
Variable json_loads : string -> option value.
Variable py_str : value -> string.

Local Abbreviation run_edit := (Batch.run_edit yaml_load json_loads py_str).
Local Abbreviation edits_loop := (Batch.edits_loop yaml_load json_loads py_str).
Local Abbreviation process_edits := (Batch.process_edits yaml_load json_loads py_str).

Lemma put_false_unchanged (self self' : Yedit.t) (path : string)
  (val : value) :
  put self path val = (Ok false, self') -> self' = self.
Proof.
  unfold put. repeat case_match; intros Hput; inversion Hput; reflexivity.
Qed.

Lemma update_false_unchanged (self self' : Yedit.t) (path : string)
  (val : value) (index : option Z) (curr_value : value) :
  update self path val index curr_value = (Ok false, self') -> self' = self.
Proof.
  unfold update. repeat case_match; intros Hup; inversion Hup; subst;
    try reflexivity; congruence.
Qed.

(** The head of [append] and [insert] hands out something else than a
    sequence only where it has left the document alone. *)
Lemma entry_or_new_list_other (self self' : Yedit.t) (path : string)
  (entry : value) :
  entry_or_new_list self path = (Ok entry, self') ->
  is_list entry = false ->
  self' = self.
Proof.
  unfold entry_or_new_list. rewrite entry_or_none_get_entry.
  destruct (get_entry (yaml_dict self) path (separator self)) as [e0|e0];
    [|discriminate].
  destruct e0; try (intros H; inversion H; reflexivity).
  destruct (put self path (VList [])) as [[b|e] self1] eqn:Hput;
    [|discriminate].
  intros H Hl. inversion H; subst self1. destruct b.
  - apply put_changed in Hput as (r & tmp' & Hadd & Hr & -> & _).
    pose proof (add_entry_get _ _ _ _ _ _ Hadd Hr) as Hget.
    cbn [yaml_dict separator set_yaml_dict] in *.
    rewrite Hget in H. inversion H; subst. discriminate.
  - now apply put_false_unchanged in Hput.
Qed.

Lemma append_false_unchanged (self self' : Yedit.t) (path : string)
  (val : value) :
  append self path val = (Ok false, self') -> self' = self.
Proof.
  unfold append.
  destruct (entry_or_new_list self path) as [[entry|e] self1] eqn:Hhead;
    [|discriminate].
  destruct entry; intros H; inversion H; subst;
    now apply (entry_or_new_list_other _ _ _ _ Hhead).
Qed.

Lemma insert_any_false_unchanged (self self' : Yedit.t) (path : string)
  (val : value) (index : option Z) :
  insert_any self path val index = (Ok false, self') -> self' = self.
Proof.
  unfold insert_any, insert.
  destruct (entry_or_new_list self path) as [[entry|e] self1] eqn:Hhead;
    [|destruct index; discriminate].
  destruct index; destruct entry; intros H; inversion H; subst;
    now apply (entry_or_new_list_other _ _ _ _ Hhead).
Qed.

(** An edit that reports no change has made none. *)
Lemma run_edit_false_unchanged (ed : edit) (self self' : Yedit.t)
  (key : string) (replaced : bool) :
  run_edit ed self = (Done (false, key), self', replaced) ->
  self' = self /\ replaced = false.
Proof.
  unfold Batch.run_edit.
  destruct (edit_value ed) as [raw|]; [|discriminate].
  destruct (parse_value yaml_load raw _) as [val|]; [|discriminate].
  destruct (action_is ed "update").
  { destruct (parse_value yaml_load _ "") as [parsed|]; [|discriminate].
    destruct (get_curr_value _ _ _ _ _) as [cv|]; [|discriminate].
    destruct (edit_key ed) as [k|]; [|discriminate].
    destruct (update self k val _ cv) as [[b|e] s1] eqn:Hup; [|discriminate].
    intros H. inversion H; subst.
    split; [now apply update_false_unchanged in Hup | reflexivity]. }
  destruct (edit_key ed) as [k|]; [|discriminate].
  destruct (action_is ed "append").
  { destruct (append self k val) as [[b|e] s1] eqn:Hop; [|discriminate].
    intros H. inversion H; subst.
    split; [now apply append_false_unchanged in Hop|].
    unfold put_commits, append, entry_or_new_list in *.
    destruct (entry_or_none _) as [[]|]; try reflexivity.
    destruct (put self key (VList [])) as [[[|]|] s2] eqn:Hput;
      try reflexivity.
    apply put_changed in Hput as (r & tmp' & Hadd & Hr & -> & _).
    pose proof (add_entry_get _ _ _ _ _ _ Hadd Hr) as Hget.
    cbn [yaml_dict separator set_yaml_dict] in *.
    rewrite Hget in Hop. discriminate. }
  destruct (action_is ed "insert").
  { destruct (edit_index ed) as [index|]; [|discriminate].
    destruct (insert_any self k val index) as [[b|e] s1] eqn:Hop;
      [|discriminate].
    intros H. inversion H; subst.
    split; [now apply insert_any_false_unchanged in Hop|].
    unfold put_commits, insert_any, insert, entry_or_new_list in *.
    destruct (entry_or_none _) as [[]|]; try reflexivity.
    destruct (put self key (VList [])) as [[[|]|] s2] eqn:Hput;
      try reflexivity.
    apply put_changed in Hput as (r & tmp' & Hadd & Hr & -> & _).
    pose proof (add_entry_get _ _ _ _ _ _ Hadd Hr) as Hget.
    cbn [yaml_dict separator set_yaml_dict] in *.
    rewrite Hget in Hop. destruct index; discriminate. }
  destruct (put self k val) as [[b|e] s1] eqn:Hop; [|discriminate].
  intros H. inversion H; subst.
  split; [now apply put_false_unchanged in Hop | reflexivity].
Qed.

(** The results of a batch grow. *)
Lemma edits_loop_results (edits : list edit) :
  forall st f st',
    edits_loop edits st = (f, st') ->
    exists more, results st' = (results st ++ more)%list.
Proof.
  induction edits as [|ed edits IH]; intros st f st' H.
  - inversion H; subst. exists []. now rewrite app_nil_r.
  - cbn [Batch.edits_loop] in H.
    destruct (run_edit ed (doc st)) as [[r s1] replaced].
    destruct r as [[changed key]|f0].
    + apply IH in H as [more Hmore]. cbn [results] in Hmore.
      destruct changed.
      * exists ((key, length (if replaced
                              then (olds st ++ [yaml_dict (doc st)])%list
                              else olds st)) :: more).
        now rewrite Hmore, <- app_assoc.
      * now exists more.
    + inversion H; subst. exists []. now rewrite app_nil_r.
Qed.

Lemma edits_loop_quiet (edits : list edit) :
  forall st st',
    edits_loop edits st = (None, st') ->
    results st' = results st ->
    doc st' = doc st /\ olds st' = olds st.
Proof.
  induction edits as [|ed edits IH]; intros st st' H Hres.
  - inversion H; subst. now split.
  - cbn [Batch.edits_loop] in H.
    destruct (run_edit ed (doc st)) as [[r s1] replaced] eqn:Hrun.
    destruct r as [[changed key]|f0]; [|discriminate].
    destruct changed.
    + apply edits_loop_results in H as [more Hmore].
      cbn [results] in Hmore. rewrite Hres, <- app_assoc in Hmore.
      apply (f_equal (@length _)) in Hmore.
      rewrite length_app in Hmore. cbn [length app] in Hmore. lia.
    + apply run_edit_false_unchanged in Hrun as [-> ->].
      destruct (IH _ _ H Hres) as [Hdoc Holds].
      cbn [doc olds] in *. now split.
Qed.

(** X23. A batch that reports changed=false has no result and leaves
    the document as it was, object and content: the write that the
    caller skips on changed=false would have written what the file was
    loaded from. *)
Theorem process_edits_unchanged (edits : list edit) (yamlfile : Yedit.t)
  (rs : list (string * nat)) (st : batch) :
  process_edits edits yamlfile = (Done (false, rs), st) ->
  rs = [] /\ doc st = yamlfile /\ olds st = [].
Proof.
  unfold Batch.process_edits.
  destruct (edits_loop edits (BatchState yamlfile [] [])) as [f st0] eqn:Hloop.
  destruct f as [f|]; [discriminate|].
  intros H. inversion H as [[Hlen Hrs Hst]]. subst st0.
  assert (Hnil : results st = []).
  { destruct (results st); [reflexivity | discriminate]. }
  split; [exact Hnil|].
  now apply (edits_loop_quiet edits (BatchState yamlfile [] []) st).
Qed.

(** The outcome of a run, the document it leaves and the keys it
    reports depend on the document it starts from only, not on the
    results and the replaced documents recorded before. *)
Lemma edits_loop_doc (edits : list edit) :
  forall st1 st2,
    doc st1 = doc st2 ->
    (edits_loop edits st1).1 = (edits_loop edits st2).1
    /\ doc (edits_loop edits st1).2 = doc (edits_loop edits st2).2
    /\ exists m1 m2,
         results (edits_loop edits st1).2 = (results st1 ++ m1)%list
         /\ results (edits_loop edits st2).2 = (results st2 ++ m2)%list
         /\ map fst m1 = map fst m2.
Proof.
  induction edits as [|ed edits IH]; intros st1 st2 Hdoc.
  - repeat split; try assumption. exists [], [].
    cbn [Batch.edits_loop snd]. now rewrite !app_nil_r.
  - cbn [Batch.edits_loop]. rewrite Hdoc.
    destruct (run_edit ed (doc st2)) as [[r s1] replaced].
    destruct r as [[changed key]|f0].
    + match goal with
      | |- context [edits_loop edits ?x] =>
          match goal with
          | |- context [(edits_loop edits ?y).1 = (edits_loop edits ?z).1] =>
              destruct (IH y z eq_refl)
                as (Hout & Hd & m1 & m2 & H1 & H2 & Hm)
          end
      end.
      split; [exact Hout|]. split; [exact Hd|].
      cbn [results] in H1, H2. destruct changed.
      * eexists (_ :: m1), (_ :: m2).
        rewrite H1, H2, <- !app_assoc. cbn [app].
        split; [reflexivity|]. split; [reflexivity|].
        cbn [map fst]. now rewrite Hm.
      * now exists m1, m2.
    + cbn [fst snd doc results]. repeat split.
      exists [], []. now rewrite !app_nil_r.
Qed.

Lemma edits_loop_app (a b : list edit) :
  forall st,
    edits_loop (a ++ b) st
    = match edits_loop a st with
      | (None, st') => edits_loop b st'
      | (Some f, st') => (Some f, st')
      end.
Proof.
  induction a as [|ed a IH]; intros st.
  - reflexivity.
  - cbn [Batch.edits_loop app].
    destruct (run_edit ed (doc st)) as [[r s1] replaced].
    destruct r as [[changed key]|f0]; [apply IH | reflexivity].
Qed.

(** X24. The edits of a batch are applied in order, each to the document
    the one before left. When the run of a first part raises, nothing of
    the rest is run: outcome, document and results are those of the
    first part, whose earlier edits stay applied. When it completes, the
    rest runs on the document it left: the batch raises what the rest
    raises, leaves the document the rest leaves, reports a change when
    either part does, and reports the keys of the first part followed by
    the keys of the rest. *)
Theorem process_edits_in_order (a b : list edit) (yamlfile : Yedit.t) :
  (forall f st,
     process_edits a yamlfile = (Fault f, st) ->
     process_edits (a ++ b) yamlfile = (Fault f, st))
  /\ (forall ca rsa st,
        process_edits a yamlfile = (Done (ca, rsa), st) ->
        doc (process_edits (a ++ b) yamlfile).2
        = doc (process_edits b (doc st)).2
        /\ match (process_edits (a ++ b) yamlfile).1,
                 (process_edits b (doc st)).1 with
           | Fault f1, Fault f2 => f1 = f2
           | Done (c, rs), Done (cb, rsb) =>
               c = ca || cb
               /\ map fst rs = (map fst rsa ++ map fst rsb)%list
           | _, _ => False
           end).
Proof.
  unfold Batch.process_edits. rewrite edits_loop_app.
  destruct (edits_loop a (BatchState yamlfile [] [])) as [fa sta] eqn:Ha.
  split.
  - intros f st H. destruct fa as [fa|]; [|discriminate].
    inversion H; subst. reflexivity.
  - intros ca rsa st H. destruct fa as [fa|]; [discriminate|].
    inversion H; subst. clear H.
    destruct (edits_loop_doc b st (BatchState (doc st) [] []) eq_refl)
      as (Hout & Hdoc & m1 & m2 & H1 & H2 & Hm).
    destruct (edits_loop b st) as [fb stb].
    destruct (edits_loop b (BatchState (doc st) [] [])) as [fb' stb'].
    cbn [fst snd results app] in *. subst fb'.
    destruct fb as [fb|]; cbn [fst snd]; [now split|].
    split; [exact Hdoc|].
    rewrite H1, H2, map_app, Hm. split; [|reflexivity].
    apply (f_equal (@length _)) in Hm. rewrite !length_map in Hm.
    rewrite length_app, Hm.
    destruct (results st), m2; cbn [length Nat.add]; reflexivity.
Qed.

(** An edit with the action [update] works on the document in place. *)
Lemma run_edit_update_in_place (ed : edit) (self : Yedit.t) :
  action_is ed "update" = true ->
  (run_edit ed self).2 = false.
Proof.
  intros Hact. unfold Batch.run_edit. rewrite Hact.
  repeat case_match; reflexivity.
Qed.

Lemma edits_loop_updates (edits : list edit) :
  forall st,
    (forall ed, In ed edits -> action_is ed "update" = true) ->
    olds (edits_loop edits st).2 = olds st
    /\ forall kg, In kg (results (edits_loop edits st).2) ->
                  In kg (results st) \/ kg.2 = length (olds st).
Proof.
  induction edits as [|ed edits IH]; intros st Hall.
  - split; [reflexivity | now left].
  - cbn [Batch.edits_loop].
    pose proof (run_edit_update_in_place ed (doc st)
                  (Hall ed (or_introl eq_refl))) as Hrep.
    destruct (run_edit ed (doc st)) as [[r s1] replaced].
    cbn [snd] in Hrep. subst replaced.
    destruct r as [[changed key]|f0]; [|split; [reflexivity | now left]].
    match goal with
    | |- context [edits_loop edits ?x] =>
        destruct (IH x (fun e He => Hall e (or_intror He))) as [Holds Hres]
    end.
    cbn [olds results] in Holds, Hres.
    split; [exact Holds|].
    intros kg Hin. destruct (Hres kg Hin) as [Hold|Hnew]; [|now right].
    destruct changed; [|now left].
    apply in_app_or in Hold as [Hold|[<-|[]]]; [now left | now right].
Qed.

(** X25. In a batch of [update] edits every result holds the document
    object itself, not a copy taken when the edit was made: whichever
    edit reported it, each [edit] field of the results shows the
    document as the last edit left it, and no document object was
    replaced on the way. *)
Theorem update_results_show_final (edits : list edit) (yamlfile : Yedit.t)
  (changed : bool) (rs : list (string * nat)) (st : batch) :
  (forall ed, In ed edits -> action_is ed "update" = true) ->
  process_edits edits yamlfile = (Done (changed, rs), st) ->
  olds st = []
  /\ forall key obj, In (key, obj) rs ->
                     shown st obj = Some (yaml_dict (doc st)).
Proof.
  intros Hall. unfold Batch.process_edits.
  destruct (edits_loop_updates edits (BatchState yamlfile [] []) Hall)
    as [Holds Hres].
  destruct (edits_loop edits (BatchState yamlfile [] [])) as [f st0].
  destruct f as [f|]; [discriminate|].
  intros H. inversion H; subst. cbn [snd olds results] in *.
  split; [exact Holds|].
  intros key obj Hin. destruct (Hres _ Hin) as [[]|Hobj].
  cbn [snd length] in Hobj. subst obj.
  unfold shown. now rewrite Holds.
Qed.

End Batches.

(** ** The module run *)

Import Engine.

Lemma same_file_refl (self : Yedit.t) : same_file self self.
Proof. unfold same_file. now destruct self. Qed.

Lemma same_file_set (self : Yedit.t) (v : value) :
  same_file self (set_yaml_dict self v).
Proof. reflexivity. Qed.

Lemma same_file_trans (a b c : Yedit.t) :
  same_file a b -> same_file b c -> same_file a c.
Proof.
  unfold same_file. intros -> ->. reflexivity.
Qed.

Ltac same_file_cases :=
  repeat case_match; intros; simplify_eq;
  try apply same_file_refl; try apply same_file_set.

Lemma put_same_file (self : Yedit.t) (path : string) (val : value) :
  same_file self (put self path val).2.
Proof. unfold put. same_file_cases. Qed.

Lemma update_same_file (self : Yedit.t) (path : string) (val : value)
  (index : option Z) (curr_value : value) :
  same_file self (update self path val index curr_value).2.
Proof. unfold update. same_file_cases. Qed.

Lemma pop_same_file (self : Yedit.t) (path : string) (val : value) :
  same_file self (pop self path val).2.
Proof. unfold pop. same_file_cases. Qed.

Lemma delete_same_file (self : Yedit.t) (path : string) (index : option Z)
  (val : value) :
  same_file self (delete self path index val).2.
Proof. unfold delete. same_file_cases. Qed.

Lemma entry_or_new_list_same_file (self : Yedit.t) (path : string) :
  same_file self (entry_or_new_list self path).2.
Proof.
  unfold entry_or_new_list.
  pose proof (put_same_file self path (VList [])) as Hput.
  destruct (put self path (VList [])) as [r s1]. cbn [snd] in Hput.
  same_file_cases; cbn [snd]; assumption.
Qed.

Lemma append_same_file (self : Yedit.t) (path : string) (val : value) :
  same_file self (append self path val).2.
Proof.
  unfold append.
  pose proof (entry_or_new_list_same_file self path) as Hhead.
  destruct (entry_or_new_list self path) as [r s1]. cbn [snd] in Hhead.
  same_file_cases; cbn [snd]; try assumption;
    (eapply same_file_trans; [exact Hhead | apply same_file_set]).
Qed.

Lemma insert_any_same_file (self : Yedit.t) (path : string) (val : value)
  (index : option Z) :
  same_file self (Batch.insert_any self path val index).2.
Proof.
  unfold Batch.insert_any, insert.
  pose proof (entry_or_new_list_same_file self path) as Hhead.
  destruct (entry_or_new_list self path) as [r s1]. cbn [snd] in Hhead.
  same_file_cases; cbn [snd]; try assumption;
    (eapply same_file_trans; [exact Hhead | apply same_file_set]).
Qed.

Section ModuleRun.
Import Batch Ansible Disk.
Variable yaml_load : string -> option value.
Variable json_loads : string -> option value.
Variable py_str : value -> string.
Variable yaml_dump : value -> list string.
Variable json_dump : value -> list string.

Local Abbreviation run_ansible :=
  (Ansible.run_ansible yaml_load json_loads py_str yaml_dump json_dump).
Local Abbreviation write_call := (Ansible.write_call yaml_dump json_dump).
Local Abbreviation run_edits :=
  (Ansible.run_edits yaml_load json_loads py_str yaml_dump json_dump).
Local Abbreviation run_absent :=
  (Ansible.run_absent yaml_load yaml_dump json_dump).
Local Abbreviation run_present :=
  (Ansible.run_present yaml_load json_loads py_str yaml_dump json_dump).

Lemma run_edit_same_file (ed : edit) (self : Yedit.t) :
  same_file self (Batch.run_edit yaml_load json_loads py_str ed self).1.2.
Proof.
  unfold Batch.run_edit.
  repeat match goal with
  | |- context [update ?s ?k ?v ?i ?c] =>
      pose proof (update_same_file s k v i c);
      destruct (update s k v i c) as [? ?]
  | |- context [append ?s ?k ?v] =>
      pose proof (append_same_file s k v);
      destruct (append s k v) as [? ?]
  | |- context [insert_any ?s ?k ?v ?i] =>
      pose proof (insert_any_same_file s k v i);
      destruct (insert_any s k v i) as [? ?]
  | |- context [put ?s ?k ?v] =>
      pose proof (put_same_file s k v);
      destruct (put s k v) as [? ?]
  | |- _ => case_match
  end; cbn [fst snd] in *; try assumption; apply same_file_refl.
Qed.

Lemma edits_loop_same_file (edits : list edit) :
  forall st,
    same_file (doc st)
      (doc (Batch.edits_loop yaml_load json_loads py_str edits st).2).
Proof.
  induction edits as [|ed edits IH]; intros st.
  - apply same_file_refl.
  - cbn [Batch.edits_loop].
    pose proof (run_edit_same_file ed (doc st)) as Hstep.
    destruct (Batch.run_edit yaml_load json_loads py_str ed (doc st))
      as [[r s1] replaced].
    cbn [fst snd] in Hstep.
    destruct r as [[changed key]|f0]; [|exact Hstep].
    eapply same_file_trans; [exact Hstep|].
    match goal with
    | |- context [Batch.edits_loop _ _ _ edits ?x] => apply (IH x)
    end.
Qed.

Lemma process_edits_same_file (edits : list edit) (yamlfile : Yedit.t) :
  same_file yamlfile
    (doc (Batch.process_edits yaml_load json_loads py_str edits yamlfile).2).
Proof.
  unfold Batch.process_edits.
  pose proof (edits_loop_same_file edits (BatchState yamlfile [] [])) as H.
  destruct (Batch.edits_loop _ _ _ edits _) as [f st]. exact H.
Qed.

Lemma same_file_filename (self self' : Yedit.t) :
  same_file self self' -> filename self' = filename self.
Proof. unfold same_file. now intros ->. Qed.

Lemma write_call_missing_target (self : Yedit.t) (fs : gmap string string) :
  fs !! filename self = None ->
  exists c, write_call self fs = (Some c, fs).
Proof.
  intros Hf. unfold Ansible.write_call.
  destruct (filename self =? "")%string eqn:Hname; [eauto|]. cbv zeta.
  rewrite write_on_missing_target by exact Hf.
  destruct (negb (completes _ fs)) eqn:Hc; [eauto|].
  destruct ((content_type self =? "yaml")%string
            || (content_type self =? "json")%string) eqn:Ht; [|eauto].
  exfalso. apply negb_false_iff in Hc. revert Hc.
  unfold write, file_exists. rewrite Hf, Hname, andb_false_r. cbn [app].
  destruct (content_type self =? "yaml")%string;
    [|destruct (content_type self =? "json")%string; [|discriminate]];
    unfold _write; cbn [app completes exec]; rewrite Hf; discriminate.
Qed.

Lemma write_out_completes (f : string) (chunks : list string) :
  forall (sofar : string) (fs : gmap string string),
    fs !! (f ++ ".yedit")%string = Some sofar ->
    completes
      (map (WriteOut (f ++ ".yedit")) chunks
       ++ [Fsync (f ++ ".yedit"); Funlock (f ++ ".yedit");
           Rename (f ++ ".yedit") f; FsyncDir])%list fs = true.
Proof.
  induction chunks as [|c chunks IH]; intros sofar fs Htmp.
  - cbn [map app completes exec]. now rewrite Htmp.
  - cbn [map app completes exec]. rewrite Htmp.
    apply (IH (sofar ++ c)%string). apply lookup_insert_eq.
Qed.

Lemma _write_completes (f old : string) (chunks : list string)
  (fs : gmap string string) :
  fs !! f = Some old ->
  completes (_write f chunks) fs = true.
Proof.
  intros Hf. unfold _write. cbn [app completes exec]. rewrite Hf.
  apply (write_out_completes f chunks ""). apply lookup_insert_eq.
Qed.

(** A [write] without backup on an existing target. *)
Lemma write_call_plain (self : Yedit.t) (old : string)
  (fs : gmap string string) :
  fs !! filename self = Some old ->
  filename self <> "" ->
  backup self = false ->
  content_type self = "yaml" ->
  write_call self fs
  = (None, <[filename self := join (yaml_dump (yaml_dict self))]>
             (base.delete (filename self ++ ".yedit")%string fs)).
Proof.
  intros Hf Hname Hbackup Htype. unfold Ansible.write_call, write.
  apply String.eqb_neq in Hname. rewrite Hname, Hbackup, Htype.
  cbn [andb app]. change ("yaml" =? "yaml")%string with true.
  cbv iota zeta. rewrite (_write_completes _ old) by exact Hf.
  cbn [negb orb].
  now rewrite (_write_run _ old) by (exact Hf || apply Nat.le_refl).
Qed.

(** The two loads of [run_ansible], before its branches. *)
Lemma run_ansible_unfold (p : params) (fs : gmap string string) :
  run_ansible p fs
  = match init yaml_load json_loads p fs with
    | Fault f => (Crash (Py f), fs)
    | Done yamlfile =>
        match (if nonempty (p_src p) then
                 match load yaml_load json_loads yamlfile fs "yaml" with
                 | (Fault f, _) => Fault f
                 | (Done rval, yamlfile') => Done (Some rval, yamlfile')
                 end
               else Done (None, yamlfile)) with
        | Fault f => (Crash (Py f), fs)
        | Done (rval, yamlfile) =>
            if nonempty (p_src p) && is_none (yaml_dict yamlfile)
               && negb (p_state p =? "present")%string
            then (Return Failed, fs)
            else if (p_state p =? "list")%string
            then (run_list yaml_load p yamlfile rval, fs)
            else if (p_state p =? "absent")%string
            then run_absent p yamlfile fs
            else if (p_state p =? "present")%string
            then run_present p yamlfile fs
            else (Return Failed, fs)
        end
    end.
Proof. reflexivity. Qed.

Lemma run_absent_quiet (p : params) (yamlfile : Yedit.t)
  (fs fs' : gmap string string) (r : reply) :
  run_absent p yamlfile fs = (Return r, fs') ->
  (forall res, r <> Report true res) ->
  fs' = fs.
Proof.
  unfold Ansible.run_absent. intros H Hq.
  destruct (with_content yaml_load p yamlfile) as [y|e];
    [|now inversion H].
  destruct (if p_update p then pop y (p_key p) (p_value p)
            else delete y (p_key p) (p_index p) (p_value p)) as [res y'].
  destruct res as [changed|e]; [|now inversion H].
  destruct (changed && nonempty (p_src p)) eqn:Hw; [|now inversion H].
  apply andb_true_iff in Hw as [-> _].
  destruct (write_call y' fs) as [[c|] fs1]; inversion H; subst.
  exfalso. now eapply Hq.
Qed.

Lemma run_edits_quiet (p : params) (yamlfile : Yedit.t)
  (fs fs' : gmap string string) (r : reply) :
  run_edits p yamlfile fs = (Return r, fs') ->
  (forall res, r <> Report true res) ->
  fs' = fs.
Proof.
  unfold Ansible.run_edits. intros H Hq.
  destruct (if negb (is_none (p_value p)) then [key_value_edit p]
            else default [] (p_edits p)) as [|ed edits].
  - destruct (nonempty (p_src p)); [|now inversion H].
    destruct (write_call yamlfile fs) as [[c|] fs1]; inversion H; subst.
    exfalso. now eapply Hq.
  - destruct (Batch.process_edits _ _ _ _ _) as [[[changed rs]|f] st];
      [|now inversion H].
    destruct (changed && nonempty (p_src p)) eqn:Hw; [|now inversion H].
    apply andb_true_iff in Hw as [-> _].
    destruct (write_call (doc st) fs) as [[c|] fs1]; inversion H; subst.
    exfalso. now eapply Hq.
Qed.

Lemma run_present_quiet (p : params) (yamlfile : Yedit.t)
  (fs fs' : gmap string string) (r : reply) :
  run_present p yamlfile fs = (Return r, fs') ->
  (forall res, r <> Report true res) ->
  fs' = fs.
Proof.
  unfold Ansible.run_present. intros H Hq.
  destruct (truthy (p_content p)); [|now apply (run_edits_quiet _ _ _ _ _ H)].
  destruct (parse_value yaml_load (p_content p) (p_content_type p))
    as [c|e]; [|now inversion H].
  destruct (py_eq (yaml_dict yamlfile) c && is_none (p_value p));
    [now inversion H | now apply (run_edits_quiet _ _ _ _ _ H)].
Qed.

(** X26. Whatever the state and the parameters, a run that returns
    changed=false, or the failure reply, has left the disk as it was:
    the file is written on no path that reports no change. *)
Theorem unchanged_reply_leaves_disk (p : params)
  (fs fs' : gmap string string) (r : reply) :
  run_ansible p fs = (Return r, fs') ->
  (forall res, r <> Report true res) ->
  fs' = fs.
Proof.
  rewrite run_ansible_unfold. intros H Hq.
  destruct (init yaml_load json_loads p fs) as [y0|f]; [|now inversion H].
  destruct (if nonempty (p_src p) then _ else _) as [[rval y]|f];
    [|now inversion H].
  destruct (nonempty (p_src p) && is_none (yaml_dict y)
            && negb (p_state p =? "present")%string); [now inversion H|].
  destruct (p_state p =? "list")%string; [now inversion H|].
  destruct (p_state p =? "absent")%string;
    [now apply (run_absent_quiet _ _ _ _ _ H)|].
  destruct (p_state p =? "present")%string;
    [now apply (run_present_quiet _ _ _ _ _ H) | now inversion H].
Qed.

(** The object of a run on a source that is no file: both loads read
    nothing, and the document is the empty mapping of the constructor. *)
Lemma loads_of_missing_source (p : params) (fs : gmap string string) :
  fs !! p_src p = None ->
  let yamlfile :=
    Yedit.Build (p_src p) (p_content_type p) (p_separator p)
                (p_backup_ext p) (p_backup p) (VDict []) in
  init yaml_load json_loads p fs = Done yamlfile
  /\ load yaml_load json_loads yamlfile fs "yaml" = (Done VNone, yamlfile).
Proof.
  intros Hf. unfold init, load, read. cbn [filename].
  rewrite Hf. destruct (p_src p =? "")%string; split; reflexivity.
Qed.

Lemma with_content_same_file (p : params) (self y : Yedit.t) :
  with_content yaml_load p self = Ok y -> same_file self y.
Proof.
  unfold with_content. same_file_cases.
Qed.

Lemma run_absent_missing (p : params) (yamlfile : Yedit.t)
  (fs : gmap string string) :
  fs !! filename yamlfile = None ->
  (run_absent p yamlfile fs).2 = fs
  /\ (nonempty (p_src p) = true ->
      forall res, (run_absent p yamlfile fs).1 <> Return (Report true res))
  /\ (run_absent p yamlfile fs).1 <> Return Failed.
Proof.
  intros Hf. unfold Ansible.run_absent.
  destruct (with_content yaml_load p yamlfile) as [y|e] eqn:Hc;
    [|repeat split; intros; discriminate].
  apply with_content_same_file, same_file_filename in Hc.
  assert (Hy : forall r y', (if p_update p then pop y (p_key p) (p_value p)
            else delete y (p_key p) (p_index p) (p_value p)) = (r, y') ->
            filename y' = filename yamlfile).
  { intros r y' E. rewrite <- Hc. apply same_file_filename.
    destruct (p_update p).
    - pose proof (pop_same_file y (p_key p) (p_value p)) as H.
      now rewrite E in H.
    - pose proof (delete_same_file y (p_key p) (p_index p) (p_value p)) as H.
      now rewrite E in H. }
  destruct (if p_update p then _ else _) as [r y'].
  specialize (Hy _ _ eq_refl).
  destruct r as [changed|e]; [|repeat split; intros; discriminate].
  destruct changed, (nonempty (p_src p)); cbn [andb];
    try (repeat split; intros; discriminate).
  destruct (write_call_missing_target y' fs) as [c ->];
    [now rewrite Hy|].
  repeat split; intros; discriminate.
Qed.

Lemma run_edits_missing (p : params) (yamlfile : Yedit.t)
  (fs : gmap string string) :
  fs !! filename yamlfile = None ->
  (run_edits p yamlfile fs).2 = fs
  /\ (nonempty (p_src p) = true ->
      forall res, (run_edits p yamlfile fs).1 <> Return (Report true res))
  /\ (run_edits p yamlfile fs).1 <> Return Failed.
Proof.
  intros Hf. unfold Ansible.run_edits.
  destruct (if negb (is_none (p_value p)) then [key_value_edit p]
            else default [] (p_edits p)) as [|ed edits].
  - destruct (nonempty (p_src p));
      [|repeat split; intros; discriminate].
    destruct (write_call_missing_target yamlfile fs Hf) as [c ->].
    repeat split; intros; discriminate.
  - pose proof (process_edits_same_file (ed :: edits) yamlfile) as Hsame.
    apply same_file_filename in Hsame.
    destruct (Batch.process_edits _ _ _ _ _) as [[[changed rs]|f] st];
      [|repeat split; intros; discriminate].
    cbn [snd] in Hsame.
    destruct changed, (nonempty (p_src p)); cbn [andb];
      try (repeat split; intros; discriminate).
    destruct (write_call_missing_target (doc st) fs) as [c ->];
      [now rewrite Hsame|].
    repeat split; intros; discriminate.
Qed.

Lemma run_present_missing (p : params) (yamlfile : Yedit.t)
  (fs : gmap string string) :
  fs !! filename yamlfile = None ->
  (run_present p yamlfile fs).2 = fs
  /\ (nonempty (p_src p) = true ->
      forall res, (run_present p yamlfile fs).1 <> Return (Report true res))
  /\ (run_present p yamlfile fs).1 <> Return Failed.
Proof.
  intros Hf. unfold Ansible.run_present.
  destruct (truthy (p_content p)); [|now apply run_edits_missing].
  destruct (parse_value yaml_load (p_content p) (p_content_type p))
    as [c|e]; [|repeat split; intros; discriminate].
  destruct (py_eq (yaml_dict yamlfile) c && is_none (p_value p));
    [repeat split; intros; discriminate|].
  now apply run_edits_missing.
Qed.

(** X27. A source path that names no file is never created. Whatever the
    state and the edits, the run leaves the disk as it was and never
    reports changed=true: where the document changed in memory, [write]
    raises at [os.stat]. Nor is the reply the failure [Error opening
    file] under one of the three states: the missing file reads as the
    empty mapping. *)
Theorem missing_source_is_never_created (p : params)
  (fs : gmap string string) :
  p_src p <> "" ->
  fs !! p_src p = None ->
  (run_ansible p fs).2 = fs
  /\ (forall res, (run_ansible p fs).1 <> Return (Report true res))
  /\ (p_state p = "list" \/ p_state p = "absent" \/ p_state p = "present" ->
      (run_ansible p fs).1 <> Return Failed).
Proof.
  intros Hsrc Hf. rewrite run_ansible_unfold.
  destruct (loads_of_missing_source p fs Hf) as [-> Hload].
  assert (Hne : nonempty (p_src p) = true).
  { unfold nonempty. apply negb_true_iff. now apply String.eqb_neq. }
  rewrite Hne, Hload. cbn [yaml_dict is_none andb].
  set (yamlfile := Yedit.Build _ _ _ _ _ _).
  assert (Hy : fs !! filename yamlfile = None) by exact Hf.
  destruct (p_state p =? "list")%string eqn:Hl.
  { cbn [fst snd]. split; [reflexivity|]. unfold run_list.
    split; [intros res | intros _];
      repeat case_match; discriminate. }
  destruct (p_state p =? "absent")%string eqn:Ha.
  { destruct (run_absent_missing p yamlfile fs Hy) as (H1 & H2 & H3).
    split; [exact H1|]. split; [exact (H2 Hne) | intros _; exact H3]. }
  destruct (p_state p =? "present")%string eqn:Hp.
  { destruct (run_present_missing p yamlfile fs Hy) as (H1 & H2 & H3).
    split; [exact H1|]. split; [exact (H2 Hne) | intros _; exact H3]. }
  cbn [fst snd]. split; [reflexivity|]. split; [discriminate|].
  intros [H|[H|H]]; rewrite H in *; discriminate.
Qed.

(** X28. [state=list] with [content] and neither [src] nor [key]: the
    branch returns [rval], which nothing has bound; the run ends in
    [UnboundLocalError] where the content would be expected. *)
Theorem list_of_content_without_key (p : params) (fs : gmap string string) :
  p_state p = "list" ->
  p_src p = "" ->
  p_key p = "" ->
  (forall e, parse_value yaml_load (p_content p) (p_content_type p)
             <> Raise e) ->
  run_ansible p fs = (Crash UnboundLocalError, fs).
Proof.
  intros Hstate Hsrc Hkey Hparse. rewrite run_ansible_unfold.
  unfold init, load, read. cbn [filename]. rewrite Hsrc, Hstate.
  cbn. unfold run_list, with_content. rewrite Hkey.
  destruct (truthy (p_content p)); [|reflexivity].
  destruct (parse_value yaml_load (p_content p) (p_content_type p)) as [c|e];
    [reflexivity | now destruct (Hparse e)].
Qed.

(** X29. A source of content type [json] is read as YAML: the
    constructor parses the file with [json.loads], and the [load()] of
    [run_ansible], called without a content type, parses it again with
    the YAML loader and replaces the document. What [state=list]
    returns is the YAML reading, and a file that the YAML loader
    refuses ends the run in [YeditException] though it is valid JSON. *)
Theorem json_source_is_read_as_yaml (p : params) (fs : gmap string string)
  (text : string) (j : value) :
  p_state p = "list" ->
  p_src p <> "" ->
  fs !! p_src p = Some text ->
  text <> "" ->
  p_content_type p = "json" ->
  json_loads text = Some j ->
  truthy (p_content p) = false ->
  p_key p = "" ->
  run_ansible p fs
  = match yaml_load text with
    | Some VNone => (Return Failed, fs)
    | Some y => (Return (Report false (Shown y)), fs)
    | None => (Crash (Py (PyExn YeditException)), fs)
    end.
Proof.
  intros Hstate Hsrc Hf Htext Htype Hj Hcontent Hkey.
  rewrite run_ansible_unfold.
  assert (Hne : nonempty (p_src p) = true).
  { unfold nonempty. apply negb_true_iff. now apply String.eqb_neq. }
  apply String.eqb_neq in Hsrc.
  unfold init, load, read. cbn [filename]. rewrite Hsrc, Hf, Htype, Hne.
  destruct text as [|a text]; [congruence|].
  change ("json" =? "yaml")%string with false.
  change ("json" =? "json")%string with true.
  change ("yaml" =? "yaml")%string with true. cbv iota.
  rewrite Hj. cbn [yaml_dict set_yaml_dict filename].
  assert (Hread : forall v,
            filename (if is_none v
                      then set_yaml_dict
                             (Yedit.Build (p_src p) "json" (p_separator p)
                                (p_backup_ext p) (p_backup p) v) (VDict [])
                      else Yedit.Build (p_src p) "json" (p_separator p)
                             (p_backup_ext p) (p_backup p) v) = p_src p)
    by (intros v; now destruct (is_none v)).
  rewrite Hread, Hsrc, Hf.
  destruct (yaml_load (String a text)) as [y|]; [|reflexivity].
  cbn [yaml_dict set_yaml_dict]. rewrite Hstate.
  change ("list" =? "present")%string with false.
  change ("list" =? "list")%string with true. cbn [negb andb].
  rewrite andb_true_r.
  destruct y; cbn [is_none]; try reflexivity;
    unfold run_list, with_content; rewrite Hcontent, Hkey; reflexivity.
Qed.

(** The object of a run on a YAML source: both loads read the file, and
    the document is what the second makes of it. *)
Lemma loads_of_yaml_source (p : params) (fs : gmap string string)
  (text : string) (v : value) :
  p_src p <> "" ->
  fs !! p_src p = Some text ->
  text <> "" ->
  p_content_type p = "yaml" ->
  yaml_load text = Some v ->
  exists y0,
    init yaml_load json_loads p fs = Done y0
    /\ load yaml_load json_loads y0 fs "yaml"
       = (Done v, Yedit.Build (p_src p) "yaml" (p_separator p)
                    (p_backup_ext p) (p_backup p) v).
Proof.
  intros Hsrc Hf Htext Htype Hv. apply String.eqb_neq in Hsrc.
  unfold init, load, read. cbn [filename]. rewrite Hsrc, Hf, Htype.
  destruct text as [|a text]; [congruence|].
  change ("yaml" =? "yaml")%string with true. cbv iota. rewrite Hv.
  cbn [yaml_dict set_yaml_dict filename].
  eexists. split; [reflexivity|].
  destruct (is_none v); cbn [filename set_yaml_dict]; rewrite Hsrc, Hf, Hv;
    reflexivity.
Qed.

(** The run of [state=present] with a key and a value and none of
    [update], [append], [insert], on a YAML source. *)
Lemma run_plain_put (p : params) (fs : gmap string string)
  (text : string) (d val : value) :
  p_state p = "present" ->
  p_src p <> "" ->
  fs !! p_src p = Some text ->
  text <> "" ->
  p_content_type p = "yaml" ->
  yaml_load text = Some d ->
  truthy (p_content p) = false ->
  is_none (p_value p) = false ->
  p_update p = false -> p_append p = false -> p_insert p = false ->
  parse_value yaml_load (p_value p) (p_value_type p) = Ok val ->
  let self := Yedit.Build (p_src p) "yaml" (p_separator p)
                (p_backup_ext p) (p_backup p) d in
  run_ansible p fs
  = match put self (p_key p) val with
    | (Raise e, _) => (Crash (Py (PyExn e)), fs)
    | (Ok false, _) => (Return (Report false (Edits [])), fs)
    | (Ok true, self') =>
        match write_call self' fs with
        | (Some c, fs') => (Crash c, fs')
        | (None, fs') =>
            (Return (Report true (Edits [(p_key p, yaml_dict self')])), fs')
        end
    end.
Proof.
  intros Hstate Hsrc Hf Htext Htype Hd Hcontent Hvalue Hu Ha Hi Hparse self.
  rewrite run_ansible_unfold.
  destruct (loads_of_yaml_source p fs text d Hsrc Hf Htext Htype Hd)
    as (y0 & -> & Hload).
  assert (Hne : nonempty (p_src p) = true).
  { unfold nonempty. apply negb_true_iff. now apply String.eqb_neq. }
  rewrite Hne, Hload, Hstate. fold self.
  change ("present" =? "present")%string with true.
  change ("present" =? "list")%string with false.
  change ("present" =? "absent")%string with false.
  cbn [negb andb]. rewrite andb_false_r.
  unfold Ansible.run_present. rewrite Hcontent.
  unfold Ansible.run_edits. rewrite Hvalue. cbn [negb].
  unfold key_value_edit. rewrite Hu, Ha, Hi.
  unfold Batch.process_edits. cbn [Batch.edits_loop doc olds results].
  unfold Batch.run_edit.
  cbn [edit_value edit_value_type edit_key edit_action default from_option id].
  rewrite Hparse.
  change (action_is _ "update") with false.
  change (action_is _ "append") with false.
  change (action_is _ "insert") with false. cbv iota.
  destruct (put self (p_key p) val) as [[[|]|e] self'];
    cbn [lift app length Nat.ltb Nat.leb andb doc olds results];
    try reflexivity.
  rewrite Hne.
  destruct (write_call self' fs) as [[c|] fs']; reflexivity.
Qed.

(** X30. The module is idempotent over the disk for a value that
    equals itself under [==], which [nan] does not. A run with
    [state=present], a key and such a value on a YAML source, document
    and value holding no float, where the [put] changes the document:
    the run reports changed=true with the new document and leaves the
    source with its serialization, the temporary file gone. Where the
    loader reads that serialization back as the document, the same run
    on the disk it left reports changed=false with no result and writes
    nothing. *)
Theorem present_put_then_rerun (p : params) (fs : gmap string string)
  (text : string) (d val : value) (self' : Yedit.t) :
  p_state p = "present" ->
  p_src p <> "" ->
  fs !! p_src p = Some text ->
  text <> "" ->
  p_content_type p = "yaml" ->
  yaml_load text = Some d ->
  truthy (p_content p) = false ->
  is_none (p_value p) = false ->
  p_update p = false -> p_append p = false -> p_insert p = false ->
  p_backup p = false ->
  parse_value yaml_load (p_value p) (p_value_type p) = Ok val ->
  py_eq val val = true ->
  put (Yedit.Build (p_src p) "yaml" (p_separator p) (p_backup_ext p)
         (p_backup p) d) (p_key p) val = (Ok true, self') ->
  let text' := join (yaml_dump (yaml_dict self')) in
  text' <> "" ->
  yaml_load text' = Some (yaml_dict self') ->
  let fs1 :=
    <[p_src p := text']>
      (base.delete (p_src p ++ ".yedit")%string fs) in
  run_ansible p fs
  = (Return (Report true (Edits [(p_key p, yaml_dict self')])), fs1)
  /\ run_ansible p fs1 = (Return (Report false (Edits [])), fs1).
Proof.
  intros Hstate Hsrc Hf Htext Htype Hd Hcontent Hvalue Hu Ha Hi Hbackup
    Hparse Hself Hput text' Htext' Hback fs1.
  match type of Hput with
  | put ?s _ _ = _ => pose proof (put_same_file s (p_key p) val) as Hsame
  end.
  rewrite Hput in Hsame. cbn [snd] in Hsame.
  unfold same_file, set_yaml_dict in Hsame.
  cbn [filename content_type separator backup_ext backup] in Hsame.
  split.
  - rewrite (run_plain_put p fs text d val) by assumption.
    rewrite Hput.
    assert (Hname : filename self' = p_src p) by now rewrite Hsame.
    assert (Hbk : backup self' = false) by now rewrite Hsame.
    assert (Hct : content_type self' = "yaml") by now rewrite Hsame.
    rewrite (write_call_plain self' text fs), Hname;
      [reflexivity | now rewrite Hname | now rewrite Hname
      | exact Hbk | exact Hct].
  - assert (Hf1 : fs1 !! p_src p = Some text') by apply lookup_insert_eq.
    rewrite (run_plain_put p fs1 text' (yaml_dict self') val) by assumption.
    rewrite <- Hsame.
    assert (Hagain : put self' (p_key p) val = (Ok false, self')).
    { apply put_changed in Hput as (r & tmp' & Hadd & Hr & -> & _).
      unfold put. rewrite entry_or_none_get_entry.
      cbn [yaml_dict separator set_yaml_dict] in *.
      rewrite (add_entry_get _ _ _ _ _ _ Hadd Hr).
      now rewrite Hself. }
    now rewrite Hagain.
Qed.

End ModuleRun.

(* ================================================================== *)
(** * The further properties at concrete inputs                        *)
(* ================================================================== *)

Lemma write_touches_three_paths_witness :
  let self := Build "conf.yml" "yaml" "." ".orig" true
                (VDict [("a", VInt 1)]) in
  let dump := fun _ : value => ["a:"; " 1"] in
  let is_dir := fun p : string => (p =? "conf.yml.orig")%string in
  let fs : gmap string string :=
    <["other.yml" := "b: 2"]> {["conf.yml" := "a: 0"]} in
  let final :=
    Engine.state_after_on is_dir 9 (Disk.write dump dump self fs) fs in
  final !! "other.yml" = fs !! "other.yml"
  /\ final !! "conf.yml.orig/conf.yml" = Some "a: 0".
Proof.
  cbv zeta. split; [|vm_compute; reflexivity].
  apply (write_touches_three_paths
           (fun _ => ["a:"; " 1"]) (fun _ => ["a:"; " 1"])
           (fun p : string => (p =? "conf.yml.orig")%string)
           (Build "conf.yml" "yaml" "." ".orig" true (VDict [("a", VInt 1)]))
           (<["other.yml" := "b: 2"]> {["conf.yml" := "a: 0"]})
           "other.yml" 9); vm_compute; (reflexivity || discriminate).
Defined.

Lemma write_with_backup_completes_witness :
  let self := Build "conf.yml" "yaml" "." ".orig" true
                (VDict [("a", VInt 1)]) in
  let dump := fun _ : value => ["a:"; " 1"] in
  let is_dir := fun p : string => (p =? "backups")%string in
  let fs : gmap string string := {["conf.yml" := "a: 0"]} in
  let ops := Disk.write dump dump self fs in
  let final := Engine.state_after_on is_dir (length ops) ops fs in
  final !! "conf.yml" = Some "a: 1"
  /\ final !! "conf.yml.orig" = Some "a: 0"
  /\ final !! "conf.yml.yedit" = None.
Proof.
  cbv zeta.
  apply (write_with_backup_completes
           (fun _ => ["a:"; " 1"]) (fun _ => ["a:"; " 1"])
           (fun p : string => (p =? "backups")%string)
           (Build "conf.yml" "yaml" "." ".orig" true (VDict [("a", VInt 1)]))
           "a: 0" {["conf.yml" := "a: 0"]}).
  - vm_compute; reflexivity.
  - discriminate.
  - reflexivity.
  - discriminate.
  - discriminate.
  - left. reflexivity.
  - reflexivity.
  - reflexivity.
  - reflexivity.
Defined.

Lemma write_with_empty_backup_ext_witness :
  let self := Build "conf.yml" "yaml" "." "" true (VDict [("a", VInt 1)]) in
  let dump := fun _ : value => ["a:"; " 1"] in
  let fs : gmap string string := {["conf.yml" := "a: 0"]} in
  Disk.state_after 9 (Disk.write dump dump self fs) fs = fs.
Proof.
  cbv zeta.
  apply (write_with_empty_backup_ext
           (fun _ => ["a:"; " 1"]) (fun _ => ["a:"; " 1"])
           (Build "conf.yml" "yaml" "." "" true (VDict [("a", VInt 1)]))
           "a: 0" {["conf.yml" := "a: 0"]} 9).
  - vm_compute; reflexivity.
  - reflexivity.
  - reflexivity.
Defined.

Lemma write_with_yedit_backup_ext_witness :
  let self := Build "conf.yml" "yaml" "." ".yedit" true
                (VDict [("a", VInt 1)]) in
  let dump := fun _ : value => ["a:"; " 1"] in
  let fs : gmap string string := {["conf.yml" := "a: 0"]} in
  let ops := Disk.write dump dump self fs in
  let final := Disk.state_after (length ops) ops fs in
  final !! "conf.yml" = Some "a: 1"
  /\ final !! "conf.yml.yedit" = None.
Proof.
  cbv zeta.
  apply (write_with_yedit_backup_ext
           (fun _ => ["a:"; " 1"]) (fun _ => ["a:"; " 1"])
           (Build "conf.yml" "yaml" "." ".yedit" true (VDict [("a", VInt 1)]))
           "a: 0" {["conf.yml" := "a: 0"]}).
  - vm_compute; reflexivity.
  - discriminate.
  - reflexivity.
  - reflexivity.
  - left. reflexivity.
Defined.

Lemma append_on_entry_witness :
  let self := Build "f.yml" "yaml" "." ".orig" false
                (VDict [("a", VList [VInt 1; VInt 2]); ("b", VInt 5)]) in
  append self "a" (VInt 3)
  = (Ok true,
     set_yaml_dict self
       (VDict [("a", VList [VInt 1; VInt 2; VInt 3]); ("b", VInt 5)]))
  /\ append self "b" (VInt 3) = (Ok false, self).
Proof.
  cbv zeta.
  destruct (append_on_entry
              (Build "f.yml" "yaml" "." ".orig" false
                 (VDict [("a", VList [VInt 1; VInt 2]); ("b", VInt 5)]))
              "a" (VInt 3)) as [H1 _].
  destruct (append_on_entry
              (Build "f.yml" "yaml" "." ".orig" false
                 (VDict [("a", VList [VInt 1; VInt 2]); ("b", VInt 5)]))
              "b" (VInt 3)) as [_ H2].
  split.
  - destruct (H1 [VInt 1; VInt 2]) as [Happ _]; [reflexivity | exact Happ].
  - apply (H2 (VInt 5)); reflexivity.
Defined.

Lemma append_creates_sequence_witness :
  let self := Build "f.yml" "yaml" "." ".orig" false (VDict []) in
  exists self2,
    append self "a.b" (VInt 3) = (Ok true, self2)
    /\ get_entry (yaml_dict self2) "a.b" (separator self2)
       = Ok (VList [VInt 3]).
Proof.
  cbv zeta.
  apply (append_creates_sequence
           (Build "f.yml" "yaml" "." ".orig" false (VDict []))
           (Build "f.yml" "yaml" "." ".orig" false
              (VDict [("a", VDict [("b", VList [])])]))
           "a.b" (VInt 3)); reflexivity.
Defined.

Lemma insert_places_value_witness :
  let self := Build "f.yml" "yaml" "." ".orig" false
                (VDict [("a", VList [VInt 1; VInt 2])]) in
  exists l',
    insert self "a" (VInt 9) 1
    = (Ok true, set_yaml_dict self (VDict [("a", VList l')]))
    /\ length l' = 3%nat
    /\ l' !! 1%nat = Some (VInt 9).
Proof.
  cbv zeta.
  destruct (insert_places_value
              (Build "f.yml" "yaml" "." ".orig" false
                 (VDict [("a", VList [VInt 1; VInt 2])]))
              "a" [VInt 1; VInt 2] (VInt 9) 1)
    as (l' & Hins & _ & Hlen & Hat & _); [reflexivity|].
  exists l'. split; [exact Hins | split; [exact Hlen | exact Hat]].
Defined.

Lemma pop_removes_key_witness :
  let self := Build "f.yml" "yaml" "." ".orig" false
                (VDict [("a", VDict [("x", VInt 1); ("y", VInt 2)])]) in
  let self' := set_yaml_dict self (VDict [("a", VDict [("y", VInt 2)])]) in
  pop self "a" (VStr "x") = (Ok true, self')
  /\ pop self' "a" (VStr "x") = (Ok false, self')
  /\ pop self "a" (VStr "z") = (Ok false, self).
Proof.
  cbv zeta.
  destruct (pop_removes_key
              (Build "f.yml" "yaml" "." ".orig" false
                 (VDict [("a", VDict [("x", VInt 1); ("y", VInt 2)])]))
              "a" "x" [("x", VInt 1); ("y", VInt 2)]) as [H1 _];
    [reflexivity | reflexivity |].
  destruct (pop_removes_key
              (Build "f.yml" "yaml" "." ".orig" false
                 (VDict [("a", VDict [("x", VInt 1); ("y", VInt 2)])]))
              "a" "z" [("x", VInt 1); ("y", VInt 2)]) as [_ H2];
    [reflexivity | reflexivity |].
  destruct H1 as (Hpop & _ & _ & _ & Hagain); [reflexivity|].
  split; [exact Hpop | split; [exact Hagain | apply H2; reflexivity]].
Defined.


Lemma update_merges_mapping_witness :
  let self := Build "f.yml" "yaml" "." ".orig" false
                (VDict [("a", VDict [("x", VInt 1); ("y", VInt 2)])]) in
  update self "a" (VDict [("y", VInt 5); ("z", VInt 6)]) None VNone
  = (Ok true,
     set_yaml_dict self
       (VDict [("a", VDict [("x", VInt 1); ("y", VInt 5); ("z", VInt 6)])]))
  /\ update self "a" (VDict []) None VNone = (Ok true, self).
Proof.
  cbv zeta.
  destruct (update_merges_mapping
              (Build "f.yml" "yaml" "." ".orig" false
                 (VDict [("a", VDict [("x", VInt 1); ("y", VInt 2)])]))
              "a" [("x", VInt 1); ("y", VInt 2)]
              [("y", VInt 5); ("z", VInt 6)] None VNone)
    as (Hup & _ & _ & Hempty); [reflexivity | reflexivity |].
  split; [exact Hup | exact Hempty].
Defined.

Lemma update_adds_missing_value_witness :
  let self := Build "f.yml" "yaml" "." ".orig" false
                (VDict [("a", VList [VInt 1; VInt 2])]) in
  let self' := set_yaml_dict self
                 (VDict [("a", VList [VInt 1; VInt 2; VInt 3])]) in
  update self "a" (VInt 3) None VNone = (Ok true, self')
  /\ update self' "a" (VInt 3) None VNone = (Ok false, self')
  /\ update self "a" (VInt 2) None VNone = (Ok false, self).
Proof.
  cbv zeta.
  destruct (update_adds_missing_value
              (Build "f.yml" "yaml" "." ".orig" false
                 (VDict [("a", VList [VInt 1; VInt 2])]))
              "a" [VInt 1; VInt 2] (VInt 3) VNone) as [H1 _];
    [reflexivity | reflexivity | reflexivity |].
  destruct (update_adds_missing_value
              (Build "f.yml" "yaml" "." ".orig" false
                 (VDict [("a", VList [VInt 1; VInt 2])]))
              "a" [VInt 1; VInt 2] (VInt 2) VNone) as [_ H2];
    [reflexivity | reflexivity | reflexivity |].
  destruct H1 as (Hup & _ & Hagain); [reflexivity|].
  split; [exact Hup | split; [exact Hagain|]].
  apply (H2 1%nat). reflexivity.
Defined.

Lemma update_at_index_witness :
  let self := Build "f.yml" "yaml" "." ".orig" false
                (VDict [("a", VList [VInt 1; VInt 2])]) in
  update self "a" (VInt 7) (Some (-1)) VNone
  = (Ok true, set_yaml_dict self (VDict [("a", VList [VInt 1; VInt 7])]))
  /\ update self "a" (VInt 7) (Some 2) VNone = (Raise IndexError, self).
Proof.
  cbv zeta.
  destruct (update_at_index
              (Build "f.yml" "yaml" "." ".orig" false
                 (VDict [("a", VList [VInt 1; VInt 2])]))
              "a" [VInt 1; VInt 2] (VInt 7) VNone (-1)) as (H1 & _ & _);
    [reflexivity | reflexivity |].
  destruct (update_at_index
              (Build "f.yml" "yaml" "." ".orig" false
                 (VDict [("a", VList [VInt 1; VInt 2])]))
              "a" [VInt 1; VInt 2] (VInt 7) VNone 2) as (_ & H2 & _);
    [reflexivity | reflexivity |].
  split.
  - destruct (H1 1%nat (VInt 2)) as [Hup _];
      [reflexivity | reflexivity | reflexivity | exact Hup].
  - apply H2. reflexivity.
Defined.


Lemma exists_in_mapping_witness :
  let self := Build "f.yml" "yaml" "." ".orig" false
                (VDict [("a", VDict [("x", VInt 1); ("y", VInt 2)])]) in
  Engine.exists_ self "a" (VDict [("x", VInt 1)]) = Ok true
  /\ Engine.exists_ self "a" (VDict [("x", VInt 1); ("z", VInt 1)])
     = Raise KeyError.
Proof.
  cbv zeta.
  destruct (exists_in_mapping
              (Build "f.yml" "yaml" "." ".orig" false
                 (VDict [("a", VDict [("x", VInt 1); ("y", VInt 2)])]))
              "a" [("x", VInt 1); ("y", VInt 2)] [("x", VInt 1)])
    as [H1 _]; [reflexivity|].
  destruct (exists_in_mapping
              (Build "f.yml" "yaml" "." ".orig" false
                 (VDict [("a", VDict [("x", VInt 1); ("y", VInt 2)])]))
              "a" [("x", VInt 1); ("y", VInt 2)]
              [("x", VInt 1); ("z", VInt 1)])
    as [_ H2]; [reflexivity|].
  split.
  - apply H1. intros kv [<-|[]]. reflexivity.
  - apply (H2 [("x", VInt 1)] [] "z" (VInt 1)); [reflexivity | reflexivity |].
    intros kv [<-|[]]. exists (VInt 1). split; reflexivity.
Defined.

Lemma create_without_comparison_witness :
  let self := Build "f.yml" "yaml" "." ".orig" false
                (VDict [("a", VInt 1)]) in
  Engine.create self {["f.yml" := "a: 1"]} "b" (VInt 2) = (Ok false, self)
  /\ Engine.create self ∅ "" (VInt 2) = (Ok true, self).
Proof.
  cbv zeta.
  destruct (create_without_comparison
              (Build "f.yml" "yaml" "." ".orig" false (VDict [("a", VInt 1)]))
              {["f.yml" := "a: 1"]} "b" (VInt 2)) as (H1 & _ & _);
    [discriminate|].
  destruct (create_without_comparison
              (Build "f.yml" "yaml" "." ".orig" false (VDict [("a", VInt 1)]))
              ∅ "" (VInt 2)) as (_ & _ & H3); [discriminate|].
  split.
  - apply H1. vm_compute; reflexivity.
  - apply H3; vm_compute; reflexivity.
Defined.

Lemma delete_at_root_witness :
  let self := Build "f.yml" "yaml" "." ".orig" false
                (VDict [("a", VInt 1); ("b", VInt 2)]) in
  delete self "" None VNone = (Ok true, set_yaml_dict self (VDict []))
  /\ delete self "" (Some 0) VNone = (Raise YeditException, self)
  /\ delete self "" None (VStr "c") = (Raise KeyError, self).
Proof.
  cbv zeta.
  destruct (delete_at_root
              (Build "f.yml" "yaml" "." ".orig" false
                 (VDict [("a", VInt 1); ("b", VInt 2)]))) as [H _].
  destruct (H [("a", VInt 1); ("b", VInt 2)]) as (H1 & H2 & H3);
    [reflexivity|].
  split; [exact H1 | split; [exact (H2 0) | exact (H3 "c")]].
Defined.

Lemma delete_then_lookup_witness :
  let self := Build "f.yml" "yaml" "." ".orig" false
                (VDict [("a", VDict [("b", VInt 1); ("c", VInt 2)])]) in
  exists self',
    delete self "a.b" None VNone = (Ok true, self')
    /\ get_entry (yaml_dict self') "a.b" (separator self') = Ok VNone
    /\ delete self' "a.b" None VNone = (Ok false, self').
Proof.
  cbv zeta.
  apply (delete_then_lookup
           (Build "f.yml" "yaml" "." ".orig" false
              (VDict [("a", VDict [("b", VInt 1); ("c", VInt 2)])]))
           "a.b" [SKey "a"] "b" (VInt 1) None VNone); reflexivity.
Defined.

Lemma put_leaves_other_paths_witness :
  let self := Build "f.yml" "yaml" "." ".orig" false
                (VDict [("a", VDict [("b", VInt 1); ("c", VInt 2)])]) in
  let self' := set_yaml_dict self
                 (VDict [("a", VDict [("b", VInt 5); ("c", VInt 2)])]) in
  put self "a.b" (VInt 5) = (Ok true, self')
  /\ get_entry (yaml_dict self') "a.c" (separator self')
     = get_entry (yaml_dict self) "a.c" (separator self).
Proof.
  cbv zeta. split; [reflexivity|].
  apply (put_leaves_other_paths
           (Build "f.yml" "yaml" "." ".orig" false
              (VDict [("a", VDict [("b", VInt 1); ("c", VInt 2)])]))
           (Build "f.yml" "yaml" "." ".orig" false
              (VDict [("a", VDict [("b", VInt 5); ("c", VInt 2)])]))
           "a.b" "a.c" (VInt 5)).
  - reflexivity.
  - discriminate.
  - vm_compute. intros i [Hi|[Hi|[]]]; discriminate.
  - vm_compute. intros i [Hi|[Hi|[]]]; discriminate.
  - vm_compute. apply Engine.part_later, Engine.part_keys. discriminate.
Defined.

Lemma put_creates_nested_mappings_witness :
  let self := Build "f.yml" "yaml" "." ".orig" false
                (VDict [("x", VInt 1)]) in
  put self "a.b.c" (VInt 2)
  = (Ok true,
     set_yaml_dict self
       (VDict [("x", VInt 1);
               ("a", VDict [("b", VDict [("c", VInt 2)])])])).
Proof.
  cbv zeta.
  apply (put_creates_nested_mappings
           (Build "f.yml" "yaml" "." ".orig" false (VDict [("x", VInt 1)]))
           "a.b.c" [("x", VInt 1)] "a" ["b"; "c"] (VInt 2)); reflexivity.
Defined.

Lemma dotted_path_parses_witness :
  valid_key "conf#log_level" "#" = true
  /\ parse_key "conf#log_level" "#" = [SKey "conf"; SKey "log_level"].
Proof.
  destruct (dotted_path_parses "#"%char ["conf"; "log_level"])
    as (H1 & H2 & _).
  - vm_compute. right; left; reflexivity.
  - discriminate.
  - intros k [<-|[<-|[]]]; split; (discriminate || reflexivity).
  - split; [exact H1 | exact H2].
Defined.

Lemma percent_key_has_no_step_witness :
  let self := Build "f.yml" "yaml" "." ".orig" false
                (VDict [("a", VInt 1)]) in
  valid_key "%%" "." = true
  /\ get self "%%" = Ok (VDict [("a", VInt 1)])
  /\ put self "%%" (VInt 2) = (Raise IndexError, self)
  /\ delete self "%%" None VNone = (Raise IndexError, self).
Proof.
  cbv zeta.
  destruct (percent_key_has_no_step
              (Build "f.yml" "yaml" "." ".orig" false (VDict [("a", VInt 1)]))
              "%%") as (H1 & _ & H3 & H4 & H5);
    [discriminate | reflexivity | reflexivity |].
  split; [exact H1 | split; [exact H3 | split]].
  - apply H4. reflexivity.
  - apply H5.
Defined.

Lemma parse_value_coercion_witness :
  let yaml_load := fun _ : string => Some (VBool true) in
  Batch.parse_value yaml_load (VStr "yes") "str" = Ok (VStr "yes")
  /\ Batch.parse_value yaml_load (VBool true) "str" = Ok (VStr "True")
  /\ Batch.parse_value yaml_load (VStr "maybe") "bool"
     = Raise YeditException.
Proof.
  cbv zeta.
  destruct (parse_value_coercion (fun _ => Some (VBool true)) VNone "str")
    as (_ & _ & _ & H4 & _).
  destruct (parse_value_coercion (fun _ => Some (VBool true)) VNone "bool")
    as (_ & _ & _ & _ & H5).
  destruct H4 as [Hs Hb]; [reflexivity | reflexivity |].
  split; [exact (Hs "yes") | split; [exact (Hb true)|]].
  apply H5; reflexivity.
Defined.

Lemma process_edits_unchanged_witness :
  let yaml_load := fun _ : string => Some (VInt 1) in
  let json_loads := fun _ : string => Some (VInt 1) in
  let py_str := fun _ : value => "1" in
  let yamlfile := Build "f.yml" "yaml" "." ".orig" false
                    (VDict [("a", VInt 1)]) in
  let edits := [Batch.Edit (Some "a") (Some (VStr "1")) None None None
                  None None] in
  let r := Batch.process_edits yaml_load json_loads py_str edits yamlfile in
  r.1 = Batch.Done (false, [])
  /\ Batch.doc r.2 = yamlfile /\ Batch.olds r.2 = [].
Proof.
  cbv zeta. split; [reflexivity|].
  destruct (process_edits_unchanged
              (fun _ => Some (VInt 1)) (fun _ => Some (VInt 1)) (fun _ => "1")
              [Batch.Edit (Some "a") (Some (VStr "1")) None None None
                 None None]
              (Build "f.yml" "yaml" "." ".orig" false (VDict [("a", VInt 1)]))
              []
              (Batch.BatchState
                 (Build "f.yml" "yaml" "." ".orig" false
                    (VDict [("a", VInt 1)])) [] []))
    as (_ & Hdoc & Holds); [reflexivity|].
  split; [exact Hdoc | exact Holds].
Defined.

Lemma process_edits_in_order_witness :
  let yaml_load := fun _ : string => Some (VInt 1) in
  let json_loads := fun _ : string => Some (VInt 1) in
  let py_str := fun _ : value => "1" in
  let yamlfile := Build "f.yml" "yaml" "." ".orig" false (VDict []) in
  let a := [Batch.Edit (Some "a") (Some (VInt 1)) None None None None None] in
  let b := [Batch.Edit (Some "a[0]") (Some (VInt 2)) None None None
              None None;
            Batch.Edit (Some "b") (Some (VInt 3)) None None None None None] in
  let after_a := Build "f.yml" "yaml" "." ".orig" false
                   (VDict [("a", VInt 1)]) in
  (Batch.process_edits yaml_load json_loads py_str (a ++ b) yamlfile).1
  = Batch.Fault (Batch.PyExn YeditException)
  /\ Batch.doc
       (Batch.process_edits yaml_load json_loads py_str (a ++ b) yamlfile).2
     = Batch.doc
         (Batch.process_edits yaml_load json_loads py_str b after_a).2.
Proof.
  cbv zeta. split; [reflexivity|].
  destruct (process_edits_in_order
              (fun _ => Some (VInt 1)) (fun _ => Some (VInt 1)) (fun _ => "1")
              [Batch.Edit (Some "a") (Some (VInt 1)) None None None None None]
              [Batch.Edit (Some "a[0]") (Some (VInt 2)) None None None
                 None None;
               Batch.Edit (Some "b") (Some (VInt 3)) None None None None None]
              (Build "f.yml" "yaml" "." ".orig" false (VDict [])))
    as [_ H].
  destruct (H true [("a", 1%nat)]
              (Batch.BatchState
                 (Build "f.yml" "yaml" "." ".orig" false
                    (VDict [("a", VInt 1)]))
                 [VDict []] [("a", 1%nat)])) as [Hdoc _];
    [reflexivity | exact Hdoc].
Defined.

Lemma update_results_show_final_witness :
  let yaml_load := fun _ : string => Some (VInt 1) in
  let json_loads := fun _ : string => Some (VInt 1) in
  let py_str := fun _ : value => "1" in
  let yamlfile := Build "f.yml" "yaml" "." ".orig" false
                    (VDict [("a", VList [VInt 1])]) in
  let edits :=
    [Batch.Edit (Some "a") (Some (VInt 2)) None (Some "update") None
       None None;
     Batch.Edit (Some "a") (Some (VInt 3)) None (Some "update") None
       None None] in
  let r := Batch.process_edits yaml_load json_loads py_str edits yamlfile in
  r.1 = Batch.Done (true, [("a", 0%nat); ("a", 0%nat)])
  /\ forall key obj,
       In (key, obj) [("a", 0%nat); ("a", 0%nat)] ->
       Batch.shown r.2 obj
       = Some (VDict [("a", VList [VInt 1; VInt 2; VInt 3])]).
Proof.
  cbv zeta. split; [reflexivity|].
  destruct (update_results_show_final
              (fun _ => Some (VInt 1)) (fun _ => Some (VInt 1)) (fun _ => "1")
              [Batch.Edit (Some "a") (Some (VInt 2)) None (Some "update") None
                 None None;
               Batch.Edit (Some "a") (Some (VInt 3)) None (Some "update") None
                 None None]
              (Build "f.yml" "yaml" "." ".orig" false
                 (VDict [("a", VList [VInt 1])]))
              true [("a", 0%nat); ("a", 0%nat)]
              (Batch.BatchState
                 (Build "f.yml" "yaml" "." ".orig" false
                    (VDict [("a", VList [VInt 1; VInt 2; VInt 3])]))
                 [] [("a", 0%nat); ("a", 0%nat)])) as [_ H].
  - intros ed [<-|[<-|[]]]; reflexivity.
  - reflexivity.
  - exact H.
Defined.

Lemma unchanged_reply_leaves_disk_witness :
  let yaml_load := fun _ : string => Some (VDict [("a", VInt 1)]) in
  let json_loads := fun _ : string => Some (VDict []) in
  let py_str := fun _ : value => "1" in
  let dump := fun _ : value => ["a:"; " 1"] in
  let p := Ansible.Params "present" "conf.yml" VNone "yaml" "a" (VInt 1) ""
             false false false None VNone "yaml" false ".orig" "." None in
  let fs : gmap string string := {["conf.yml" := "a: 1"]} in
  Ansible.run_ansible yaml_load json_loads py_str dump dump p fs
  = (Ansible.Return (Ansible.Report false (Ansible.Edits [])), fs)
  /\ fs = fs.
Proof.
  cbv zeta. split; [reflexivity|].
  apply (unchanged_reply_leaves_disk
           (fun _ => Some (VDict [("a", VInt 1)])) (fun _ => Some (VDict []))
           (fun _ => "1") (fun _ => ["a:"; " 1"]) (fun _ => ["a:"; " 1"])
           (Ansible.Params "present" "conf.yml" VNone "yaml" "a" (VInt 1) ""
              false false false None VNone "yaml" false ".orig" "." None)
           {["conf.yml" := "a: 1"]} {["conf.yml" := "a: 1"]}
           (Ansible.Report false (Ansible.Edits []))).
  - reflexivity.
  - discriminate.
Defined.

Lemma missing_source_is_never_created_witness :
  let yaml_load := fun _ : string => Some (VDict [("a", VInt 1)]) in
  let json_loads := fun _ : string => Some (VDict []) in
  let py_str := fun _ : value => "1" in
  let dump := fun _ : value => ["a:"; " 1"] in
  let p := Ansible.Params "present" "conf.yml" VNone "yaml" "a" (VInt 1) ""
             false false false None VNone "yaml" false ".orig" "." None in
  let run := Ansible.run_ansible yaml_load json_loads py_str dump dump p ∅ in
  run.2 = ∅
  /\ (forall res,
         run.1 <> Ansible.Return (Ansible.Report true res))
  /\ run.1 <> Ansible.Return Ansible.Failed.
Proof.
  cbv zeta.
  destruct (missing_source_is_never_created
              (fun _ => Some (VDict [("a", VInt 1)]))
              (fun _ => Some (VDict []))
              (fun _ => "1") (fun _ => ["a:"; " 1"]) (fun _ => ["a:"; " 1"])
              (Ansible.Params "present" "conf.yml" VNone "yaml" "a" (VInt 1)
                 "" false false false None VNone "yaml" false ".orig" "."
                 None)
              ∅) as (H1 & H2 & H3).
  - discriminate.
  - reflexivity.
  - split; [exact H1 | split; [exact H2|]].
    apply H3. right; right; reflexivity.
Defined.

Lemma list_of_content_without_key_witness :
  let yaml_load := fun _ : string => Some (VDict [("a", VInt 1)]) in
  let json_loads := fun _ : string => Some (VDict []) in
  let py_str := fun _ : value => "1" in
  let dump := fun _ : value => ["a:"; " 1"] in
  let p := Ansible.Params "list" "" (VStr "a: 1") "yaml" "" VNone ""
             false false false None VNone "yaml" false ".orig" "." None in
  Ansible.run_ansible yaml_load json_loads py_str dump dump p ∅
  = (Ansible.Crash Ansible.UnboundLocalError, ∅).
Proof.
  cbv zeta.
  apply (list_of_content_without_key
           (fun _ => Some (VDict [("a", VInt 1)])) (fun _ => Some (VDict []))
           (fun _ => "1") (fun _ => ["a:"; " 1"]) (fun _ => ["a:"; " 1"])
           (Ansible.Params "list" "" (VStr "a: 1") "yaml" "" VNone ""
              false false false None VNone "yaml" false ".orig" "." None)
           ∅); try reflexivity.
  intros e. discriminate.
Defined.

Lemma json_source_is_read_as_yaml_witness :
  let yaml_load := fun _ : string => Some (VDict [("a", VInt 1)]) in
  let json_loads := fun _ : string => Some (VDict [("b", VInt 2)]) in
  let py_str := fun _ : value => "1" in
  let dump := fun _ : value => ["a:"; " 1"] in
  let p := Ansible.Params "list" "conf.json" VNone "json" "" VNone ""
             false false false None VNone "yaml" false ".orig" "." None in
  let fs : gmap string string := {["conf.json" := "{}"]} in
  Ansible.run_ansible yaml_load json_loads py_str dump dump p fs
  = (Ansible.Return
       (Ansible.Report false (Ansible.Shown (VDict [("a", VInt 1)]))), fs).
Proof.
  cbv zeta.
  apply (json_source_is_read_as_yaml
           (fun _ => Some (VDict [("a", VInt 1)]))
           (fun _ => Some (VDict [("b", VInt 2)]))
           (fun _ => "1") (fun _ => ["a:"; " 1"]) (fun _ => ["a:"; " 1"])
           (Ansible.Params "list" "conf.json" VNone "json" "" VNone ""
              false false false None VNone "yaml" false ".orig" "." None)
           {["conf.json" := "{}"]} "{}" (VDict [("b", VInt 2)]));
    try reflexivity; discriminate.
Defined.

Lemma present_put_then_rerun_witness :
  let yaml_load := fun s : string =>
    if (s =? "a: 1")%string then Some (VDict [("a", VInt 1)])
    else if (s =? "a: 2")%string then Some (VDict [("a", VInt 2)])
    else None in
  let json_loads := fun _ : string => Some (VDict []) in
  let py_str := fun _ : value => "1" in
  let yaml_dump := fun v : value =>
    if py_eq v (VDict [("a", VInt 2)]) then ["a:"; " 2"] else ["a:"; " 1"] in
  let json_dump := fun _ : value => ["{}"] in
  let p := Ansible.Params "present" "conf.yml" VNone "yaml" "a" (VInt 2) ""
             false false false None VNone "yaml" false ".orig" "." None in
  let fs : gmap string string := {["conf.yml" := "a: 1"]} in
  let fs1 : gmap string string :=
    <["conf.yml" := "a: 2"]> (base.delete "conf.yml.yedit" fs) in
  Ansible.run_ansible yaml_load json_loads py_str yaml_dump json_dump p fs
  = (Ansible.Return
       (Ansible.Report true (Ansible.Edits [("a", VDict [("a", VInt 2)])])),
     fs1)
  /\ Ansible.run_ansible yaml_load json_loads py_str yaml_dump json_dump
       p fs1
     = (Ansible.Return (Ansible.Report false (Ansible.Edits [])), fs1).
Proof.
  cbv zeta.
  apply (present_put_then_rerun
           (fun s : string =>
              if (s =? "a: 1")%string then Some (VDict [("a", VInt 1)])
              else if (s =? "a: 2")%string then Some (VDict [("a", VInt 2)])
              else None)
           (fun _ => Some (VDict [])) (fun _ => "1")
           (fun v : value =>
              if py_eq v (VDict [("a", VInt 2)])
              then ["a:"; " 2"] else ["a:"; " 1"])
           (fun _ => ["{}"])
           (Ansible.Params "present" "conf.yml" VNone "yaml" "a" (VInt 2) ""
              false false false None VNone "yaml" false ".orig" "." None)
           {["conf.yml" := "a: 1"]} "a: 1" (VDict [("a", VInt 1)]) (VInt 2)
           (Build "conf.yml" "yaml" "." ".orig" false
              (VDict [("a", VInt 2)])));
    try reflexivity; discriminate.
Defined.
